(** * RFM scoring: a shallow embedding of the upload handler's scorer

    The development follows the TypeScript source of the upload handler:
    [calculateRFM] (aggregation of transactions per customer, quartile
    scores for recency, frequency and monetary value) and [getSegmentName]
    (the ordered rule chain that names a segment), together with the slice
    of [handler] that decides whether the scorer is called at all.

    JavaScript values are modelled as follows.
    - A [number] that holds money is a binary64 float ([PrimFloat.float]):
      sums and quotients round as they do in JavaScript.
    - A [number] that is a count or an array index is an integer ([Z]);
      the percentile, a quotient of two of them, is an exact rational.
    - A [Date] is its time value in milliseconds, or [None] for an
      Invalid Date (time value NaN).  A whole number of days computed from
      a [Date] is therefore [option Z], with [None] for NaN.
    - A thrown exception is the [Throw] case of [result]. *)

From Stdlib Require Import ZArith QArith List String Ascii Bool Floats.
From Stdlib Require Import Permutation Sorted Lia.
Import ListNotations.

#[local] Set Warnings "-inexact-float".
#[local] Open Scope Z_scope.

(** ** Exceptions *)

Inductive Exception : Type :=
| RangeError (message : string).

Inductive result (A : Type) : Type :=
| Ok (value : A)
| Throw (e : Exception).

Arguments Ok {A} value.
Arguments Throw {A} e.

Definition bind {A B : Type} (r : result A) (k : A -> result B) : result B :=
  match r with
  | Ok a => k a
  | Throw e => Throw e
  end.

Notation "x <- r ;; k" := (bind r (fun x => k))
  (at level 61, r at next level, right associativity).

(** [Array.prototype.map] with a callback that may throw: the first
    exception, in index order, aborts the whole map. *)
Fixpoint mapM {A B : Type} (f : A -> result B) (l : list A) : result (list B) :=
  match l with
  | [] => Ok []
  | a :: rest =>
      b <- f a ;;
      bs <- mapM f rest ;;
      Ok (b :: bs)
  end.

(** ** Dates *)

Definition Date : Type := option Z.

(** [a > b] on two [Date]s compares their time values; a comparison with
    NaN is false. *)
Definition Date_gt (a b : Date) : bool :=
  match a, b with
  | Some x, Some y => y <? x
  | _, _ => false
  end.

Definition msPerDay : Z := 1000 * 60 * 60 * 24.

(** Proleptic Gregorian calendar date of a day number counted from
    1970-01-01, as [Date.prototype.toISOString] computes it in UTC. *)
Definition civilFromDays (days : Z) : Z * Z * Z :=
  let z := days + 719468 in
  let era := z / 146097 in
  let doe := z - era * 146097 in
  let yoe := (doe - doe / 1460 + doe / 36524 - doe / 146096) / 365 in
  let doy := doe - (365 * yoe + yoe / 4 - yoe / 100) in
  let mp := (5 * doy + 2) / 153 in
  let d := doy - (153 * mp + 2) / 5 + 1 in
  let m := if mp <? 10 then mp + 3 else mp - 9 in
  let y := yoe + era * 400 + (if m <=? 2 then 1 else 0) in
  (y, m, d).

Definition digit (n : Z) : ascii := ascii_of_nat (48 + Z.to_nat (n mod 10)).

Fixpoint padDigits (width : nat) (n : Z) (acc : string) : string :=
  match width with
  | O => acc
  | S w => padDigits w (n / 10) (String (digit n) acc)
  end.

(** [d.toISOString().split('T')[0]]: the part before the [T], that is
    YYYY-MM-DD (with a sign and six digits for years outside 0..9999).
    An Invalid Date makes [toISOString] throw a [RangeError]. *)
Definition toISODate (d : Date) : result string :=
  match d with
  | None => Throw (RangeError "Invalid time value")
  | Some t =>
      let '(y, m, day) := civilFromDays (t / msPerDay) in
      let year :=
        if (0 <=? y) && (y <=? 9999) then padDigits 4 y ""
        else if y <? 0 then String "-" (padDigits 6 (- y) "")
        else String "+" (padDigits 6 y "") in
      Ok (year ++ "-" ++ padDigits 2 m "" ++ "-" ++ padDigits 2 day "")%string
  end.

(** ** Numbers as the quantile code uses them

    [getQuantile] and the sort only use strict equality ([indexOf]), the
    comparator's subtraction and the sign test of its result. *)

Class JSNumber (A : Type) : Type := {
  strictEq : A -> A -> bool;
  minus : A -> A -> A;
  isNegative : A -> bool
}.

#[export] Instance JSNumber_Z : JSNumber Z := {
  strictEq := Z.eqb;
  minus := Z.sub;
  isNegative := fun x => x <? 0
}.

(** An integer or NaN: NaN is equal to nothing, the difference with NaN is
    NaN, and NaN is not negative. *)
#[export] Instance JSNumber_days : JSNumber (option Z) := {
  strictEq := fun a b =>
    match a, b with
    | Some x, Some y => x =? y
    | _, _ => false
    end;
  minus := fun a b =>
    match a, b with
    | Some x, Some y => Some (x - y)
    | _, _ => None
    end;
  isNegative := fun a =>
    match a with
    | Some x => x <? 0
    | None => false
    end
}.

#[export] Instance JSNumber_float : JSNumber float := {
  strictEq := PrimFloat.eqb;
  minus := PrimFloat.sub;
  isNegative := fun x => PrimFloat.ltb x 0%float
}.

(** The float that holds an integer-valued [number] (a count or an index,
    of magnitude below 2^53). *)
Definition toNumber (n : Z) : float :=
  if n <? 0 then (- PrimFloat.of_uint63 (Uint63.of_Z (- n)))%float
  else PrimFloat.of_uint63 (Uint63.of_Z n).

(** ** Arrays *)

Section Arrays.
Context {A : Type} `{JSNumber A}.

(** [values.sort((a, b) => a - b)]: the sort is stable, and an element is
    moved before another only when the comparator is negative.  On an
    array without NaN the comparator is consistent, the language fixes
    the result (ascending, equal elements in their order of arrival) and
    [sort] returns it.  On an array that holds a NaN the comparator is not
    consistent and the language leaves the order to the engine: [sort]
    then returns a rearrangement of the array that need not be the
    engine's (for 2, 1, NaN, 0 it returns 1, 2, NaN, 0, where V8 returns
    0, 1, 2, NaN).  Every statement about an index in a sorted array is
    therefore made for arrays without NaN; the statements made for all
    arrays use the range of the quartile, the length of the sorted array
    and the equality of two lookups only, which are the same for every
    rearrangement. *)
Definition compareFn (a b : A) : A := minus a b.

Fixpoint insert (x : A) (sorted : list A) : list A :=
  match sorted with
  | [] => [x]
  | y :: rest =>
      if isNegative (compareFn y x) then y :: insert x rest
      else x :: y :: rest
  end.

Fixpoint sort (values : list A) : list A :=
  match values with
  | [] => []
  | x :: rest => insert x (sort rest)
  end.

(** [values.indexOf(value)]: first index whose element is strictly
    equal to [value], or -1. *)
Fixpoint indexOfFrom (i : Z) (values : list A) (value : A) : Z :=
  match values with
  | [] => -1
  | x :: rest =>
      if strictEq x value then i else indexOfFrom (i + 1) rest value
  end.

Definition indexOf (values : list A) (value : A) : Z :=
  indexOfFrom 0 values value.

(** The percentile [index / values.length] is kept as an exact rational.
    The thresholds 0.25, 0.5 and 0.75 are binary64 numbers and the
    division is correctly rounded, so the comparisons on the rounded
    quotient agree with the exact ones for every array length below
    2^53; array lengths are below 2^32. *)
Definition getQuantile (values : list A) (value : A) : Z :=
  let index := indexOf values value in
  let percentile := (inject_Z index / inject_Z (Z.of_nat (List.length values)))%Q in
  if Qle_bool percentile 0.25 then 1
  else if Qle_bool percentile 0.5 then 2
  else if Qle_bool percentile 0.75 then 3
  else 4.
End Arrays.

(** ** Records of the source *)

Module Transaction.
Record t : Type := mk {
  customer_id : string;
  customer_name : option string;
  (** The [Date] that [new Date(transaction_date)] builds from the
      field's text. *)
  transaction_date : Date;
  transaction_amount : float
}.
End Transaction.

Module RFMScore.
Record t : Type := mk {
  customer_id : string;
  recency_score : Z;
  frequency_score : Z;
  monetary_score : Z;
  total_transactions : Z;
  total_spend : float;
  avg_spend : float;
  last_transaction_date : string;
  segment_name : string
}.
End RFMScore.

(** The value type of the [customerData] map. *)
Module CustomerData.
Record t : Type := mk {
  transactions : Z;
  totalSpend : float;
  lastDate : Date
}.
End CustomerData.

(** An element of the [customers] array. *)
Module Customer.
Record t : Type := mk {
  customer_id : string;
  recency : option Z;
  frequency : Z;
  monetary : float;
  lastDate : Date
}.
End Customer.

(** ** The [customerData] map

    A JavaScript [Map] iterates in insertion order, and the order of the
    output follows it: the map is a list of entries, each key once. *)

Definition CustomerMap : Type := list (string * CustomerData.t).

Fixpoint Map_get (m : CustomerMap) (key : string) : option CustomerData.t :=
  match m with
  | [] => None
  | (k, v) :: rest => if String.eqb k key then Some v else Map_get rest key
  end.

(** Assignment to the fields of the object the map holds for [key]: the
    entry keeps its place. *)
Fixpoint Map_assign (m : CustomerMap) (key : string) (v : CustomerData.t)
  : CustomerMap :=
  match m with
  | [] => []
  | (k, old) :: rest =>
      if String.eqb k key then (k, v) :: rest
      else (k, old) :: Map_assign rest key v
  end.

(** [customerData.set(key, v)] for a key the map does not hold. *)
Definition Map_set (m : CustomerMap) (key : string) (v : CustomerData.t)
  : CustomerMap :=
  m ++ [(key, v)].

(** ** Segment names *)

Definition getSegmentName (r f m : Z) : string :=
  let score := r + f + m in
  if (4 <=? r) && (4 <=? f) && (4 <=? m) then "Champions"
  else if (3 <=? r) && (3 <=? f) && (3 <=? m) then "Loyal Customers"
  else if (4 <=? r) && (f <=? 2) then "New Customers"
  else if (3 <=? r) && (1 <=? f) && (2 <=? m) then "Potential Loyalists"
  else if (2 <=? r) && (r <=? 3) && (2 <=? f) && (2 <=? m)
       then "Customers Needing Attention"
  else if (r <=? 2) && (3 <=? f) then "At Risk"
  else if (r <=? 2) && (f <=? 2) && (3 <=? m) then "Big Spenders at Risk"
  else if (r <=? 1) && (f <=? 2) then "Lost Customers"
  else if 9 <=? score then "High Value"
  else if 6 <=? score then "Medium Value"
  else "Low Value".

(** ** The scorer *)

(** The body of [transactions.forEach]. *)
Definition aggregate (customerData : CustomerMap) (t : Transaction.t)
  : CustomerMap :=
  let existing := Map_get customerData (Transaction.customer_id t) in
  let transactionDate := Transaction.transaction_date t in
  match existing with
  | Some existing =>
      Map_assign customerData (Transaction.customer_id t)
        {| CustomerData.transactions := CustomerData.transactions existing + 1;
           CustomerData.totalSpend :=
             (CustomerData.totalSpend existing
              + Transaction.transaction_amount t)%float;
           CustomerData.lastDate :=
             if Date_gt transactionDate (CustomerData.lastDate existing)
             then transactionDate
             else CustomerData.lastDate existing |}
  | None =>
      Map_set customerData (Transaction.customer_id t)
        {| CustomerData.transactions := 1;
           CustomerData.totalSpend := Transaction.transaction_amount t;
           CustomerData.lastDate := transactionDate |}
  end.

Definition customerDataOf (transactions : list Transaction.t) : CustomerMap :=
  fold_left aggregate transactions [].

(** [Math.floor((now.getTime() - lastDate.getTime()) / msPerDay)].  The
    time values are integers of magnitude at most 8.64e15, so the
    difference is exact and the rounded quotient has the floor of the
    exact one; [Z.div] rounds down as [Math.floor] does. *)
Definition recencyOf (now : Z) (lastDate : Date) : option Z :=
  match lastDate with
  | Some last => Some ((now - last) / msPerDay)
  | None => None
  end.

Definition toCustomer (now : Z) (entry : string * CustomerData.t) : Customer.t :=
  let '(customerId, data) := entry in
  {| Customer.customer_id := customerId;
     Customer.recency := recencyOf now (CustomerData.lastDate data);
     Customer.frequency := CustomerData.transactions data;
     Customer.monetary := CustomerData.totalSpend data;
     Customer.lastDate := CustomerData.lastDate data |}.

Definition customersOf (now : Z) (transactions : list Transaction.t)
  : list Customer.t :=
  map (toCustomer now) (customerDataOf transactions).

(** The callback of the final [customers.map]. *)
Definition scoreCustomer (recencyValues : list (option Z))
  (frequencyValues : list Z) (monetaryValues : list float)
  (customer : Customer.t) : result RFMScore.t :=
  let r := 5 - getQuantile recencyValues (Customer.recency customer) in
  let f := getQuantile frequencyValues (Customer.frequency customer) in
  let m := getQuantile monetaryValues (Customer.monetary customer) in
  last_transaction_date <- toISODate (Customer.lastDate customer) ;;
  Ok {| RFMScore.customer_id := Customer.customer_id customer;
        RFMScore.recency_score := r;
        RFMScore.frequency_score := f;
        RFMScore.monetary_score := m;
        RFMScore.total_transactions := Customer.frequency customer;
        RFMScore.total_spend := Customer.monetary customer;
        RFMScore.avg_spend :=
          (Customer.monetary customer
           / toNumber (Customer.frequency customer))%float;
        RFMScore.last_transaction_date := last_transaction_date;
        RFMScore.segment_name := getSegmentName r f m |}.

(** The three sorted arrays of metric values. *)
Definition recencyValues (customers : list Customer.t) : list (option Z) :=
  sort (map Customer.recency customers).

Definition frequencyValues (customers : list Customer.t) : list Z :=
  sort (map Customer.frequency customers).

Definition monetaryValues (customers : list Customer.t) : list float :=
  sort (map Customer.monetary customers).

(** [calculateRFM], with the current time [now] of [new Date()] as an
    argument. *)
Definition calculateRFM (now : Z) (transactions : list Transaction.t)
  : result (list RFMScore.t) :=
  let customers := customersOf now transactions in
  mapM (scoreCustomer (recencyValues customers) (frequencyValues customers)
          (monetaryValues customers))
       customers.

(** ** The handler around the scorer

    Of [handler], the part between the parsing of the CSV rows and the
    database writes: [newTransactions] are the rows kept by the parser,
    [existingTransactions] the rows read from the [transactions] table.
    An exception of the scorer is caught by the handler's [catch], which
    answers with the exception's message, or with a fixed text when the
    message is empty.  With [Scored] the handler goes on to the database
    writes, holding these scores. *)

Inductive Response : Type :=
| ErrorResponse (status : Z) (error : string)
| Scored (rfmScores : list RFMScore.t).

Definition scoreUpload (now : Z)
  (existingTransactions newTransactions : list Transaction.t) : Response :=
  if (Z.of_nat (List.length newTransactions) =? 0) then
    ErrorResponse 400 "No valid transactions found in CSV"
  else
    let allTransactions := existingTransactions ++ newTransactions in
    match calculateRFM now allTransactions with
    | Ok rfmScores => Scored rfmScores
    | Throw (RangeError message) =>
        ErrorResponse 500
          (if String.eqb message "" then "Failed to process CSV" else message)
    end.

(** * The upload handler

    [handler] reads a CSV file from a form, parses it, scores the old and
    the new transactions together and writes the result to the database.
    Text is a [string] of code units below 256.  What the platform
    provides is an argument of the model: [parseFloat] and the parsing of
    dates by [new Date], the environment, the request, and the answers of
    the database client to each call.  The client reports a failure in
    its answer and does not throw, and [createClient] succeeds on a URL
    and a key that are not empty. *)

(** ** Strings and arrays of strings *)

(** White space as [String.prototype.trim] removes it, among the code
    units below 256: TAB, LF, VT, FF, CR, space and no-break space. *)
Definition isWhiteSpace (c : ascii) : bool :=
  let n := nat_of_ascii c in
  ((9 <=? n) && (n <=? 13) || (n =? 32) || (n =? 160))%nat.

Fixpoint trimStart (s : string) : string :=
  match s with
  | EmptyString => EmptyString
  | String c rest => if isWhiteSpace c then trimStart rest else s
  end.

Fixpoint trimEnd (s : string) : string :=
  match s with
  | EmptyString => EmptyString
  | String c rest =>
      match trimEnd rest with
      | EmptyString => if isWhiteSpace c then EmptyString else String c EmptyString
      | kept => String c kept
      end
  end.

Definition trim (s : string) : string := trimEnd (trimStart s).

(** [toLowerCase] on code units below 256: A-Z, and the capital letters
    of Latin-1 (U+00C0 to U+00DE without the multiplication sign). *)
Definition lowerCaseUnit (c : ascii) : ascii :=
  let n := nat_of_ascii c in
  if ((65 <=? n) && (n <=? 90)
      || (192 <=? n) && (n <=? 222) && negb (n =? 215))%nat
  then ascii_of_nat (n + 32)
  else c.

Fixpoint toLowerCase (s : string) : string :=
  match s with
  | EmptyString => EmptyString
  | String c rest => String (lowerCaseUnit c) (toLowerCase rest)
  end.

(** [s.split(separator)] for a separator of one code unit: the pieces
    between the separators, at least one. *)
Fixpoint split (separator : ascii) (s : string) : list string :=
  match s with
  | EmptyString => [EmptyString]
  | String c rest =>
      if Ascii.eqb c separator then EmptyString :: split separator rest
      else match split separator rest with
           | piece :: pieces => String c piece :: pieces
           | [] => [String c EmptyString]
           end
  end.

Definition includes (values : list string) (value : string) : bool :=
  existsb (String.eqb value) values.

Fixpoint stringIndexOfFrom (i : Z) (values : list string) (value : string) : Z :=
  match values with
  | [] => -1
  | x :: rest =>
      if String.eqb x value then i else stringIndexOfFrom (i + 1) rest value
  end.

Definition stringIndexOf (values : list string) (value : string) : Z :=
  stringIndexOfFrom 0 values value.

(** [values[i]]: [None] is [undefined]. *)
Definition at_ (values : list string) (i : Z) : option string :=
  if i <? 0 then None else nth_error values (Z.to_nat i).

(** A string is truthy when it is defined and not empty. *)
Definition truthy (value : option string) : bool :=
  match value with
  | Some s => negb (String.eqb s "")
  | None => false
  end.

(** [a || b] on two strings. *)
Definition orElse (a b : option string) : option string :=
  if truthy a then a else b.

(** A number is falsy when it is NaN, 0 or -0; [x || 0]. *)
Definition falsyNumber (x : float) : bool :=
  (negb (x =? x) || (x =? 0))%float.

Definition orZero (x : float) : float :=
  if falsyNumber x then 0%float else x.

(** ** The rows of a CSV file *)

(** What a [transaction_date] property holds before [new Date] reads
    it: text, [undefined] (a row of the file that ends before the
    column) or [null] (a stored row without a date). *)
Inductive DateField : Type :=
| DateText (text : string)
| DateUndefined
| DateNull.

(** [values[i]] as a date property. *)
Definition dateFieldAt (value : option string) : DateField :=
  match value with
  | Some text => DateText text
  | None => DateUndefined
  end.

(** The [Transaction] interface as the handler fills it, from a row of
    the file or from a stored row: the date is not yet a [Date]. *)
Module RawTransaction.
Record t : Type := mk {
  customer_id : string;
  customer_name : option string;
  transaction_date : DateField;
  transaction_amount : float
}.
End RawTransaction.

Inductive CsvResult : Type :=
| MissingHeaders (missingHeaders : list string)
| Rows (newTransactions : list RawTransaction.t).

Definition requiredHeaders : list string :=
  [ "customer_id"; "transaction_date"; "transaction_amount" ]%string.

(** [lines] and [headers] of the handler. *)
Definition csvLines (csvText : string) : list string :=
  split "010" (trim csvText).

Definition csvHeaders (csvText : string) : list string :=
  map (fun h => toLowerCase (trim h))
    (split "," (hd EmptyString (csvLines csvText))).

Section Csv.
Variable parseFloat : string -> float.

(** [parseFloat(values[i])]: [undefined] reads as NaN. *)
Definition parseFloatAt (values : list string) (i : Z) : float :=
  match at_ values i with
  | Some s => parseFloat s
  | None => nan
  end.

(** The body of the loop over the lines after the header. *)
Definition parseRow (customerIdIndex dateIndex amountIndex nameIndex : Z)
  (line : string) : list RawTransaction.t :=
  let values := map trim (split "," line) in
  if (3 <=? Z.of_nat (List.length values))
     && truthy (at_ values customerIdIndex)
  then
    match at_ values customerIdIndex with
    | Some customerId =>
        [ {| RawTransaction.customer_id := customerId;
             RawTransaction.customer_name :=
               if 0 <=? nameIndex then at_ values nameIndex else None;
             RawTransaction.transaction_date :=
               dateFieldAt (at_ values dateIndex);
             RawTransaction.transaction_amount :=
               orZero (parseFloatAt values amountIndex) |} ]
    | None => []
    end
  else [].

(** From [csvText] to [newTransactions], or to the missing headers. *)
Definition parseCsv (csvText : string) : CsvResult :=
  let lines := csvLines csvText in
  let headers := csvHeaders csvText in
  let missingHeaders :=
    filter (fun h => negb (includes headers h)) requiredHeaders in
  if 0 <? Z.of_nat (List.length missingHeaders) then
    MissingHeaders missingHeaders
  else
    let customerIdIndex := stringIndexOf headers "customer_id" in
    let dateIndex := stringIndexOf headers "transaction_date" in
    let amountIndex := stringIndexOf headers "transaction_amount" in
    let nameIndex := stringIndexOf headers "customer_name" in
    Rows (flat_map (parseRow customerIdIndex dateIndex amountIndex nameIndex)
            (tl lines)).
End Csv.

(** ** The request, the environment and the database client *)

Module Env.
Record t : Type := mk {
  SUPABASE_URL : option string;
  VITE_SUPABASE_URL : option string;
  SUPABASE_ANON_KEY : option string;
  VITE_SUPABASE_PUBLISHABLE_KEY : option string
}.
End Env.

Module File.
Record t : Type := mk {
  name : string;
  size : Z;
  text : string
}.
End File.

(** What [req.formData()] and [formData.get('file')] give: the form may
    fail to parse, the entry may be absent, it may be a text field (on
    which the call of [text] raises a TypeError, with the engine's
    message), or it is a file. *)
Inductive FormEntry : Type :=
| FormDataRejected (message : string)
| NoEntry
| TextEntry (value : string) (typeErrorMessage : string)
| FileEntry (file : File.t).

Module Request.
Record t : Type := mk {
  method : string;
  authorization : option string;
  file : FormEntry
}.
End Request.

Module User.
Record t : Type := mk { id : string }.
End User.

(** The answer of [supabase.auth.getUser()]. *)
Module AuthResult.
Record t : Type := mk {
  user : option User.t;
  authError : option string
}.
End AuthResult.

Module UploadHistoryRow.
Record t : Type := mk {
  user_id : string;
  file_name : string;
  file_size : Z;
  transactions_count : Z;
  customers_count : Z
}.
End UploadHistoryRow.

(** A row for the [transactions] table: the fields of the transaction,
    with the user and the upload. *)
Module TransactionRow.
Record t : Type := mk {
  user_id : string;
  transaction : RawTransaction.t;
  upload_id : string
}.
End TransactionRow.

(** A row for the [customer_segments] table: the fields of the score,
    with the user and the upload. *)
Module SegmentRow.
Record t : Type := mk {
  user_id : string;
  score : RFMScore.t;
  upload_id : string
}.
End SegmentRow.

(** The requests that change the database, as the handler sends them. *)
Inductive Write : Type :=
| InsertUploadHistory (row : UploadHistoryRow.t)
| InsertTransactions (rows : list TransactionRow.t)
| DeleteSegments (user_id : string)
| InsertSegments (rows : list SegmentRow.t).

(** The answers of the database client to the calls of one request:
    the rows of the user in [transactions], each with the text of its
    customer_id, a date that is text or [null], and its amount as
    [Number] reads it ([None] is a null [data]); the id of the new
    [upload_history] row or the message of the error; for the other two
    inserts, the message of the error if there is one. *)
Module Backend.
Record t : Type := mk {
  getUser : string -> AuthResult.t;
  selectTransactions : string -> option (list RawTransaction.t);
  insertUploadHistory : UploadHistoryRow.t -> string + string;
  insertTransactions : list TransactionRow.t -> option string;
  insertSegments : list SegmentRow.t -> option string
}.
End Backend.

Inductive Body : Type :=
| NullBody
| ErrorBody (error : string)
| SuccessBody (transactions_processed customers_segmented : Z).

Module HttpResponse.
Record t : Type := mk {
  status : Z;
  headers : list (string * string);
  body : Body
}.
End HttpResponse.

Definition corsHeaders : list (string * string) :=
  [ ("Access-Control-Allow-Origin", "*");
    ("Access-Control-Allow-Headers",
     "authorization, x-client-info, apikey, content-type") ]%string.

(** [new Response(JSON.stringify(body), { status, headers })] with the
    CORS headers and the JSON content type. *)
Definition json (status : Z) (body : Body) : HttpResponse.t :=
  {| HttpResponse.status := status;
     HttpResponse.headers :=
       corsHeaders ++ [("Content-Type", "application/json")%string];
     HttpResponse.body := body |}.

(** The [catch] of the handler, for an error with this message. *)
Definition caught (message : string) : HttpResponse.t :=
  json 500
    (ErrorBody (if String.eqb message "" then "Failed to process CSV"
                else message)).

(** ** The handler *)

Section Handler.
Variable parseFloat : string -> float.
Variable newDate : string -> Date.

(** [new Date(transaction_date)]: text is parsed, [undefined] is read
    as NaN and gives an Invalid Date, [null] is read as 0 and gives
    1970-01-01T00:00:00Z. *)
Definition dateOf (field : DateField) : Date :=
  match field with
  | DateText text => newDate text
  | DateUndefined => None
  | DateNull => Some 0
  end.

(** The transaction as the scorer reads it. *)
Definition toTransaction (t : RawTransaction.t) : Transaction.t :=
  {| Transaction.customer_id := RawTransaction.customer_id t;
     Transaction.customer_name := RawTransaction.customer_name t;
     Transaction.transaction_date :=
       dateOf (RawTransaction.transaction_date t);
     Transaction.transaction_amount := RawTransaction.transaction_amount t |}.

(** [new Set(newTransactions.map(t => t.customer_id)).size]. *)
Definition customersCount (newTransactions : list RawTransaction.t) : Z :=
  Z.of_nat (List.length
              (nodup string_dec
                 (map RawTransaction.customer_id newTransactions))).

(** The handler from the scores on: the three inserts and the delete,
    each insert ending the request when it fails. *)
Definition store (backend : Backend.t) (user : User.t) (file : File.t)
  (newTransactions : list RawTransaction.t) (rfmScores : list RFMScore.t)
  : list Write * HttpResponse.t :=
  let uploadRow :=
    {| UploadHistoryRow.user_id := User.id user;
       UploadHistoryRow.file_name := File.name file;
       UploadHistoryRow.file_size := File.size file;
       UploadHistoryRow.transactions_count :=
         Z.of_nat (List.length newTransactions);
       UploadHistoryRow.customers_count := customersCount newTransactions |} in
  match Backend.insertUploadHistory backend uploadRow with
  | inr uploadError => ([InsertUploadHistory uploadRow], caught uploadError)
  | inl uploadId =>
      let transactionsToInsert :=
        map (fun t => {| TransactionRow.user_id := User.id user;
                         TransactionRow.transaction := t;
                         TransactionRow.upload_id := uploadId |})
            newTransactions in
      match Backend.insertTransactions backend transactionsToInsert with
      | Some transactionError =>
          ([InsertUploadHistory uploadRow;
            InsertTransactions transactionsToInsert],
           caught transactionError)
      | None =>
          let segmentsToInsert :=
            map (fun score => {| SegmentRow.user_id := User.id user;
                                 SegmentRow.score := score;
                                 SegmentRow.upload_id := uploadId |})
                rfmScores in
          let writes :=
            [InsertUploadHistory uploadRow;
             InsertTransactions transactionsToInsert;
             DeleteSegments (User.id user);
             InsertSegments segmentsToInsert] in
          match Backend.insertSegments backend segmentsToInsert with
          | Some segmentError => (writes, caught segmentError)
          | None =>
              (writes,
               json 200
                 (SuccessBody (Z.of_nat (List.length newTransactions))
                    (Z.of_nat (List.length rfmScores))))
          end
      end
  end.

(** The handler from the text of the file on. *)
Definition processCsv (backend : Backend.t) (now : Z) (user : User.t)
  (file : File.t) : list Write * HttpResponse.t :=
  match parseCsv parseFloat (File.text file) with
  | MissingHeaders missingHeaders =>
      ([], json 400
             (ErrorBody ("Missing required headers: "
                         ++ String.concat ", " missingHeaders)))
  | Rows newTransactions =>
      if Z.of_nat (List.length newTransactions) =? 0 then
        ([], json 400 (ErrorBody "No valid transactions found in CSV"))
      else
        let existingTransactions :=
          match Backend.selectTransactions backend (User.id user) with
          | Some rows => rows
          | None => []
          end in
        let allTransactions := existingTransactions ++ newTransactions in
        match calculateRFM now (map toTransaction allTransactions) with
        | Throw (RangeError message) => ([], caught message)
        | Ok rfmScores => store backend user file newTransactions rfmScores
        end
  end.

(** [handler]: the writes it sends, in order, and its response. *)
Definition handler (env : Env.t) (backend : Backend.t) (now : Z)
  (req : Request.t) : list Write * HttpResponse.t :=
  if String.eqb (Request.method req) "OPTIONS" then
    ([], {| HttpResponse.status := 200;
            HttpResponse.headers := corsHeaders;
            HttpResponse.body := NullBody |})
  else
    let supabaseUrl :=
      orElse (Env.SUPABASE_URL env) (Env.VITE_SUPABASE_URL env) in
    let supabaseKey :=
      orElse (Env.SUPABASE_ANON_KEY env)
        (Env.VITE_SUPABASE_PUBLISHABLE_KEY env) in
    if negb (truthy supabaseUrl) || negb (truthy supabaseKey) then
      ([], caught "Missing Supabase configuration")
    else
      match Request.authorization req with
      | None => ([], json 401 (ErrorBody "No authorization header"))
      | Some authHeader =>
          if String.eqb authHeader "" then
            ([], json 401 (ErrorBody "No authorization header"))
          else
            let auth := Backend.getUser backend authHeader in
            match AuthResult.authError auth, AuthResult.user auth with
            | None, Some user =>
                match Request.file req with
                | FormDataRejected message => ([], caught message)
                | NoEntry => ([], json 400 (ErrorBody "No file provided"))
                | TextEntry value typeErrorMessage =>
                    if String.eqb value "" then
                      ([], json 400 (ErrorBody "No file provided"))
                    else ([], caught typeErrorMessage)
                | FileEntry file => processCsv backend now user file
                end
            | _, _ => ([], json 401 (ErrorBody "Unauthorized"))
            end
      end.
End Handler.

(** * The dark mode toggle

    [DarkModeToggle] renders a button from the theme that [useTheme]
    gives ([undefined] is [None]) and from its own [mounted] state, which
    an effect sets after the first render.  [setTheme] of the theme
    provider makes its argument the theme of the next render. *)

Inductive Icon : Type := Sun | Moon.

(** What is rendered: the classes of the button and of the icon, the
    icon, the theme that a click sets when the button has a click
    handler, and the text for screen readers when there is one. *)
Module Button.
Record t : Type := mk {
  className : string;
  icon : Icon;
  iconClassName : string;
  onClick : option string;
  srOnly : option string
}.
End Button.

Definition isDark (theme : option string) : bool :=
  match theme with
  | Some name => String.eqb name "dark"
  | None => false
  end.

Definition DarkModeToggle (theme : option string) (mounted : bool) : Button.t :=
  if negb mounted then
    {| Button.className :=
         "w-8 h-8 sm:w-10 sm:h-10 rounded-none border border-border sm:border-2 bg-background hover:bg-accent";
       Button.icon := Sun;
       Button.iconClassName := "h-4 w-4 sm:h-5 sm:w-5";
       Button.onClick := None;
       Button.srOnly := None |}
  else
    {| Button.className :=
         "w-8 h-8 sm:w-10 sm:h-10 rounded-none border border-border sm:border-2 bg-background hover:bg-accent transition-all duration-300 hover:scale-105";
       Button.icon := if isDark theme then Sun else Moon;
       Button.iconClassName :=
         "h-4 w-4 sm:h-5 sm:w-5 text-foreground transition-transform duration-300 rotate-0";
       Button.onClick := Some (if isDark theme then "light" else "dark")%string;
       Button.srOnly := Some "Toggle theme"%string |}.

(** The component with its theme, and what happens to it: the effect of
    the first render runs, or the user clicks the button. *)
Module Toggle.
Record t : Type := mk {
  theme : option string;
  mounted : bool
}.
End Toggle.

Inductive ToggleEvent : Type := EffectRuns | Click.

Definition toggleStep (state : Toggle.t) (event : ToggleEvent) : Toggle.t :=
  match event with
  | EffectRuns =>
      {| Toggle.theme := Toggle.theme state; Toggle.mounted := true |}
  | Click =>
      match Button.onClick
              (DarkModeToggle (Toggle.theme state) (Toggle.mounted state)) with
      | Some next =>
          {| Toggle.theme := Some next;
             Toggle.mounted := Toggle.mounted state |}
      | None => state
      end
  end.

Definition toggleRun (state : Toggle.t) (events : list ToggleEvent) : Toggle.t :=
  fold_left toggleStep events state.

(** * The vocabulary of the properties

    Nothing below this line is code of the repository: these definitions
    name what the statements speak about. *)

(** ** One customer's transactions *)

(** A transaction list as the data model has it: every date is parseable. *)
Definition parseable (transactions : list Transaction.t) : Prop :=
  Forall (fun t => Transaction.transaction_date t <> None) transactions.

(** The transactions of one customer, in input order. *)
Definition transactionsOf (id : string) (transactions : list Transaction.t)
  : list Transaction.t :=
  filter (fun t => String.eqb (Transaction.customer_id t) id) transactions.

(** What the [forEach] does to the entry of a customer already seen, and
    the entry it creates for a new one. *)
Definition accumulate (d : CustomerData.t) (t : Transaction.t) : CustomerData.t :=
  {| CustomerData.transactions := CustomerData.transactions d + 1;
     CustomerData.totalSpend :=
       (CustomerData.totalSpend d + Transaction.transaction_amount t)%float;
     CustomerData.lastDate :=
       if Date_gt (Transaction.transaction_date t) (CustomerData.lastDate d)
       then Transaction.transaction_date t
       else CustomerData.lastDate d |}.

Definition firstSeen (t : Transaction.t) : CustomerData.t :=
  {| CustomerData.transactions := 1;
     CustomerData.totalSpend := Transaction.transaction_amount t;
     CustomerData.lastDate := Transaction.transaction_date t |}.

Definition summary (own : list Transaction.t) : option CustomerData.t :=
  match own with
  | [] => None
  | t :: rest => Some (fold_left accumulate rest (firstSeen t))
  end.

(** The sum of the amounts as the code forms it: from the left, starting
    with the first amount, each addition rounded. *)
Definition sumAmounts (own : list Transaction.t) : float :=
  match own with
  | [] => 0%float
  | t :: rest =>
      fold_left (fun acc u => (acc + Transaction.transaction_amount u)%float)
        rest (Transaction.transaction_amount t)
  end.

(** [m] is the latest of the dates of [own]. *)
Definition latestOf (own : list Transaction.t) (m : Z) : Prop :=
  In (Some m) (map Transaction.transaction_date own) /\
  forall t x, In t own -> Transaction.transaction_date t = Some x -> x <= m.

(** The customer of an output record and the record, side by side. *)
Definition scored (now : Z) (ts : list Transaction.t) (out : list RFMScore.t)
  (c : Customer.t) (s : RFMScore.t) : Prop :=
  In (c, s) (combine (customersOf now ts) out).

(** ** Quartiles and groups *)

(** The quartile as a function of the index and the array length, the
    comparisons of [getQuantile] cleared of their denominators. *)
Definition quartileOfIndex (index n : Z) : Z :=
  if 4 * index <=? n then 1
  else if 2 * index <=? n then 2
  else if 4 * index <=? 3 * n then 3
  else 4.

(** The quartile as the source computes it, with the binary64 quotient of
    the index and the length. *)
Definition floatQuartile (index n : Z) : Z :=
  let percentile := (toNumber index / toNumber n)%float in
  if (percentile <=? 0.25)%float then 1
  else if (percentile <=? 0.5)%float then 2
  else if (percentile <=? 0.75)%float then 3
  else 4.

(** The number of indices among 0 .. n-1 that fall in quartile [q]. *)
Definition quartileSize (q n : Z) : Z :=
  if q =? 1 then n / 4 + 1
  else if q =? 2 then n / 2 - n / 4
  else if q =? 3 then 3 * n / 4 - n / 2
  else if q =? 4 then n - 1 - 3 * n / 4
  else 0.

(** No two elements are strictly equal, and each is strictly equal to
    itself (none is NaN). *)
Fixpoint distinctValues {A : Type} `{JSNumber A} (values : list A) : bool :=
  match values with
  | [] => true
  | x :: rest =>
      strictEq x x
      && forallb (fun y => negb (strictEq x y) && negb (strictEq y x)) rest
      && distinctValues rest
  end.

Inductive Metric : Type := Recency | Frequency | Monetary.

(** Two customers have the same value of a metric, as [indexOf] sees it. *)
Definition sameValue (metric : Metric) (c1 c2 : Customer.t) : bool :=
  match metric with
  | Recency => strictEq (Customer.recency c1) (Customer.recency c2)
  | Frequency => strictEq (Customer.frequency c1) (Customer.frequency c2)
  | Monetary => strictEq (Customer.monetary c1) (Customer.monetary c2)
  end.

(** The customers of a cohort have pairwise distinct values of a metric. *)
Definition metricDistinct (metric : Metric) (customers : list Customer.t)
  : bool :=
  match metric with
  | Recency => distinctValues (map Customer.recency customers)
  | Frequency => distinctValues (map Customer.frequency customers)
  | Monetary => distinctValues (map Customer.monetary customers)
  end.

Definition scoreOf (metric : Metric) (s : RFMScore.t) : Z :=
  match metric with
  | Recency => RFMScore.recency_score s
  | Frequency => RFMScore.frequency_score s
  | Monetary => RFMScore.monetary_score s
  end.

(** The quartile of a customer for a metric. *)
Definition quartileOf (metric : Metric) (customers : list Customer.t)
  (c : Customer.t) : Z :=
  match metric with
  | Recency => getQuantile (recencyValues customers) (Customer.recency c)
  | Frequency => getQuantile (frequencyValues customers) (Customer.frequency c)
  | Monetary => getQuantile (monetaryValues customers) (Customer.monetary c)
  end.

(** The quartile that gives score [k]: recency scores are inverted. *)
Definition quartileFor (metric : Metric) (k : Z) : Z :=
  match metric with
  | Recency => 5 - k
  | Frequency | Monetary => k
  end.

(** The number of output records with score [k] for a metric. *)
Definition groupSize (metric : Metric) (k : Z) (out : list RFMScore.t) : Z :=
  Z.of_nat (List.length (filter (fun s => scoreOf metric s =? k) out)).

(** [i] is the first index of [value] in [values]: the element at [i] is
    strictly equal to [value], and no element before it is. *)
Definition firstIndexOf {A : Type} `{JSNumber A} (values : list A) (value : A)
  (i : Z) : Prop :=
  0 <= i < Z.of_nat (List.length values) /\
  (exists x, nth_error values (Z.to_nat i) = Some x /\ strictEq x value = true) /\
  (forall j x, 0 <= j < i -> nth_error values (Z.to_nat j) = Some x ->
               strictEq x value = false).

(** [i] is the first index of the customer's value in the sorted array
    of the metric. *)
Definition firstIndex (metric : Metric) (customers : list Customer.t)
  (c : Customer.t) (i : Z) : Prop :=
  match metric with
  | Recency => firstIndexOf (recencyValues customers) (Customer.recency c) i
  | Frequency =>
      firstIndexOf (frequencyValues customers) (Customer.frequency c) i
  | Monetary => firstIndexOf (monetaryValues customers) (Customer.monetary c) i
  end.

(** No element is NaN: each is strictly equal to itself. *)
Definition numbers {A : Type} `{JSNumber A} (values : list A) : bool :=
  forallb (fun x => strictEq x x) values.

(** No customer of the cohort has NaN for the metric, so that the
    comparator of the sort is consistent on the values of the metric. *)
Definition metricNumbers (metric : Metric) (customers : list Customer.t)
  : bool :=
  match metric with
  | Recency => numbers (map Customer.recency customers)
  | Frequency => numbers (map Customer.frequency customers)
  | Monetary => numbers (map Customer.monetary customers)
  end.

(** ** The rule chain as the specification words it *)

Definition rule (applies : Z -> Z -> Z -> bool) (label : string)
  : (Z -> Z -> Z -> bool) * string :=
  (applies, label).

(** The documented rules as an ordered list of predicate and label. *)
Definition documentedRules : list ((Z -> Z -> Z -> bool) * string) :=
  [ rule (fun r f m => (4 <=? r) && (4 <=? f) && (4 <=? m)) "Champions";
    rule (fun r f m => (3 <=? r) && (3 <=? f) && (3 <=? m)) "Loyal Customers";
    rule (fun r f m => (4 <=? r) && (f <=? 2)) "New Customers";
    rule (fun r f m => (3 <=? r) && (1 <=? f) && (2 <=? m))
      "Potential Loyalists";
    rule (fun r f m => (2 <=? r) && (r <=? 3) && (2 <=? f) && (2 <=? m))
      "Customers Needing Attention";
    rule (fun r f m => (r <=? 2) && (3 <=? f)) "At Risk";
    rule (fun r f m => (r <=? 2) && (f <=? 2) && (3 <=? m))
      "Big Spenders at Risk";
    rule (fun r f m => (r <=? 1) && (f <=? 2)) "Lost Customers" ].

Definition documentedSumBucket (r f m : Z) : string :=
  let S := r + f + m in
  if 9 <=? S then "High Value"
  else if 6 <=? S then "Medium Value"
  else "Low Value".

(** First match wins; without a match, the bucket of the sum. *)
Fixpoint firstMatch (rules : list ((Z -> Z -> Z -> bool) * string))
  (r f m : Z) : string :=
  match rules with
  | [] => documentedSumBucket r f m
  | (applies, label) :: rest =>
      if applies r f m then label else firstMatch rest r f m
  end.

(** ** Example inputs *)

Definition day (n : Z) : Date := Some (n * msPerDay).

Definition purchase (id : string) (date : Date) (amount : float) : Transaction.t :=
  {| Transaction.customer_id := id;
     Transaction.customer_name := None;
     Transaction.transaction_date := date;
     Transaction.transaction_amount := amount |}.

(** The example of the specification: A buys on 2024-01-01 and 2024-02-01,
    B on 2024-06-01, and now is 2024-06-02 (days 19723, 19754, 19875 and
    19876 after 1970-01-01). *)
Definition exampleNow : Z := 19876 * msPerDay.

Definition exampleTransactions : list Transaction.t :=
  [ purchase "A" (day 19723) 100; purchase "A" (day 19754) 200;
    purchase "B" (day 19875) 50 ]%float.

(** Its two customers, as [customers] holds them. *)
Definition exampleA : Customer.t :=
  {| Customer.customer_id := "A";
     Customer.recency := Some 122;
     Customer.frequency := 2;
     Customer.monetary := 300;
     Customer.lastDate := day 19754 |}.

Definition exampleB : Customer.t :=
  {| Customer.customer_id := "B";
     Customer.recency := Some 1;
     Customer.frequency := 1;
     Customer.monetary := 50;
     Customer.lastDate := day 19875 |}.

(** One customer, three purchases out of chronological order. *)
Definition loneCustomer : list Transaction.t :=
  [ purchase "A" (day 19754) 0.1; purchase "A" (day 19875) 0.2;
    purchase "A" (day 19723) 0.3 ]%float.

(** Two customers with the same purchases, and a third one. *)
Definition tiedCustomers : list Transaction.t :=
  [ purchase "A" (day 19754) 25; purchase "B" (day 19754) 25;
    purchase "C" (day 19875) 50 ]%float.

Definition tiedA : Customer.t :=
  {| Customer.customer_id := "A";
     Customer.recency := Some 122;
     Customer.frequency := 1;
     Customer.monetary := 25;
     Customer.lastDate := day 19754 |}.

Definition tiedB : Customer.t :=
  {| Customer.customer_id := "B";
     Customer.recency := Some 122;
     Customer.frequency := 1;
     Customer.monetary := 25;
     Customer.lastDate := day 19754 |}.

(** Four customers with one, two, three and four purchases: no two have
    the same recency, frequency or total spend. *)
Definition fourCustomers : list Transaction.t :=
  [ purchase "A" (day 19700) 10;
    purchase "B" (day 19710) 20; purchase "B" (day 19720) 20;
    purchase "C" (day 19730) 30; purchase "C" (day 19740) 30;
    purchase "C" (day 19750) 30;
    purchase "D" (day 19760) 40; purchase "D" (day 19770) 40;
    purchase "D" (day 19780) 40; purchase "D" (day 19790) 40 ]%float.

(** One customer whose purchases arrive in two different orders. *)
Definition ascendingAmounts : list Transaction.t :=
  [ purchase "A" (day 19723) 0.1; purchase "A" (day 19754) 0.2;
    purchase "A" (day 19875) 0.3 ]%float.

Definition descendingAmounts : list Transaction.t := rev ascendingAmounts.

(** Two customers, the later purchase of A arriving first. *)
Definition lateFirst : list Transaction.t :=
  [ purchase "A" (day 19875) 50; purchase "B" (day 19754) 25;
    purchase "A" (day 19723) 100 ]%float.

Definition lateFirstA : CustomerData.t :=
  {| CustomerData.transactions := 2;
     CustomerData.totalSpend := 150;
     CustomerData.lastDate := day 19875 |}.

(** A purchase whose date does not parse. *)
Definition undated : list Transaction.t :=
  [ purchase "A" None 100 ]%float.

(** ** Vocabulary of the further properties *)

(** The first transaction of every customer has a parseable date. *)
Definition firstDatesParseable (transactions : list Transaction.t) : bool :=
  forallb (fun t =>
             match transactionsOf (Transaction.customer_id t) transactions with
             | first :: _ =>
                 match Transaction.transaction_date first with
                 | Some _ => true
                 | None => false
                 end
             | [] => true
             end)
          transactions.

(** The customer ids of a list, each once, in the order of first
    occurrence: the standard [nodup] keeps last occurrences, hence the two
    reversals. *)
Definition firstOccurrences (ids : list string) : list string :=
  rev (nodup string_dec (rev ids)).

(** The transactions counted by the records of an output. *)
Definition countedTransactions (out : list RFMScore.t) : Z :=
  fold_right (fun s acc => RFMScore.total_transactions s + acc) 0 out.

(** The transactions counted by the entries of the map. *)
Definition heldTransactions (m : CustomerMap) : Z :=
  fold_right (fun e acc => CustomerData.transactions (snd e) + acc) 0 m.

(** The list is not empty and its first date is parseable. *)
Definition headDated (own : list Transaction.t) : Prop :=
  match own with
  | first :: _ => Transaction.transaction_date first <> None
  | [] => False
  end.

(** The eleven segment names. *)
Definition segmentNames : list string :=
  [ "Champions"; "Loyal Customers"; "New Customers"; "Potential Loyalists";
    "Customers Needing Attention"; "At Risk"; "Big Spenders at Risk";
    "Lost Customers"; "High Value"; "Medium Value"; "Low Value" ]%string.

(** A customer whose second purchase has a date that does not parse. *)
Definition laterUndated : list Transaction.t :=
  [ purchase "A" (day 19723) 100; purchase "B" (day 19754) 25;
    purchase "A" None 200 ]%float.

(** ** Vocabulary of the properties of the handler *)

(** The table and the operation of a write, and the order in which the
    handler sends them. *)
Definition writeKind (w : Write) : string :=
  match w with
  | InsertUploadHistory _ => "insert upload_history"
  | InsertTransactions _ => "insert transactions"
  | DeleteSegments _ => "delete customer_segments"
  | InsertSegments _ => "insert customer_segments"
  end.

Definition writeOrder : list string :=
  [ "insert upload_history"; "insert transactions";
    "delete customer_segments"; "insert customer_segments" ]%string.

(** The user ids that a write carries, in its rows or in its filter. *)
Definition writeUsers (w : Write) : list string :=
  match w with
  | InsertUploadHistory row => [UploadHistoryRow.user_id row]
  | InsertTransactions rows => map TransactionRow.user_id rows
  | DeleteSegments user_id => [user_id]
  | InsertSegments rows => map SegmentRow.user_id rows
  end.

(** The rows the database holds for the user, as the handler reads them. *)
Definition existingOf (backend : Backend.t) (user : User.t)
  : list RawTransaction.t :=
  match Backend.selectTransactions backend (User.id user) with
  | Some rows => rows
  | None => []
  end.

(** No white space at either end. *)
Definition trimmed (s : string) : Prop := trim s = s.

(** ** Example request *)

Definition newline : string := String "010" EmptyString.

Definition carriageReturn : string := String "013" EmptyString.

(** Stand-ins for [parseFloat] and [new Date] that agree with them on the
    texts of the example file. *)
Definition sampleParseFloat (text : string) : float :=
  if String.eqb text "100" then 100
  else if String.eqb text "200" then 200
  else if String.eqb text "50" then 50
  else nan.

Definition sampleNewDate (text : string) : Date :=
  if String.eqb text "2024-01-01" then day 19723
  else if String.eqb text "2024-02-01" then day 19754
  else if String.eqb text "2024-06-01" then day 19875
  else None.

(** A file with Windows line ends, a header in capitals, a blank line, a
    row without customer and a row whose amount is not a number. *)
Definition sampleCsv : string :=
  (" Customer_ID , Transaction_Date,TRANSACTION_AMOUNT" ++ carriageReturn
   ++ newline ++ " A , 2024-01-01, 100" ++ carriageReturn
   ++ newline
   ++ newline ++ ",2024-02-01,200"
   ++ newline ++ "B,2024-06-01,n/a"
   ++ newline)%string.

Definition sampleFile : File.t :=
  {| File.name := "upload.csv"; File.size := 120; File.text := sampleCsv |}.

Definition sampleUser : User.t := {| User.id := "user-1" |}.

Definition sampleEnv : Env.t :=
  {| Env.SUPABASE_URL := None;
     Env.VITE_SUPABASE_URL := Some "https://example.supabase.co"%string;
     Env.SUPABASE_ANON_KEY := Some "anon-key"%string;
     Env.VITE_SUPABASE_PUBLISHABLE_KEY := None |}.

(** A database that holds one earlier purchase of customer C and accepts
    every write. *)
Definition sampleBackend : Backend.t :=
  {| Backend.getUser := fun _ =>
       {| AuthResult.user := Some sampleUser; AuthResult.authError := None |};
     Backend.selectTransactions := fun _ =>
       Some [ {| RawTransaction.customer_id := "C";
                 RawTransaction.customer_name := None;
                 RawTransaction.transaction_date := DateText "2024-02-01"%string;
                 RawTransaction.transaction_amount := 50 |} ];
     Backend.insertUploadHistory := fun _ => inl "upload-1"%string;
     Backend.insertTransactions := fun _ => None;
     Backend.insertSegments := fun _ => None |}.

Definition sampleRequest : Request.t :=
  {| Request.method := "POST";
     Request.authorization := Some "Bearer token"%string;
     Request.file := FileEntry sampleFile |}.

(** The same database, refusing the insert of the segments. *)
Definition refusingBackend : Backend.t :=
  {| Backend.getUser := Backend.getUser sampleBackend;
     Backend.selectTransactions := Backend.selectTransactions sampleBackend;
     Backend.insertUploadHistory := Backend.insertUploadHistory sampleBackend;
     Backend.insertTransactions := Backend.insertTransactions sampleBackend;
     Backend.insertSegments := fun _ => Some "permission denied"%string |}.

(** The same database, where the stored purchase of customer C has no
    date. *)
Definition nullDateBackend : Backend.t :=
  {| Backend.getUser := Backend.getUser sampleBackend;
     Backend.selectTransactions := fun _ =>
       Some [ {| RawTransaction.customer_id := "C";
                 RawTransaction.customer_name := None;
                 RawTransaction.transaction_date := DateNull;
                 RawTransaction.transaction_amount := 50 |} ];
     Backend.insertUploadHistory := Backend.insertUploadHistory sampleBackend;
     Backend.insertTransactions := Backend.insertTransactions sampleBackend;
     Backend.insertSegments := Backend.insertSegments sampleBackend |}.

(** The segment rows of the example request. *)
Definition sampleSegmentRows : list SegmentRow.t :=
  Eval vm_compute in
    match handler sampleParseFloat sampleNewDate sampleEnv sampleBackend
            exampleNow sampleRequest with
    | ([_; _; _; InsertSegments rows], _) => rows
    | _ => []
    end.

(** The theme is one of the two that the button sets. *)
Definition lightOrDark (theme : option string) : Prop :=
  theme = Some "light"%string \/ theme = Some "dark"%string.

(** The text with a carriage return put before every line feed: the
    line ends of Windows. *)
Fixpoint crlf (text : string) : string :=
  match text with
  | EmptyString => EmptyString
  | String c rest =>
      if Ascii.eqb c "010" then String "013" (String "010" (crlf rest))
      else String c (crlf rest)
  end.

(** A carriage return after every line but the last. *)
Fixpoint withReturns (lines : list string) : list string :=
  match lines with
  | [] => []
  | [last] => [last]
  | line :: rest => (line ++ carriageReturn)%string :: withReturns rest
  end.

(** A carriage return after the last piece. *)
Fixpoint returnAtEnd (pieces : list string) : list string :=
  match pieces with
  | [] => []
  | [last] => [(last ++ carriageReturn)%string]
  | piece :: rest => piece :: returnAtEnd rest
  end.

(** * Properties *)

(** ** The map *)

Lemma Map_get_In_keys (m : CustomerMap) (key : string) :
  In key (map fst m) <-> Map_get m key <> None.
Proof.
  induction m as [|[k v] m IH]; simpl.
  - split; [intros [] | intros H; now elim H].
  - destruct (String.eqb_spec k key) as [->|Hne].
    + split; [discriminate | auto].
    + rewrite <- IH. split; [intros [?|?]; [contradiction | assumption] | auto].
Qed.

Lemma Map_assign_keys (m : CustomerMap) (key : string) (v : CustomerData.t) :
  map fst (Map_assign m key v) = map fst m.
Proof.
  induction m as [|[k old] m IH]; simpl; [reflexivity|].
  destruct (String.eqb k key); simpl; [reflexivity | now rewrite IH].
Qed.

Lemma Map_get_assign (m : CustomerMap) (key id : string) (v : CustomerData.t) :
  Map_get (Map_assign m key v) id =
  if String.eqb key id
  then match Map_get m key with Some _ => Some v | None => None end
  else Map_get m id.
Proof.
  induction m as [|[k old] m IH]; simpl.
  - now destruct (String.eqb key id).
  - destruct (String.eqb_spec k key) as [->|Hk]; simpl.
    + destruct (String.eqb_spec key id) as [->|Hid]; [reflexivity|].
      reflexivity.
    + destruct (String.eqb_spec k id) as [->|Hid].
      * destruct (String.eqb_spec key id) as [->|_]; [contradiction | reflexivity].
      * exact IH.
Qed.

Lemma Map_get_set (m : CustomerMap) (key id : string) (v : CustomerData.t) :
  Map_get (Map_set m key v) id =
  match Map_get m id with
  | Some d => Some d
  | None => if String.eqb key id then Some v else None
  end.
Proof.
  unfold Map_set. induction m as [|[k old] m IH]; simpl; [reflexivity|].
  now destruct (String.eqb k id).
Qed.

Lemma Map_get_aggregate (m : CustomerMap) (t : Transaction.t) (id : string) :
  Map_get (aggregate m t) id =
  if String.eqb (Transaction.customer_id t) id
  then Some match Map_get m id with
            | Some d => accumulate d t
            | None => firstSeen t
            end
  else Map_get m id.
Proof.
  unfold aggregate.
  destruct (Map_get m (Transaction.customer_id t)) as [d|] eqn:Hget.
  - rewrite Map_get_assign, Hget.
    destruct (String.eqb_spec (Transaction.customer_id t) id) as [<-|_];
      [now rewrite Hget | reflexivity].
  - rewrite Map_get_set.
    destruct (String.eqb_spec (Transaction.customer_id t) id) as [<-|_].
    + now rewrite Hget.
    + now destruct (Map_get m id).
Qed.

Lemma customerDataOf_snoc (ts : list Transaction.t) (t : Transaction.t) :
  customerDataOf (ts ++ [t]) = aggregate (customerDataOf ts) t.
Proof. unfold customerDataOf. now rewrite fold_left_app. Qed.

Lemma summary_snoc (own : list Transaction.t) (t : Transaction.t) :
  summary (own ++ [t]) =
  Some match summary own with
       | Some d => accumulate d t
       | None => firstSeen t
       end.
Proof.
  destruct own as [|u own]; simpl; [reflexivity|].
  now rewrite fold_left_app.
Qed.

(** The entry of a customer is the reduction of that customer's own
    transactions, in input order. *)
Lemma Map_get_customerDataOf (ts : list Transaction.t) (id : string) :
  Map_get (customerDataOf ts) id = summary (transactionsOf id ts).
Proof.
  induction ts as [|t ts IH] using rev_ind; [reflexivity|].
  rewrite customerDataOf_snoc, Map_get_aggregate.
  unfold transactionsOf in *. rewrite filter_app. simpl.
  destruct (String.eqb (Transaction.customer_id t) id).
  - now rewrite summary_snoc, IH.
  - now rewrite app_nil_r.
Qed.

Lemma aggregate_keys_NoDup (m : CustomerMap) (t : Transaction.t) :
  NoDup (map fst m) -> NoDup (map fst (aggregate m t)).
Proof.
  intros Hm. unfold aggregate.
  destruct (Map_get m (Transaction.customer_id t)) eqn:Hget.
  - now rewrite Map_assign_keys.
  - unfold Map_set. rewrite map_app. simpl.
    apply NoDup_app_remove_l with (l := []). simpl.
    apply Permutation_NoDup with (l := Transaction.customer_id t :: map fst m).
    + apply Permutation_cons_append.
    + constructor; [|assumption].
      rewrite Map_get_In_keys, Hget. auto.
Qed.

Lemma customerDataOf_keys_NoDup (ts : list Transaction.t) :
  NoDup (map fst (customerDataOf ts)).
Proof.
  induction ts as [|t ts IH] using rev_ind; [constructor|].
  rewrite customerDataOf_snoc. now apply aggregate_keys_NoDup.
Qed.

Lemma transactionsOf_nonempty (id : string) (ts : list Transaction.t) :
  transactionsOf id ts <> [] <-> In id (map Transaction.customer_id ts).
Proof.
  unfold transactionsOf. induction ts as [|t ts IH]; simpl.
  - split; [intros H; now elim H | intros []].
  - destruct (String.eqb_spec (Transaction.customer_id t) id) as [->|Hne].
    + split; [auto | discriminate].
    + rewrite IH. split; [auto | intros [?|?]; [contradiction | assumption]].
Qed.

Lemma customerDataOf_keys (ts : list Transaction.t) (id : string) :
  In id (map fst (customerDataOf ts)) <-> In id (map Transaction.customer_id ts).
Proof.
  rewrite Map_get_In_keys, Map_get_customerDataOf, <- transactionsOf_nonempty.
  destruct (transactionsOf id ts); simpl; split; congruence.
Qed.

Lemma Map_get_In (m : CustomerMap) (key : string) (v : CustomerData.t) :
  NoDup (map fst m) -> In (key, v) m -> Map_get m key = Some v.
Proof.
  induction m as [|[k old] m IH]; simpl; [intros _ []|].
  intros Hnd [Heq|Hin].
  - injection Heq as -> ->. now rewrite String.eqb_refl.
  - inversion Hnd as [|? ? Hnotin Hnd']; subst.
    destruct (String.eqb_spec k key) as [->|_]; [|now apply IH].
    elim Hnotin. change key with (fst (key, v)). now apply in_map.
Qed.

(** Every entry of the map is the summary of its customer's transactions. *)
Lemma customerDataOf_In (ts : list Transaction.t) (id : string)
  (d : CustomerData.t) :
  In (id, d) (customerDataOf ts) -> summary (transactionsOf id ts) = Some d.
Proof.
  intros Hin. rewrite <- Map_get_customerDataOf.
  apply Map_get_In; [apply customerDataOf_keys_NoDup | assumption].
Qed.

(** ** The reduction of one customer's transactions *)

Lemma fold_accumulate_transactions (rest : list Transaction.t) (d : CustomerData.t) :
  CustomerData.transactions (fold_left accumulate rest d) =
  CustomerData.transactions d + Z.of_nat (List.length rest).
Proof.
  revert d. induction rest as [|t rest IH]; intros d; simpl List.length.
  - simpl. lia.
  - simpl fold_left. rewrite IH. simpl. lia.
Qed.

Lemma fold_accumulate_totalSpend (rest : list Transaction.t) (d : CustomerData.t) :
  CustomerData.totalSpend (fold_left accumulate rest d) =
  fold_left (fun acc u => (acc + Transaction.transaction_amount u)%float)
    rest (CustomerData.totalSpend d).
Proof.
  revert d. induction rest as [|t rest IH]; intros d; simpl; [reflexivity|].
  now rewrite IH.
Qed.

Lemma summary_transactions (own : list Transaction.t) (d : CustomerData.t) :
  summary own = Some d ->
  CustomerData.transactions d = Z.of_nat (List.length own).
Proof.
  destruct own as [|t rest]; [discriminate|].
  unfold summary. intros [= <-]. rewrite fold_accumulate_transactions.
  change (List.length (t :: rest)) with (S (List.length rest)).
  rewrite Nat2Z.inj_succ. simpl CustomerData.transactions. lia.
Qed.

Lemma summary_totalSpend (own : list Transaction.t) (d : CustomerData.t) :
  summary own = Some d -> CustomerData.totalSpend d = sumAmounts own.
Proof.
  destruct own as [|t rest]; simpl; [discriminate|].
  intros [= <-]. now rewrite fold_accumulate_totalSpend.
Qed.

Lemma latestOf_unique (own : list Transaction.t) (m m' : Z) :
  latestOf own m -> latestOf own m' -> m = m'.
Proof.
  intros [Hin Hmax] [Hin' Hmax'].
  apply in_map_iff in Hin as (t & Ht & Hint).
  apply in_map_iff in Hin' as (t' & Ht' & Hint').
  specialize (Hmax t' m' Hint' Ht'). specialize (Hmax' t m Hint Ht). lia.
Qed.

Lemma latestOf_Permutation (own own' : list Transaction.t) (m : Z) :
  Permutation own own' -> latestOf own m -> latestOf own' m.
Proof.
  intros Hp [Hin Hmax]. split.
  - eapply Permutation_in; [apply Permutation_map, Hp | exact Hin].
  - intros t x Ht. apply Hmax. eapply Permutation_in; [symmetry; exact Hp | exact Ht].
Qed.

(** With parseable dates the reduction keeps the true latest date,
    whatever the order of arrival. *)
Lemma summary_lastDate (own : list Transaction.t) (d : CustomerData.t) :
  parseable own -> summary own = Some d ->
  exists m, CustomerData.lastDate d = Some m /\ latestOf own m.
Proof.
  revert d. induction own as [|t own IH] using rev_ind; [discriminate|].
  intros d Hp. rewrite summary_snoc. intros [= <-].
  apply Forall_app in Hp as [Hown Ht]. inversion Ht as [|? ? Hdate _]; subst.
  destruct (Transaction.transaction_date t) as [x|] eqn:Hx; [|now elim Hdate].
  destruct (summary own) as [d0|] eqn:Hsum.
  - destruct (IH d0 Hown eq_refl) as (m & Hm & Hin & Hmax).
    unfold accumulate; simpl. rewrite Hx, Hm. simpl.
    destruct (Z.ltb_spec m x) as [Hlt|Hge].
    + exists x. split; [reflexivity|]. split.
      * rewrite map_app, in_app_iff. right. simpl. now left.
      * intros u y Hu Hy. apply in_app_iff in Hu as [Hu|[<-|[]]].
        -- specialize (Hmax u y Hu Hy). lia.
        -- rewrite Hx in Hy. injection Hy as <-. lia.
    + exists m. split; [reflexivity|]. split.
      * rewrite map_app, in_app_iff. now left.
      * intros u y Hu Hy. apply in_app_iff in Hu as [Hu|[<-|[]]].
        -- now apply (Hmax u y).
        -- rewrite Hx in Hy. injection Hy as <-. lia.
  - destruct own as [|u own]; [|discriminate]. simpl.
    exists x. split; [exact Hx|]. split.
    + simpl. now left.
    + intros u y [<-|[]] Hy. rewrite Hx in Hy. injection Hy as <-. lia.
Qed.

Lemma parseable_transactionsOf (id : string) (ts : list Transaction.t) :
  parseable ts -> parseable (transactionsOf id ts).
Proof.
  unfold parseable, transactionsOf. rewrite !Forall_forall.
  intros H t Ht. apply filter_In in Ht as [Ht _]. now apply H.
Qed.

(** ** Exceptions of the final map *)

Lemma mapM_Ok {A B : Type} (f : A -> result B) (l : list A) (out : list B) :
  mapM f l = Ok out <-> Forall2 (fun a b => f a = Ok b) l out.
Proof.
  revert out. induction l as [|a l IH]; intros out; simpl.
  - split; [intros [= <-]; constructor | intros H; now inversion H].
  - split.
    + destruct (f a) as [b|e] eqn:Hfa; simpl; [|discriminate].
      destruct (mapM f l) as [bs|e] eqn:Hm; simpl; [|discriminate].
      intros [= <-]. constructor; [assumption | now apply IH].
    + intros H. inversion H as [|? b ? bs Hfa Hrest]; subst.
      apply IH in Hrest. now rewrite Hfa, Hrest.
Qed.

Lemma mapM_total {A B : Type} (f : A -> result B) (l : list A) :
  Forall (fun a => exists b, f a = Ok b) l -> exists out, mapM f l = Ok out.
Proof.
  induction 1 as [|a l [b Hb] _ [out Hout]]; simpl.
  - now exists [].
  - exists (b :: out). now rewrite Hb, Hout.
Qed.

Lemma mapM_Throw {A B : Type} (f : A -> result B) (l : list A) (a : A)
  (e : Exception) :
  In a l -> f a = Throw e -> exists e', mapM f l = Throw e'.
Proof.
  induction l as [|x l IH]; simpl; [intros []|].
  intros [->|Hin] Hfa.
  - rewrite Hfa. now exists e.
  - destruct (f x) as [b|e0]; simpl; [|now exists e0].
    destruct (IH Hin Hfa) as [e' ->]. now exists e'.
Qed.

(** ** Quartiles *)

Lemma percentile_le (index : Z) (n a b : positive) :
  Qle_bool (inject_Z index / inject_Z (Z.pos n)) (Z.pos a # b) =
  (index * Z.pos b <=? Z.pos a * Z.pos n).
Proof.
  unfold Qle_bool, Qdiv, Qmult, Qinv, inject_Z. simpl Qnum. simpl Qden.
  f_equal; lia.
Qed.

Lemma quartileOfIndex_range (index n : Z) : 1 <= quartileOfIndex index n <= 4.
Proof.
  unfold quartileOfIndex.
  destruct (4 * index <=? n), (2 * index <=? n), (4 * index <=? 3 * n); lia.
Qed.

Lemma quartileOfIndex_mono (i j n : Z) :
  0 < n -> i <= j -> quartileOfIndex i n <= quartileOfIndex j n.
Proof.
  intros Hn Hij. unfold quartileOfIndex.
  destruct (Z.leb_spec (4 * i) n), (Z.leb_spec (2 * i) n),
    (Z.leb_spec (4 * i) (3 * n)), (Z.leb_spec (4 * j) n),
    (Z.leb_spec (2 * j) n), (Z.leb_spec (4 * j) (3 * n)); lia.
Qed.

(** The rounded quotient and the exact one give the same quartile: checked
    here by evaluation for every index, and for -1, of every array of
    up to 512 elements. *)
Lemma floatQuartile_agrees :
  forallb (fun n =>
             forallb (fun index =>
                        floatQuartile index n =? quartileOfIndex index n)
               (-1 :: map Z.of_nat (seq 0 (Z.to_nat n))))
          (map Z.of_nat (seq 1 512)) = true.
Proof. vm_compute. reflexivity. Qed.

Section ArrayFacts.
Context {A : Type} `{JSNumber A}.

Lemma getQuantile_range (values : list A) (value : A) :
  1 <= getQuantile values value <= 4.
Proof.
  unfold getQuantile.
  destruct (Qle_bool _ 0.25); [lia|].
  destruct (Qle_bool _ 0.5); [lia|].
  destruct (Qle_bool _ 0.75); lia.
Qed.

Lemma getQuantile_index (values : list A) (value : A) :
  values <> [] ->
  getQuantile values value =
  quartileOfIndex (indexOf values value) (Z.of_nat (List.length values)).
Proof.
  intros Hne. unfold getQuantile, quartileOfIndex.
  destruct values as [|x rest]; [now elim Hne|].
  change (List.length (x :: rest)) with (S (List.length rest)).
  rewrite Nat2Z.inj_succ, <- Zpos_P_of_succ_nat.
  change 0.25%Q with (25 # 100)%Q. change 0.5%Q with (5 # 10)%Q.
  change 0.75%Q with (75 # 100)%Q.
  rewrite !percentile_le.
  generalize (indexOf (x :: rest) value) as i.
  generalize (Pos.of_succ_nat (List.length rest)) as n. intros n i.
  destruct (Z.leb_spec (i * 100) (25 * Z.pos n)),
    (Z.leb_spec (4 * i) (Z.pos n)); try lia; try reflexivity.
  destruct (Z.leb_spec (i * 10) (5 * Z.pos n)),
    (Z.leb_spec (2 * i) (Z.pos n)); try lia; try reflexivity.
  destruct (Z.leb_spec (i * 100) (75 * Z.pos n)),
    (Z.leb_spec (4 * i) (3 * Z.pos n)); try lia; reflexivity.
Qed.

(** *** Sorting rearranges *)

Lemma insert_Permutation (x : A) (l : list A) : Permutation (insert x l) (x :: l).
Proof.
  induction l as [|y l IH]; simpl; [reflexivity|].
  destruct (isNegative (compareFn y x)); [|reflexivity].
  rewrite IH. apply perm_swap.
Qed.

Lemma sort_Permutation (l : list A) : Permutation (sort l) l.
Proof.
  induction l as [|x l IH]; simpl; [reflexivity|].
  rewrite insert_Permutation. now apply perm_skip.
Qed.

Lemma sort_length (l : list A) : List.length (sort l) = List.length l.
Proof. apply Permutation_length, sort_Permutation. Qed.

(** *** [indexOf] *)

Lemma indexOfFrom_bounds (i : Z) (values : list A) (value : A) :
  indexOfFrom i values value = -1 \/
  i <= indexOfFrom i values value < i + Z.of_nat (List.length values).
Proof.
  revert i. induction values as [|x rest IH]; intros i; [now left|].
  change (List.length (x :: rest)) with (S (List.length rest)).
  rewrite Nat2Z.inj_succ. simpl indexOfFrom.
  destruct (strictEq x value); [right; lia|].
  destruct (IH (i + 1)) as [->|Hb]; [now left | right; lia].
Qed.

Lemma indexOfFrom_shift (i : Z) (values : list A) (value : A) :
  indexOfFrom i values value =
  if indexOfFrom 0 values value <? 0 then -1
  else i + indexOfFrom 0 values value.
Proof.
  revert i. induction values as [|x rest IH]; intros i; [reflexivity|].
  simpl indexOfFrom. destruct (strictEq x value).
  - simpl. lia.
  - rewrite (IH (i + 1)), (IH 1).
    destruct (indexOfFrom_bounds 0 rest value) as [->|Hb]; [reflexivity|].
    destruct (Z.ltb_spec (indexOfFrom 0 rest value) 0); [lia|].
    destruct (Z.ltb_spec (1 + indexOfFrom 0 rest value) 0); lia.
Qed.

(** [indexOf] finds the first occurrence: the element at the index is
    strictly equal to the value, and no earlier element is. *)
Lemma indexOf_first (values : list A) (value : A) (k : nat) :
  indexOf values value = Z.of_nat k ->
  (exists x, nth_error values k = Some x /\ strictEq x value = true) /\
  (forall j y, (j < k)%nat -> nth_error values j = Some y ->
               strictEq y value = false).
Proof.
  unfold indexOf. revert k. induction values as [|x rest IH]; intros k.
  - simpl. lia.
  - simpl indexOfFrom. destruct (strictEq x value) eqn:Hx.
    + intros Hk. assert (k = O) by lia. subst k. split.
      * exists x. now split.
      * intros j y Hj. lia.
    + rewrite indexOfFrom_shift.
      destruct (Z.ltb_spec (indexOfFrom 0 rest value) 0); [lia|].
      intros Hk. destruct k as [|k]; [lia|].
      destruct (IH k ltac:(lia)) as [Hat Hbefore]. split.
      * exact Hat.
      * intros [|j] y Hj; simpl.
        -- now intros [= <-].
        -- apply Hbefore. lia.
  Qed.

(** Values that are strictly equal have the same index, when strict
    equality is a congruence on the right. *)
Hypothesis strictEq_congr :
  forall a b : A, strictEq a b = true -> forall x, strictEq x a = strictEq x b.

Lemma indexOfFrom_strictEq (i : Z) (values : list A) (a b : A) :
  strictEq a b = true -> indexOfFrom i values a = indexOfFrom i values b.
Proof.
  intros Hab. revert i. induction values as [|x rest IH]; intros i;
    [reflexivity|].
  simpl. rewrite (strictEq_congr a b Hab x). now rewrite IH.
Qed.

Lemma getQuantile_strictEq (values : list A) (a b : A) :
  strictEq a b = true -> getQuantile values a = getQuantile values b.
Proof.
  intros Hab. unfold getQuantile, indexOf.
  now rewrite (indexOfFrom_strictEq 0 values a b Hab).
Qed.
End ArrayFacts.

(** ** Strict equality of the three kinds of number *)

Lemma strictEq_congr_Z (a b : Z) :
  strictEq a b = true -> forall x, strictEq x a = strictEq x b.
Proof. simpl. intros Hab x. apply Z.eqb_eq in Hab. now subst. Qed.

Lemma strictEq_congr_days (a b : option Z) :
  strictEq a b = true -> forall x, strictEq x a = strictEq x b.
Proof.
  simpl. destruct a as [a|], b as [b|]; try discriminate.
  intros Hab x. apply Z.eqb_eq in Hab. now subst.
Qed.

(** Two floats are [===] when they are the same float or two zeros. *)
Lemma SFeqb_true (a b : spec_float) :
  SFeqb a b = true ->
  a = b \/ exists s s', a = S754_zero s /\ b = S754_zero s'.
Proof.
  unfold SFeqb, SFcompare.
  destruct a as [sa|sa| |sa ma ea], b as [sb|sb| |sb mb eb];
    try discriminate; try (destruct sa; discriminate);
    try (destruct sb; discriminate).
  - intros _. right. now exists sa, sb.
  - destruct sa, sb; try discriminate; now left.
  - destruct sa, sb; try discriminate;
      destruct (Z.compare_spec ea eb) as [->| |]; try discriminate;
      destruct (Pos.compare_cont Eq ma mb) eqn:Hm; try discriminate;
      apply Pos.compare_eq in Hm; subst; now left.
Qed.

Lemma SFeqb_zero_r (x : spec_float) (s s' : bool) :
  SFeqb x (S754_zero s) = SFeqb x (S754_zero s').
Proof. now destruct x. Qed.

Lemma strictEq_congr_float (a b : float) :
  strictEq a b = true -> forall x, strictEq x a = strictEq x b.
Proof.
  simpl. intros Hab x. rewrite !eqb_spec in *.
  destruct (SFeqb_true _ _ Hab) as [->|(s & s' & -> & ->)];
    [reflexivity | apply SFeqb_zero_r].
Qed.

(** ** Sorted arrays of integers *)

Lemma insert_sorted (x : Z) (l : list Z) :
  StronglySorted Z.le l -> StronglySorted Z.le (insert x l).
Proof.
  induction 1 as [|y l Hl IH Hy]; simpl.
  - repeat constructor.
  - unfold compareFn; simpl. destruct (Z.ltb_spec (y - x) 0) as [Hlt|Hge].
    + constructor; [assumption|].
      eapply Permutation_Forall; [symmetry; apply insert_Permutation|].
      constructor; [lia | assumption].
    + constructor; [now constructor|].
      constructor; [lia|]. eapply Forall_impl; [|exact Hy]. simpl. lia.
Qed.

Lemma sort_sorted (l : list Z) : StronglySorted Z.le (sort l).
Proof.
  induction l as [|x l IH]; simpl; [constructor | now apply insert_sorted].
Qed.

Lemma indexOfFrom_found (i : Z) (l : list Z) (b : Z) :
  In b l -> i <= indexOfFrom i l b.
Proof.
  revert i. induction l as [|y l IH]; intros i; [intros []|].
  intros Hb. simpl. destruct (Z.eqb_spec y b) as [->|Hyb]; [lia|].
  destruct Hb as [Hb|Hb]; [congruence|]. specialize (IH (i + 1) Hb). lia.
Qed.

(** In an ascending array a smaller value is found no later. *)
Lemma indexOfFrom_sorted (i : Z) (l : list Z) (a b : Z) :
  StronglySorted Z.le l -> In a l -> In b l -> a <= b ->
  indexOfFrom i l a <= indexOfFrom i l b.
Proof.
  intros Hs. revert i. induction Hs as [|x l Hl IH Hx]; intros i; [intros []|].
  intros Ha Hb Hab. simpl. rewrite Forall_forall in Hx.
  destruct (Z.eqb_spec x a) as [->|Hxa].
  - destruct (Z.eqb_spec a b) as [->|Hne]; [lia|].
    destruct Hb as [Hb|Hb]; [congruence|].
    pose proof (indexOfFrom_found (i + 1) l b Hb). lia.
  - destruct Ha as [Ha|Ha]; [congruence|].
    destruct (Z.eqb_spec x b) as [->|Hxb].
    + specialize (Hx a Ha). lia.
    + destruct Hb as [Hb|Hb]; [congruence|]. now apply IH.
Qed.

(** An array of day counts without NaN sorts as the integers do. *)
Lemma insert_Some (x : Z) (l : list Z) :
  insert (Some x) (map Some l) = map Some (insert x l).
Proof.
  induction l as [|y l IH]; simpl; [reflexivity|].
  unfold compareFn in *; simpl in *.
  destruct (y - x <? 0); simpl; [now rewrite IH | reflexivity].
Qed.

Lemma sort_Some (l : list Z) : sort (map Some l) = map Some (sort l).
Proof.
  induction l as [|x l IH]; simpl; [reflexivity|].
  now rewrite IH, insert_Some.
Qed.

Lemma indexOfFrom_Some (i : Z) (l : list Z) (x : Z) :
  indexOfFrom i (map Some l) (Some x) = indexOfFrom i l x.
Proof.
  revert i. induction l as [|y l IH]; intros i; simpl; [reflexivity|].
  now rewrite IH.
Qed.

(** ** The customers array *)

Lemma customersOf_ids (now : Z) (ts : list Transaction.t) :
  map Customer.customer_id (customersOf now ts) = map fst (customerDataOf ts).
Proof.
  unfold customersOf. rewrite map_map. apply map_ext. now intros [id d].
Qed.

Lemma customersOf_In (now : Z) (ts : list Transaction.t) (c : Customer.t) :
  In c (customersOf now ts) ->
  exists d, summary (transactionsOf (Customer.customer_id c) ts) = Some d /\
            c = toCustomer now (Customer.customer_id c, d).
Proof.
  unfold customersOf. intros Hin. apply in_map_iff in Hin as ([id d] & <- & Hin).
  exists d. split; [now apply customerDataOf_In | reflexivity].
Qed.

(** With parseable dates every customer has a valid last date, the latest
    of its transactions, and a recency that is a number. *)
Lemma customersOf_lastDate (now : Z) (ts : list Transaction.t) (c : Customer.t) :
  parseable ts -> In c (customersOf now ts) ->
  exists m, Customer.lastDate c = Some m /\
            Customer.recency c = Some ((now - m) / msPerDay) /\
            latestOf (transactionsOf (Customer.customer_id c) ts) m.
Proof.
  intros Hp Hin. destruct (customersOf_In now ts c Hin) as (d & Hsum & Hc).
  destruct (summary_lastDate _ d (parseable_transactionsOf _ ts Hp) Hsum)
    as (m & Hm & Hlatest).
  exists m. rewrite Hc. simpl. rewrite Hm. simpl. auto.
Qed.

(** ** One output record *)

Lemma toISODate_Some (t : Z) : exists iso, toISODate (Some t) = Ok iso.
Proof.
  unfold toISODate. destruct (civilFromDays (t / msPerDay)) as [[y m] day].
  eexists. reflexivity.
Qed.

Lemma scoreCustomer_fields (rv : list (option Z)) (fv : list Z)
  (mv : list float) (c : Customer.t) (s : RFMScore.t) :
  scoreCustomer rv fv mv c = Ok s ->
  RFMScore.customer_id s = Customer.customer_id c /\
  RFMScore.recency_score s = 5 - getQuantile rv (Customer.recency c) /\
  RFMScore.frequency_score s = getQuantile fv (Customer.frequency c) /\
  RFMScore.monetary_score s = getQuantile mv (Customer.monetary c) /\
  RFMScore.total_transactions s = Customer.frequency c /\
  RFMScore.total_spend s = Customer.monetary c /\
  RFMScore.avg_spend s =
    (Customer.monetary c / toNumber (Customer.frequency c))%float /\
  toISODate (Customer.lastDate c) = Ok (RFMScore.last_transaction_date s) /\
  RFMScore.segment_name s =
    getSegmentName (RFMScore.recency_score s) (RFMScore.frequency_score s)
      (RFMScore.monetary_score s).
Proof.
  unfold scoreCustomer.
  destruct (toISODate (Customer.lastDate c)) as [iso|e]; simpl; [|discriminate].
  intros [= <-]. simpl. repeat split; reflexivity.
Qed.

Lemma scoreCustomer_returns (rv : list (option Z)) (fv : list Z)
  (mv : list float) (c : Customer.t) (m : Z) :
  Customer.lastDate c = Some m -> exists s, scoreCustomer rv fv mv c = Ok s.
Proof.
  intros Hm. unfold scoreCustomer. rewrite Hm.
  destruct (toISODate_Some m) as [iso ->]. simpl. eexists. reflexivity.
Qed.

(** [calculateRFM] returns on every parseable list, one record per element
    of [customers], in the same order. *)
Lemma calculateRFM_returns (now : Z) (ts : list Transaction.t) :
  parseable ts ->
  exists out,
    calculateRFM now ts = Ok out /\
    Forall2 (fun c s =>
               scoreCustomer (recencyValues (customersOf now ts))
                 (frequencyValues (customersOf now ts))
                 (monetaryValues (customersOf now ts)) c = Ok s)
            (customersOf now ts) out.
Proof.
  intros Hp. unfold calculateRFM.
  destruct (mapM_total
              (scoreCustomer (recencyValues (customersOf now ts))
                 (frequencyValues (customersOf now ts))
                 (monetaryValues (customersOf now ts)))
              (customersOf now ts)) as [out Hout].
  - rewrite Forall_forall. intros c Hc.
    destruct (customersOf_lastDate now ts c Hp Hc) as (m & Hm & _).
    now apply scoreCustomer_returns with (m := m).
  - exists out. split; [exact Hout | now apply mapM_Ok].
Qed.

(** A customer whose last date is an Invalid Date makes the scorer throw:
    this is why the statements below ask for parseable dates. *)
Lemma calculateRFM_invalid_date (now : Z) (ts : list Transaction.t)
  (c : Customer.t) :
  In c (customersOf now ts) -> Customer.lastDate c = None ->
  exists e, calculateRFM now ts = Throw e.
Proof.
  intros Hin Hnone. unfold calculateRFM.
  eapply mapM_Throw; [exact Hin|].
  unfold scoreCustomer. rewrite Hnone. reflexivity.
Qed.

Lemma calculateRFM_undated :
  calculateRFM exampleNow undated = Throw (RangeError "Invalid time value").
Proof. reflexivity. Qed.

(** The example of the specification: B, the most recent, has recency
    score 4 and A has 3. *)
Lemma calculateRFM_example :
  calculateRFM exampleNow exampleTransactions =
  Ok [ {| RFMScore.customer_id := "A";
          RFMScore.recency_score := 3;
          RFMScore.frequency_score := 2;
          RFMScore.monetary_score := 2;
          RFMScore.total_transactions := 2;
          RFMScore.total_spend := 300;
          RFMScore.avg_spend := 150;
          RFMScore.last_transaction_date := "2024-02-01";
          RFMScore.segment_name := "Potential Loyalists" |};
       {| RFMScore.customer_id := "B";
          RFMScore.recency_score := 4;
          RFMScore.frequency_score := 1;
          RFMScore.monetary_score := 1;
          RFMScore.total_transactions := 1;
          RFMScore.total_spend := 50;
          RFMScore.avg_spend := 50;
          RFMScore.last_transaction_date := "2024-06-01";
          RFMScore.segment_name := "New Customers" |} ].
Proof. reflexivity. Qed.

Lemma Forall2_combine_In {A B : Type} (R : A -> B -> Prop) (l : list A)
  (l' : list B) (a : A) (b : B) :
  Forall2 R l l' -> In (a, b) (combine l l') -> R a b.
Proof.
  induction 1 as [|x y l l' Hxy _ IH]; simpl; [intros []|].
  intros [[= <- <-]|Hin]; [assumption | now apply IH].
Qed.

Lemma Forall2_In_r {A B : Type} (R : A -> B -> Prop) (l : list A)
  (l' : list B) (b : B) :
  Forall2 R l l' -> In b l' -> exists a, In (a, b) (combine l l').
Proof.
  induction 1 as [|x y l l' _ _ IH]; simpl; [intros []|].
  intros [<-|Hin]; [exists x; now left|].
  destruct (IH Hin) as [a Ha]. exists a. now right.
Qed.

Lemma Forall2_map_eq {A B C : Type} (R : A -> B -> Prop) (f : A -> C)
  (g : B -> C) (l : list A) (l' : list B) :
  (forall a b, R a b -> g b = f a) -> Forall2 R l l' -> map g l' = map f l.
Proof.
  intros HR. induction 1 as [|x y l l' Hxy _ IH]; simpl; [reflexivity|].
  now rewrite IH, (HR x y Hxy).
Qed.

(** * The claims *)

(** C1, as the code has it: [calculateRFM] applied to the empty list
    returns the empty array and throws nothing; an upload without valid
    rows is turned down by the handler, with status 400, before the scorer
    is reached, so that the handler calls the scorer on a non-empty list
    only. *)
Theorem calculateRFM_empty :
  (forall now, calculateRFM now [] = Ok []) /\
  (forall now existing,
      scoreUpload now existing [] =
      ErrorResponse 400 "No valid transactions found in CSV") /\
  (forall now existing t rest,
      existing ++ t :: rest <> [] /\
      scoreUpload now existing (t :: rest) =
      match calculateRFM now (existing ++ t :: rest) with
      | Ok rfmScores => Scored rfmScores
      | Throw (RangeError message) =>
          ErrorResponse 500
            (if String.eqb message "" then "Failed to process CSV"
             else message)
      end).
Proof.
  split; [reflexivity|]. split; [reflexivity|].
  intros now existing t rest. split; [|reflexivity].
  now destruct existing.
Qed.

(** C1 fails as stated: on the empty list the scorer returns normally,
    with an empty array, and signals no error. *)
Lemma calculateRFM_empty_no_error :
  calculateRFM exampleNow [] = Ok [] /\
  ~ (exists e, calculateRFM exampleNow [] = Throw e).
Proof. split; [reflexivity | intros [e He]; discriminate He]. Qed.

(** C2, as the code has it: [getSegmentName] is the documented rule chain
    evaluated in order, first match winning; (4,4,4) is named Champions,
    and (1,1,1) is named Lost Customers by the rule R<=1 and F<=2, which
    comes before the buckets of the sum; (2,1,1) is a triple that reaches
    them and is named Low Value. *)
Theorem getSegmentName_rule_chain :
  (forall r f m, getSegmentName r f m = firstMatch documentedRules r f m) /\
  getSegmentName 4 4 4 = "Champions"%string /\
  getSegmentName 1 1 1 = "Lost Customers"%string /\
  getSegmentName 2 1 1 = "Low Value"%string.
Proof. repeat split; reflexivity. Qed.

(** C2 fails as stated: (1,1,1) does not fall through to Low Value. *)
Lemma getSegmentName_111_not_low_value :
  getSegmentName 1 1 1 <> "Low Value"%string.
Proof. discriminate. Qed.

(** C5: on a non-empty list of transactions, [calculateRFM] returns one
    record per distinct customer_id: every customer_id of the input is in
    the output, the output has no other, and none is there twice. *)
Theorem calculateRFM_one_record_per_customer (now : Z)
  (ts : list Transaction.t) :
  ts <> [] -> parseable ts ->
  exists out,
    calculateRFM now ts = Ok out /\
    NoDup (map RFMScore.customer_id out) /\
    (forall id, In id (map RFMScore.customer_id out) <->
                In id (map Transaction.customer_id ts)).
Proof.
  intros _ Hp. destruct (calculateRFM_returns now ts Hp) as (out & Hout & Hall).
  exists out. split; [exact Hout|].
  assert (Hids : map RFMScore.customer_id out = map fst (customerDataOf ts)).
  { rewrite <- (customersOf_ids now).
    eapply Forall2_map_eq; [|exact Hall].
    intros c s Hs. now apply scoreCustomer_fields in Hs. }
  rewrite Hids. split; [apply customerDataOf_keys_NoDup|].
  intros id. apply customerDataOf_keys.
Qed.

(** On the example of the specification. *)
Lemma calculateRFM_one_record_per_customer_witness :
  exampleTransactions <> [] /\ parseable exampleTransactions /\
  exists out,
    calculateRFM exampleNow exampleTransactions = Ok out /\
    NoDup (map RFMScore.customer_id out) /\
    (forall id, In id (map RFMScore.customer_id out) <->
                In id (map Transaction.customer_id exampleTransactions)).
Proof.
  assert (Hne : exampleTransactions <> []) by discriminate.
  assert (Hp : parseable exampleTransactions)
    by (repeat constructor; discriminate).
  split; [exact Hne|]. split; [exact Hp|].
  exact (calculateRFM_one_record_per_customer exampleNow exampleTransactions
           Hne Hp).
Defined.

(** C8: on a non-empty list of transactions, the recency, frequency and
    monetary scores of every output record are among 1, 2, 3 and 4. *)
Theorem calculateRFM_scores_in_range (now : Z) (ts : list Transaction.t) :
  ts <> [] -> parseable ts ->
  exists out,
    calculateRFM now ts = Ok out /\
    forall s, In s out ->
      In (RFMScore.recency_score s) [1; 2; 3; 4] /\
      In (RFMScore.frequency_score s) [1; 2; 3; 4] /\
      In (RFMScore.monetary_score s) [1; 2; 3; 4].
Proof.
  intros _ Hp. destruct (calculateRFM_returns now ts Hp) as (out & Hout & Hall).
  exists out. split; [exact Hout|]. intros s Hs.
  destruct (Forall2_In_r _ _ _ s Hall Hs) as [c Hc].
  apply (Forall2_combine_In _ _ _ _ _ Hall) in Hc.
  apply scoreCustomer_fields in Hc as (_ & -> & -> & -> & _).
  pose proof (getQuantile_range (recencyValues (customersOf now ts))
                (Customer.recency c)) as Hr.
  pose proof (getQuantile_range (frequencyValues (customersOf now ts))
                (Customer.frequency c)) as Hf.
  pose proof (getQuantile_range (monetaryValues (customersOf now ts))
                (Customer.monetary c)) as Hm.
  assert (Hin : forall q, 1 <= q <= 4 -> In q [1; 2; 3; 4]).
  { intros q Hq. simpl.
    assert (q = 1 \/ q = 2 \/ q = 3 \/ q = 4) as [->|[->|[->| ->]]] by lia;
      auto. }
  repeat split; apply Hin; lia.
Qed.

(** On the example of the specification. *)
Lemma calculateRFM_scores_in_range_witness :
  exampleTransactions <> [] /\ parseable exampleTransactions /\
  exists out,
    calculateRFM exampleNow exampleTransactions = Ok out /\
    forall s, In s out ->
      In (RFMScore.recency_score s) [1; 2; 3; 4] /\
      In (RFMScore.frequency_score s) [1; 2; 3; 4] /\
      In (RFMScore.monetary_score s) [1; 2; 3; 4].
Proof.
  assert (Hne : exampleTransactions <> []) by discriminate.
  assert (Hp : parseable exampleTransactions)
    by (repeat constructor; discriminate).
  split; [exact Hne|]. split; [exact Hp|].
  exact (calculateRFM_scores_in_range exampleNow exampleTransactions Hne Hp).
Defined.

(** C9: every output record has at least one transaction, its average
    spend is its total spend divided by its number of transactions, its
    total spend is the sum of the amounts of the customer's transactions
    and its number of transactions is their count. *)
Theorem calculateRFM_avg_spend (now : Z) (ts : list Transaction.t) :
  parseable ts ->
  exists out,
    calculateRFM now ts = Ok out /\
    forall s, In s out ->
      1 <= RFMScore.total_transactions s /\
      RFMScore.avg_spend s =
        (RFMScore.total_spend s
         / toNumber (RFMScore.total_transactions s))%float /\
      RFMScore.total_spend s =
        sumAmounts (transactionsOf (RFMScore.customer_id s) ts) /\
      RFMScore.total_transactions s =
        Z.of_nat (List.length (transactionsOf (RFMScore.customer_id s) ts)).
Proof.
  intros Hp. destruct (calculateRFM_returns now ts Hp) as (out & Hout & Hall).
  exists out. split; [exact Hout|]. intros s Hs.
  destruct (Forall2_In_r _ _ _ s Hall Hs) as [c Hc].
  assert (Hcin : In c (customersOf now ts)) by (eapply in_combine_l; exact Hc).
  apply (Forall2_combine_In _ _ _ _ _ Hall) in Hc.
  apply scoreCustomer_fields in Hc as (-> & _ & _ & _ & -> & -> & -> & _).
  destruct (customersOf_In now ts c Hcin) as (d & Hsum & Hd).
  assert (Hfreq : Customer.frequency c = CustomerData.transactions d)
    by (rewrite Hd; reflexivity).
  assert (Hmon : Customer.monetary c = CustomerData.totalSpend d)
    by (rewrite Hd; reflexivity).
  rewrite Hfreq, Hmon.
  rewrite (summary_transactions _ d Hsum), (summary_totalSpend _ d Hsum).
  repeat split.
  destruct (transactionsOf (Customer.customer_id c) ts); [discriminate|].
  simpl List.length. lia.
Qed.

(** On the example of the specification. *)
Lemma calculateRFM_avg_spend_witness :
  parseable exampleTransactions /\
  exists out,
    calculateRFM exampleNow exampleTransactions = Ok out /\
    forall s, In s out ->
      1 <= RFMScore.total_transactions s /\
      RFMScore.avg_spend s =
        (RFMScore.total_spend s
         / toNumber (RFMScore.total_transactions s))%float /\
      RFMScore.total_spend s =
        sumAmounts (transactionsOf (RFMScore.customer_id s)
                      exampleTransactions) /\
      RFMScore.total_transactions s =
        Z.of_nat (List.length (transactionsOf (RFMScore.customer_id s)
                                 exampleTransactions)).
Proof.
  assert (Hp : parseable exampleTransactions)
    by (repeat constructor; discriminate).
  split; [exact Hp|].
  exact (calculateRFM_avg_spend exampleNow exampleTransactions Hp).
Defined.

(** ** A cohort of one *)

Lemma getQuantile_singleton {A : Type} `{JSNumber A} (v : A) :
  getQuantile (sort [v]) v = 1.
Proof.
  unfold getQuantile, indexOf. simpl. now destruct (strictEq v v).
Qed.

Lemma NoDup_all_equal {A : Type} (a : A) (l : list A) :
  NoDup l -> (forall x, In x l -> x = a) -> In a l -> l = [a].
Proof.
  intros Hnd Hall Hin. destruct l as [|x l]; [destruct Hin|].
  rewrite (Hall x (or_introl eq_refl)) in *.
  destruct l as [|y l]; [reflexivity|].
  inversion Hnd as [|? ? Hnotin _]; subst. elim Hnotin. left.
  apply Hall. right. now left.
Qed.

(** C10: when the list is non-empty and all its transactions have the same
    customer_id, the output is a single record, with recency score 4,
    frequency score 1 and monetary score 1, whatever the dates and the
    amounts. *)
Theorem calculateRFM_single_customer (now : Z) (ts : list Transaction.t)
  (id : string) :
  ts <> [] -> parseable ts ->
  (forall t, In t ts -> Transaction.customer_id t = id) ->
  exists s,
    calculateRFM now ts = Ok [s] /\
    RFMScore.customer_id s = id /\
    RFMScore.recency_score s = 4 /\
    RFMScore.frequency_score s = 1 /\
    RFMScore.monetary_score s = 1.
Proof.
  intros Hne Hp Hid.
  assert (Hkeys : map fst (customerDataOf ts) = [id]).
  { apply NoDup_all_equal.
    - apply customerDataOf_keys_NoDup.
    - intros x Hx. apply customerDataOf_keys, in_map_iff in Hx as (t & <- & Ht).
      now apply Hid.
    - apply customerDataOf_keys. destruct ts as [|t ts]; [now elim Hne|].
      simpl. left. apply Hid. now left. }
  destruct (calculateRFM_returns now ts Hp) as (out & Hout & Hall).
  unfold customersOf in Hall.
  destruct (customerDataOf ts) as [|[k d] [|e m]] eqn:Hm; try discriminate.
  injection Hkeys as ->.
  inversion Hall as [|c s ? out' Hs Hrest]; subst. inversion Hrest; subst.
  exists s. split.
  - rewrite Hout. reflexivity.
  - apply scoreCustomer_fields in Hs as (Hcid & Hr & Hf & Hmon & _).
    unfold recencyValues, frequencyValues, monetaryValues in *.
    simpl map in *.
    split; [exact Hcid|].
    rewrite Hr, Hf, Hmon, !getQuantile_singleton. now repeat split.
Qed.

(** On a customer with three purchases out of chronological order. *)
Lemma calculateRFM_single_customer_witness :
  loneCustomer <> [] /\ parseable loneCustomer /\
  (forall t, In t loneCustomer -> Transaction.customer_id t = "A"%string) /\
  exists s,
    calculateRFM exampleNow loneCustomer = Ok [s] /\
    RFMScore.customer_id s = "A"%string /\
    RFMScore.recency_score s = 4 /\
    RFMScore.frequency_score s = 1 /\
    RFMScore.monetary_score s = 1.
Proof.
  assert (Hne : loneCustomer <> []) by discriminate.
  assert (Hp : parseable loneCustomer) by (repeat constructor; discriminate).
  assert (Hid : forall t, In t loneCustomer ->
                          Transaction.customer_id t = "A"%string).
  { intros t [<-|[<-|[<-|[]]]]; reflexivity. }
  split; [exact Hne|]. split; [exact Hp|]. split; [exact Hid|].
  exact (calculateRFM_single_customer exampleNow loneCustomer "A" Hne Hp Hid).
Defined.

Lemma Forall2_In_l {A B : Type} (R : A -> B -> Prop) (l : list A)
  (l' : list B) (a : A) :
  Forall2 R l l' -> In a l -> exists b, In (a, b) (combine l l').
Proof.
  induction 1 as [|x y l l' _ _ IH]; simpl; [intros []|].
  intros [<-|Hin]; [exists y; now left|].
  destruct (IH Hin) as [b Hb]. exists b. now right.
Qed.

(** The score of a metric in an output record, from the customer. *)
Lemma scoreCustomer_scoreOf (metric : Metric) (customers : list Customer.t)
  (c : Customer.t) (s : RFMScore.t) :
  scoreCustomer (recencyValues customers) (frequencyValues customers)
    (monetaryValues customers) c = Ok s ->
  scoreOf metric s =
  match metric with
  | Recency => 5 - getQuantile (recencyValues customers) (Customer.recency c)
  | Frequency => getQuantile (frequencyValues customers) (Customer.frequency c)
  | Monetary => getQuantile (monetaryValues customers) (Customer.monetary c)
  end.
Proof.
  intros Hs. apply scoreCustomer_fields in Hs as (_ & Hr & Hf & Hm & _).
  now destruct metric.
Qed.

(** *** The first index of a value *)

Section FirstIndex.
Context {A : Type} `{JSNumber A}.

Lemma indexOfFrom_occurs (i : Z) (values : list A) (value x : A) :
  0 <= i -> In x values -> strictEq x value = true ->
  i <= indexOfFrom i values value.
Proof.
  revert i. induction values as [|y rest IH]; intros i Hi Hin Hx;
    [destruct Hin|].
  simpl indexOfFrom. destruct (strictEq y value) eqn:Hy; [lia|].
  destruct Hin as [->|Hin]; [congruence|].
  specialize (IH (i + 1) ltac:(lia) Hin Hx). lia.
Qed.

(** When the value occurs in the array, [indexOf] returns its first
    index. *)
Lemma indexOf_firstIndexOf (values : list A) (value x : A) :
  In x values -> strictEq x value = true ->
  firstIndexOf values value (indexOf values value).
Proof.
  intros Hin Hx.
  pose proof (indexOfFrom_occurs 0 values value x ltac:(lia) Hin Hx) as Hlo.
  pose proof (indexOfFrom_bounds 0 values value) as Hb.
  fold (indexOf values value) in Hlo, Hb.
  destruct (indexOf_first values value (Z.to_nat (indexOf values value))
              ltac:(lia)) as [Hat Hbefore].
  split; [lia|]. split; [exact Hat|].
  intros j y Hj Hy. apply (Hbefore (Z.to_nat j) y); [lia | exact Hy].
Qed.

(** The lookup of [getQuantile], in any array that holds the value: the
    quartile is the quartile of the first index of the value. *)
Lemma getQuantile_first (values : list A) (value x : A) :
  In x values -> strictEq x value = true ->
  exists i,
    firstIndexOf values value i /\
    getQuantile values value
    = quartileOfIndex i (Z.of_nat (List.length values)).
Proof.
  intros Hin Hx. exists (indexOf values value).
  split; [now apply (indexOf_firstIndexOf values value x)|].
  apply getQuantile_index. intros Hnil. rewrite Hnil in Hin. destruct Hin.
Qed.

Hypothesis strictEq_congr :
  forall a b : A, strictEq a b = true -> forall x, strictEq x a = strictEq x b.

Lemma firstIndexOf_strictEq (values : list A) (a b : A) (i : Z) :
  strictEq a b = true -> firstIndexOf values a i -> firstIndexOf values b i.
Proof.
  intros Hab (Hi & (x & Hx & Hxa) & Hbefore). split; [exact Hi|]. split.
  - exists x. split; [exact Hx|]. now rewrite <- (strictEq_congr a b Hab).
  - intros j y Hj Hy. rewrite <- (strictEq_congr a b Hab).
    now apply (Hbefore j).
Qed.

(** Two members of a cohort with the same value: both lookups in the
    sorted array of the cohort's values end at the first index of the
    value, and the quartile is the quartile of that index. *)
Lemma getQuantile_tie {B : Type} (value : B -> A) (cohort : list B)
  (c1 c2 : B) :
  In c1 cohort -> strictEq (value c1) (value c2) = true ->
  exists i,
    firstIndexOf (sort (map value cohort)) (value c1) i /\
    firstIndexOf (sort (map value cohort)) (value c2) i /\
    getQuantile (sort (map value cohort)) (value c1) =
    quartileOfIndex i (Z.of_nat (List.length cohort)).
Proof.
  intros Hin Hsame.
  assert (Hself : strictEq (value c1) (value c1) = true)
    by (now rewrite (strictEq_congr _ _ Hsame)).
  assert (Hocc : In (value c1) (sort (map value cohort))).
  { apply (Permutation_in _ (Permutation_sym (sort_Permutation _))).
    now apply in_map. }
  pose proof (indexOf_firstIndexOf _ _ _ Hocc Hself) as Hfirst.
  exists (indexOf (sort (map value cohort)) (value c1)).
  split; [exact Hfirst|]. split.
  - now apply (firstIndexOf_strictEq _ (value c1)).
  - rewrite getQuantile_index.
    + now rewrite sort_length, length_map.
    + intros Hnil. rewrite Hnil in Hocc. destruct Hocc.
Qed.
End FirstIndex.

(** C4: quantile lookup is by value, and ties are broken by the first
    occurrence.  Two customers of one cohort with the same recency have
    the same recency score, and likewise for frequency and for monetary
    value.  When no value of the metric is NaN, so that the sorted array
    is the one the language fixes, there is one index that is the first
    index of the value of either customer in the sorted array of the
    metric, whatever the places of the two customers in the cohort, and
    the quartile of both is the quartile of that index among as many
    indices as the cohort has customers.  The lookup itself does so in
    every array, in whatever order the array is: [getQuantile] of a value
    that the array holds is the quartile of the first index of the
    value. *)
Theorem equal_values_equal_scores (now : Z) (ts : list Transaction.t)
  (metric : Metric) (c1 c2 : Customer.t) :
  parseable ts ->
  In c1 (customersOf now ts) -> In c2 (customersOf now ts) ->
  sameValue metric c1 c2 = true ->
  exists out,
    calculateRFM now ts = Ok out /\
    (exists s1 s2, scored now ts out c1 s1 /\ scored now ts out c2 s2) /\
    (forall s1 s2, scored now ts out c1 s1 -> scored now ts out c2 s2 ->
       scoreOf metric s1 = scoreOf metric s2 /\
       (metricNumbers metric (customersOf now ts) = true ->
        exists i,
          firstIndex metric (customersOf now ts) c1 i /\
          firstIndex metric (customersOf now ts) c2 i /\
          quartileFor metric (scoreOf metric s1)
          = quartileOfIndex i (Z.of_nat (List.length (customersOf now ts))) /\
          quartileFor metric (scoreOf metric s2)
          = quartileOfIndex i (Z.of_nat (List.length (customersOf now ts))))) /\
    (forall (A : Type) (number : JSNumber A) (values : list A) (value x : A),
       In x values -> strictEq x value = true ->
       exists i,
         firstIndexOf values value i /\
         getQuantile values value
         = quartileOfIndex i (Z.of_nat (List.length values))).
Proof.
  intros Hp Hc1 Hc2 Hsame.
  destruct (calculateRFM_returns now ts Hp) as (out & Hout & Hall).
  exists out. split; [exact Hout|]. split; [|split].
  - destruct (Forall2_In_l _ _ _ c1 Hall Hc1) as [s1 Hs1].
    destruct (Forall2_In_l _ _ _ c2 Hall Hc2) as [s2 Hs2].
    now exists s1, s2.
  - intros s1 s2 Hs1 Hs2. unfold scored in *.
    apply (Forall2_combine_In _ _ _ _ _ Hall) in Hs1, Hs2.
    rewrite (scoreCustomer_scoreOf metric _ c1 s1 Hs1).
    rewrite (scoreCustomer_scoreOf metric _ c2 s2 Hs2).
    destruct metric; simpl in Hsame;
      unfold quartileFor, quartileOf, firstIndex, recencyValues,
        frequencyValues, monetaryValues.
    + pose proof (getQuantile_strictEq strictEq_congr_days
                    (sort (map Customer.recency (customersOf now ts)))
                    _ _ Hsame) as Heq.
      split; [now f_equal|]. intros _.
      destruct (getQuantile_tie strictEq_congr_days Customer.recency
                  (customersOf now ts) c1 c2 Hc1 Hsame) as (i & H1 & H2 & Hq).
      exists i. split; [exact H1|]. split; [exact H2|]. lia.
    + pose proof (getQuantile_strictEq strictEq_congr_Z
                    (sort (map Customer.frequency (customersOf now ts)))
                    _ _ Hsame) as Heq.
      split; [exact Heq|]. intros _.
      destruct (getQuantile_tie strictEq_congr_Z Customer.frequency
                  (customersOf now ts) c1 c2 Hc1 Hsame) as (i & H1 & H2 & Hq).
      exists i. split; [exact H1|]. split; [exact H2|]. lia.
    + pose proof (getQuantile_strictEq strictEq_congr_float
                    (sort (map Customer.monetary (customersOf now ts)))
                    _ _ Hsame) as Heq.
      split; [exact Heq|]. intros _.
      destruct (getQuantile_tie strictEq_congr_float Customer.monetary
                  (customersOf now ts) c1 c2 Hc1 Hsame) as (i & H1 & H2 & Hq).
      exists i. split; [exact H1|]. split; [exact H2|]. lia.
  - intros A number values value x. apply getQuantile_first.
Qed.

(** On two customers with the same total spend. *)
Lemma equal_values_equal_scores_witness :
  parseable tiedCustomers /\
  In tiedA (customersOf exampleNow tiedCustomers) /\
  In tiedB (customersOf exampleNow tiedCustomers) /\
  sameValue Monetary tiedA tiedB = true /\
  exists out,
    calculateRFM exampleNow tiedCustomers = Ok out /\
    (exists s1 s2, scored exampleNow tiedCustomers out tiedA s1 /\
                   scored exampleNow tiedCustomers out tiedB s2) /\
    (forall s1 s2, scored exampleNow tiedCustomers out tiedA s1 ->
                   scored exampleNow tiedCustomers out tiedB s2 ->
       scoreOf Monetary s1 = scoreOf Monetary s2 /\
       (metricNumbers Monetary (customersOf exampleNow tiedCustomers) = true ->
        exists i,
          firstIndex Monetary (customersOf exampleNow tiedCustomers) tiedA i /\
          firstIndex Monetary (customersOf exampleNow tiedCustomers) tiedB i /\
          quartileFor Monetary (scoreOf Monetary s1)
          = quartileOfIndex i
              (Z.of_nat (List.length (customersOf exampleNow tiedCustomers))) /\
          quartileFor Monetary (scoreOf Monetary s2)
          = quartileOfIndex i
              (Z.of_nat (List.length (customersOf exampleNow tiedCustomers))))) /\
    (forall (A : Type) (number : JSNumber A) (values : list A) (value x : A),
       In x values -> strictEq x value = true ->
       exists i,
         firstIndexOf values value i /\
         getQuantile values value
         = quartileOfIndex i (Z.of_nat (List.length values))).
Proof.
  assert (Hp : parseable tiedCustomers) by (repeat constructor; discriminate).
  assert (HA : In tiedA (customersOf exampleNow tiedCustomers))
    by (vm_compute; left; reflexivity).
  assert (HB : In tiedB (customersOf exampleNow tiedCustomers))
    by (vm_compute; right; left; reflexivity).
  assert (Hsame : sameValue Monetary tiedA tiedB = true) by reflexivity.
  split; [exact Hp|]. split; [exact HA|]. split; [exact HB|].
  split; [exact Hsame|].
  exact (equal_values_equal_scores exampleNow tiedCustomers Monetary tiedA
           tiedB Hp HA HB Hsame).
Defined.

(** On totals 25, 25 and 50 both customers with 25 are looked up at
    index 0 and get quartile 1; index 1, the second place of the value
    in the sorted array, would give quartile 2. *)
Lemma tied_customers_scores :
  (exists out,
      calculateRFM exampleNow tiedCustomers = Ok out /\
      map RFMScore.monetary_score out = [1; 1; 3]) /\
  monetaryValues (customersOf exampleNow tiedCustomers) = [25; 25; 50]%float /\
  quartileOfIndex 0 3 = 1 /\ quartileOfIndex 1 3 = 2.
Proof.
  split; [eexists; split; vm_compute; reflexivity|].
  repeat split; vm_compute; reflexivity.
Qed.

(** ** Recency and its score *)

Lemma all_Some (l : list (option Z)) :
  Forall (fun o => o <> None) l -> exists zs, l = map Some zs.
Proof.
  induction 1 as [|o l Ho _ [zs ->]].
  - now exists [].
  - destruct o as [z|]; [|now elim Ho]. now exists (z :: zs).
Qed.

Lemma customersOf_recencies (now : Z) (ts : list Transaction.t) :
  parseable ts ->
  exists zs, map Customer.recency (customersOf now ts) = map Some zs.
Proof.
  intros Hp. apply all_Some. rewrite Forall_map, Forall_forall. intros c Hc.
  destruct (customersOf_lastDate now ts c Hp Hc) as (m & _ & -> & _).
  discriminate.
Qed.

(** In a cohort without NaN, a smaller day count has a quartile that is
    not higher. *)
Lemma recency_quartile_mono (zs : list Z) (d1 d2 : Z) :
  In d1 zs -> In d2 zs -> d1 <= d2 ->
  getQuantile (sort (map Some zs)) (Some d1) <=
  getQuantile (sort (map Some zs)) (Some d2).
Proof.
  intros H1 H2 Hle.
  assert (Hne : sort (map Some zs) <> []).
  { intros Hnil. apply (f_equal (@List.length _)) in Hnil.
    rewrite sort_length, length_map in Hnil. destruct zs; [destruct H1|].
    discriminate. }
  rewrite !getQuantile_index by exact Hne.
  rewrite sort_Some. unfold indexOf. rewrite !indexOfFrom_Some.
  apply quartileOfIndex_mono.
  - rewrite length_map, sort_length. destruct zs; [destruct H1|].
    simpl List.length. lia.
  - apply indexOfFrom_sorted.
    + apply sort_sorted.
    + eapply Permutation_in; [symmetry; apply sort_Permutation | exact H1].
    + eapply Permutation_in; [symmetry; apply sort_Permutation | exact H2].
    + exact Hle.
Qed.

(** C6: of two customers of one cohort, the one with the smaller or equal
    number of whole days since its last transaction has the greater or
    equal recency score, the score being 5 minus the quartile of the
    recency. *)
Theorem recency_score_monotone (now : Z) (ts : list Transaction.t)
  (c1 c2 : Customer.t) (d1 d2 : Z) :
  parseable ts ->
  In c1 (customersOf now ts) -> In c2 (customersOf now ts) ->
  Customer.recency c1 = Some d1 -> Customer.recency c2 = Some d2 ->
  d1 <= d2 ->
  exists out,
    calculateRFM now ts = Ok out /\
    (exists s1 s2, scored now ts out c1 s1 /\ scored now ts out c2 s2) /\
    (forall s1 s2, scored now ts out c1 s1 -> scored now ts out c2 s2 ->
       RFMScore.recency_score s1 =
         5 - getQuantile (recencyValues (customersOf now ts)) (Some d1) /\
       RFMScore.recency_score s2 =
         5 - getQuantile (recencyValues (customersOf now ts)) (Some d2) /\
       RFMScore.recency_score s2 <= RFMScore.recency_score s1).
Proof.
  intros Hp Hc1 Hc2 Hd1 Hd2 Hle.
  destruct (calculateRFM_returns now ts Hp) as (out & Hout & Hall).
  exists out. split; [exact Hout|]. split.
  - destruct (Forall2_In_l _ _ _ c1 Hall Hc1) as [s1 Hs1].
    destruct (Forall2_In_l _ _ _ c2 Hall Hc2) as [s2 Hs2].
    now exists s1, s2.
  - intros s1 s2 Hs1 Hs2. unfold scored in *.
    apply (Forall2_combine_In _ _ _ _ _ Hall) in Hs1, Hs2.
    apply scoreCustomer_fields in Hs1 as (_ & Hr1 & _).
    apply scoreCustomer_fields in Hs2 as (_ & Hr2 & _).
    rewrite Hd1 in Hr1. rewrite Hd2 in Hr2.
    split; [exact Hr1|]. split; [exact Hr2|].
    rewrite Hr1, Hr2. unfold recencyValues.
    destruct (customersOf_recencies now ts Hp) as [zs Hzs]. rewrite Hzs.
    assert (Hin : forall c d, In c (customersOf now ts) ->
                              Customer.recency c = Some d -> In d zs).
    { intros c d Hc Hd.
      assert (Hsome : In (Some d) (map Some zs)).
      { rewrite <- Hzs, <- Hd. now apply in_map. }
      apply in_map_iff in Hsome as (z & [= ->] & Hz). exact Hz. }
    pose proof (recency_quartile_mono zs d1 d2 (Hin c1 d1 Hc1 Hd1)
                  (Hin c2 d2 Hc2 Hd2) Hle).
    lia.
Qed.

(** On the example of the specification: B, one day ago, against A, 122
    days ago. *)
Lemma recency_score_monotone_witness :
  parseable exampleTransactions /\
  In exampleB (customersOf exampleNow exampleTransactions) /\
  In exampleA (customersOf exampleNow exampleTransactions) /\
  Customer.recency exampleB = Some 1 /\
  Customer.recency exampleA = Some 122 /\
  1 <= 122 /\
  exists out,
    calculateRFM exampleNow exampleTransactions = Ok out /\
    (exists s1 s2, scored exampleNow exampleTransactions out exampleB s1 /\
                   scored exampleNow exampleTransactions out exampleA s2) /\
    (forall s1 s2,
       scored exampleNow exampleTransactions out exampleB s1 ->
       scored exampleNow exampleTransactions out exampleA s2 ->
       RFMScore.recency_score s1 =
         5 - getQuantile
               (recencyValues (customersOf exampleNow exampleTransactions))
               (Some 1) /\
       RFMScore.recency_score s2 =
         5 - getQuantile
               (recencyValues (customersOf exampleNow exampleTransactions))
               (Some 122) /\
       RFMScore.recency_score s2 <= RFMScore.recency_score s1).
Proof.
  assert (Hp : parseable exampleTransactions)
    by (repeat constructor; discriminate).
  assert (HB : In exampleB (customersOf exampleNow exampleTransactions))
    by (vm_compute; right; left; reflexivity).
  assert (HA : In exampleA (customersOf exampleNow exampleTransactions))
    by (vm_compute; left; reflexivity).
  assert (Hle : 1 <= 122) by lia.
  split; [exact Hp|]. split; [exact HB|]. split; [exact HA|].
  split; [reflexivity|]. split; [reflexivity|]. split; [exact Hle|].
  exact (recency_score_monotone exampleNow exampleTransactions exampleB
           exampleA 1 122 Hp HB HA eq_refl eq_refl Hle).
Defined.

(** ** Cohorts with pairwise distinct values *)

Section Distinct.
Context {A : Type} `{JSNumber A}.

Lemma distinctValues_cons (x : A) (rest : list A) :
  distinctValues (x :: rest) = true <->
  strictEq x x = true /\
  (forall y, In y rest -> strictEq x y = false /\ strictEq y x = false) /\
  distinctValues rest = true.
Proof.
  simpl. rewrite !andb_true_iff, forallb_forall. split.
  - intros [[Hx Hall] Hrest]. split; [exact Hx|]. split; [|exact Hrest].
    intros y Hy. specialize (Hall y Hy).
    apply andb_true_iff in Hall as [Hxy Hyx].
    split; now apply negb_true_iff.
  - intros (Hx & Hall & Hrest). split; [split|]; [exact Hx| |exact Hrest].
    intros y Hy. destruct (Hall y Hy) as [-> ->]. reflexivity.
Qed.

Lemma distinctValues_Permutation (l l' : list A) :
  Permutation l l' -> distinctValues l = true -> distinctValues l' = true.
Proof.
  induction 1 as [|x l l' Hp IH|x y l|l l' l'' _ IH1 _ IH2].
  - trivial.
  - rewrite !distinctValues_cons. intros (Hx & Hall & Hrest).
    split; [exact Hx|]. split; [|now apply IH].
    intros z Hz. apply Hall. eapply Permutation_in; [symmetry|]; eassumption.
  - rewrite !distinctValues_cons. intros (Hy & Hally & Hx & Hallx & Hrest).
    destruct (Hally x (or_introl eq_refl)) as [Hyx Hxy].
    split; [exact Hx|]. split.
    + intros z [<-|Hz]; [now split | now apply Hallx].
    + split; [exact Hy|]. split; [|exact Hrest].
      intros z Hz. apply Hally. now right.
  - auto.
Qed.

(** In an array of distinct values every element is found at its own
    place. *)
Lemma indexOfFrom_distinct (i : Z) (values : list A) :
  distinctValues values = true ->
  map (indexOfFrom i values) values =
  map (fun k => i + Z.of_nat k) (seq 0 (List.length values)).
Proof.
  revert i. induction values as [|x rest IH]; intros i; [reflexivity|].
  rewrite distinctValues_cons. intros (Hx & Hall & Hrest).
  simpl List.length. simpl seq. simpl map. rewrite Hx. f_equal; [lia|].
  rewrite <- seq_shift, map_map.
  transitivity (map (indexOfFrom (i + 1) rest) rest).
  - apply map_ext_in. intros y Hy. destruct (Hall y Hy) as [-> _]. reflexivity.
  - rewrite (IH (i + 1) Hrest). apply map_ext. intros k. lia.
Qed.

(** The indices of the values of a cohort in its sorted array are
    0, 1, ..., n - 1 in some order. *)
Lemma indexOf_sort_distinct (values : list A) :
  distinctValues values = true ->
  Permutation (map (indexOf (sort values)) values)
    (map Z.of_nat (seq 0 (List.length values))).
Proof.
  intros Hd.
  assert (Hs : distinctValues (sort values) = true).
  { eapply distinctValues_Permutation; [|exact Hd].
    symmetry. apply sort_Permutation. }
  transitivity (map (indexOf (sort values)) (sort values)).
  - apply Permutation_map. symmetry. apply sort_Permutation.
  - change (indexOf (sort values)) with (indexOfFrom 0 (sort values)).
    rewrite (indexOfFrom_distinct 0 _ Hs), sort_length.
    rewrite (map_ext (fun k => 0 + Z.of_nat k) Z.of_nat) by (intros; lia).
    apply Permutation_refl.
Qed.
End Distinct.

(** ** The sizes of the four groups *)

Lemma Permutation_filter {A : Type} (p : A -> bool) (l l' : list A) :
  Permutation l l' -> Permutation (filter p l) (filter p l').
Proof.
  induction 1 as [|x l l' _ IH|x y l|l l' l'' _ IH1 _ IH2]; simpl.
  - constructor.
  - destruct (p x); [now constructor | assumption].
  - destruct (p x), (p y); try reflexivity. apply perm_swap.
  - now transitivity (filter p l').
Qed.

Lemma count_range (a b : Z) (n : nat) :
  0 <= a <= b ->
  Z.of_nat (List.length (filter (fun i => (a <=? i) && (i <? b))
                           (map Z.of_nat (seq 0 n)))) =
  Z.min b (Z.of_nat n) - Z.min a (Z.of_nat n).
Proof.
  intros Hab. induction n as [|n IH]; [simpl; lia|].
  rewrite seq_S, map_app, filter_app, length_app, Nat2Z.inj_add, IH.
  simpl. destruct (Z.leb_spec a (Z.of_nat n)), (Z.ltb_spec (Z.of_nat n) b);
    simpl; lia.
Qed.

Lemma quartileOfIndex_range_iff (q i n : Z) :
  0 <= i -> 0 < n -> 1 <= q <= 4 ->
  (quartileOfIndex i n =? q) =
  if q =? 1 then (0 <=? i) && (i <? n / 4 + 1)
  else if q =? 2 then (n / 4 + 1 <=? i) && (i <? n / 2 + 1)
  else if q =? 3 then (n / 2 + 1 <=? i) && (i <? 3 * n / 4 + 1)
  else (3 * n / 4 + 1 <=? i) && (i <? i + 1).
Proof.
  intros Hi Hn Hq. unfold quartileOfIndex.
  destruct (Z.leb_spec (4 * i) n), (Z.leb_spec (2 * i) n),
    (Z.leb_spec (4 * i) (3 * n)); try lia;
    assert (q = 1 \/ q = 2 \/ q = 3 \/ q = 4) as [->|[->|[->| ->]]] by lia;
    cbv beta iota delta [Z.eqb Pos.eqb];
    symmetry; apply Bool.eq_iff_eq_true;
    rewrite andb_true_iff, Z.leb_le, Z.ltb_lt;
    (split; [intros ?; exfalso; Z.div_mod_to_equations; lia
            | intros ?; discriminate])
    || (split; [reflexivity | intros _; Z.div_mod_to_equations; lia]).
Qed.

Lemma count_quartile (q : Z) (n : nat) :
  (0 < n)%nat -> 1 <= q <= 4 ->
  Z.of_nat (List.length
              (filter (fun i => quartileOfIndex i (Z.of_nat n) =? q)
                 (map Z.of_nat (seq 0 n)))) =
  quartileSize q (Z.of_nat n).
Proof.
  intros Hn Hq.
  set (a := if q =? 1 then 0 else if q =? 2 then Z.of_nat n / 4 + 1
            else if q =? 3 then Z.of_nat n / 2 + 1
            else 3 * Z.of_nat n / 4 + 1).
  set (b := if q =? 1 then Z.of_nat n / 4 + 1
            else if q =? 2 then Z.of_nat n / 2 + 1
            else if q =? 3 then 3 * Z.of_nat n / 4 + 1 else Z.of_nat n).
  rewrite (filter_ext_in _ (fun i => (a <=? i) && (i <? b))).
  - rewrite count_range; unfold a, b, quartileSize;
      assert (q = 1 \/ q = 2 \/ q = 3 \/ q = 4) as [->|[->|[->| ->]]] by lia;
      simpl Z.eqb; cbv iota; Z.div_mod_to_equations; lia.
  - intros i Hi. apply in_map_iff in Hi as (k & <- & Hk).
    apply in_seq in Hk.
    rewrite quartileOfIndex_range_iff by lia. unfold a, b.
    assert (q = 1 \/ q = 2 \/ q = 3 \/ q = 4) as [->|[->|[->| ->]]] by lia;
      simpl Z.eqb; cbv iota; try reflexivity.
    f_equal. destruct (Z.ltb_spec (Z.of_nat k) (Z.of_nat k + 1)),
      (Z.ltb_spec (Z.of_nat k) (Z.of_nat n)); lia.
Qed.

Lemma quartileSize_sum (n : Z) :
  quartileSize 1 n + quartileSize 2 n + quartileSize 3 n + quartileSize 4 n = n.
Proof. unfold quartileSize. simpl Z.eqb. cbv iota. lia. Qed.

(** Two groups differ by at most 2, and by at most 1 unless the number of
    customers is a multiple of 4. *)
Lemma quartileSize_balance (q1 q2 n : Z) :
  0 < n -> 1 <= q1 <= 4 -> 1 <= q2 <= 4 ->
  Z.abs (quartileSize q1 n - quartileSize q2 n) <=
  (if n mod 4 =? 0 then 2 else 1).
Proof.
  intros Hn H1 H2. unfold quartileSize.
  assert (q1 = 1 \/ q1 = 2 \/ q1 = 3 \/ q1 = 4) as [->|[->|[->| ->]]] by lia;
    assert (q2 = 1 \/ q2 = 2 \/ q2 = 3 \/ q2 = 4) as [->|[->|[->| ->]]] by lia;
    simpl Z.eqb; cbv iota; destruct (Z.eqb_spec (n mod 4) 0);
    Z.div_mod_to_equations; lia.
Qed.

Lemma Forall2_filter_length {A B : Type} (R : A -> B -> Prop)
  (p : A -> bool) (p' : B -> bool) (l : list A) (l' : list B) :
  (forall a b, R a b -> p' b = p a) -> Forall2 R l l' ->
  List.length (filter p' l') = List.length (filter p l).
Proof.
  intros HR. induction 1 as [|a b l l' Hab _ IH]; simpl; [reflexivity|].
  rewrite (HR a b Hab). destruct (p a); simpl; now rewrite IH.
Qed.

Lemma filter_map_length {A B : Type} (f : A -> B) (p : B -> bool) (l : list A) :
  List.length (filter (fun a => p (f a)) l) = List.length (filter p (map f l)).
Proof. now rewrite filter_map_swap, length_map. Qed.

(** With distinct values, the number of customers whose value falls in
    quartile [q] depends on the size of the cohort only. *)
Lemma quartile_group_size {A B : Type} `{JSNumber A} (value : B -> A)
  (cohort : list B) (q : Z) :
  cohort <> [] -> distinctValues (map value cohort) = true -> 1 <= q <= 4 ->
  Z.of_nat (List.length
              (filter (fun c => getQuantile (sort (map value cohort)) (value c)
                                =? q) cohort)) =
  quartileSize q (Z.of_nat (List.length cohort)).
Proof.
  intros Hne Hd Hq.
  assert (Hlen : (0 < List.length cohort)%nat)
    by (destruct cohort; [now elim Hne | simpl; lia]).
  assert (Hsne : sort (map value cohort) <> []).
  { intros Hnil. apply (f_equal (@List.length _)) in Hnil.
    rewrite sort_length, length_map in Hnil. simpl in Hnil. lia. }
  transitivity
    (Z.of_nat (List.length
                 (filter (fun i => quartileOfIndex i
                                     (Z.of_nat (List.length cohort)) =? q)
                    (map (indexOf (sort (map value cohort)))
                       (map value cohort))))).
  - f_equal. rewrite map_map, <- filter_map_length. f_equal.
    apply filter_ext. intros c.
    now rewrite getQuantile_index, sort_length, length_map.
  - rewrite (Permutation_length
               (Permutation_filter _ _ _
                  (indexOf_sort_distinct (map value cohort) Hd))).
    rewrite length_map. now apply count_quartile.
Qed.

Lemma customersOf_nonempty (now : Z) (ts : list Transaction.t) :
  ts <> [] -> customersOf now ts <> [].
Proof.
  intros Hne Hnil. destruct ts as [|t ts]; [now elim Hne|].
  assert (Hin : In (Transaction.customer_id t)
                  (map fst (customerDataOf (t :: ts))))
    by (apply customerDataOf_keys; now left).
  rewrite <- (customersOf_ids now), Hnil in Hin. destruct Hin.
Qed.

Lemma groupSize_quartileOf (customers : list Customer.t)
  (out : list RFMScore.t) (metric : Metric) (k : Z) :
  Forall2 (fun c s =>
             scoreCustomer (recencyValues customers)
               (frequencyValues customers) (monetaryValues customers) c = Ok s)
          customers out ->
  groupSize metric k out =
  Z.of_nat (List.length
              (filter (fun c => quartileOf metric customers c
                                =? quartileFor metric k) customers)).
Proof.
  intros Hall. unfold groupSize. f_equal.
  eapply Forall2_filter_length; [|exact Hall].
  intros c s Hs. simpl in Hs.
  rewrite (scoreCustomer_scoreOf metric customers c s Hs).
  destruct metric; unfold quartileOf, quartileFor; try reflexivity.
  destruct (Z.eqb_spec (5 - getQuantile (recencyValues customers)
                              (Customer.recency c)) k),
    (Z.eqb_spec (getQuantile (recencyValues customers) (Customer.recency c))
       (5 - k)); lia.
Qed.

(** The sizes of the score groups of a cohort with distinct values. *)
Lemma groupSize_distinct (now : Z) (ts : list Transaction.t)
  (out : list RFMScore.t) (metric : Metric) (k : Z) :
  ts <> [] -> calculateRFM now ts = Ok out ->
  metricDistinct metric (customersOf now ts) = true -> 1 <= k <= 4 ->
  groupSize metric k out =
  quartileSize (quartileFor metric k) (Z.of_nat (List.length out)).
Proof.
  intros Hne Hout Hd Hk.
  apply mapM_Ok in Hout.
  assert (Hlen : List.length out = List.length (customersOf now ts))
    by (symmetry; eapply Forall2_length; exact Hout).
  pose proof (customersOf_nonempty now ts Hne) as Hcne.
  rewrite (groupSize_quartileOf _ out metric k Hout), Hlen.
  destruct metric; simpl in Hd; unfold quartileOf, quartileFor,
    recencyValues, frequencyValues, monetaryValues;
    apply quartile_group_size; try assumption; lia.
Qed.

(** With distinct values, two members of a cohort whose values are
    strictly equal are the same member, and no two members share the
    first index of their value in the sorted array. *)
Lemma distinctValues_inj {A B : Type} `{JSNumber A} (value : B -> A)
  (cohort : list B) (a b : B) :
  distinctValues (map value cohort) = true -> In a cohort -> In b cohort ->
  strictEq (value a) (value b) = true -> a = b.
Proof.
  induction cohort as [|x l IH]; [intros _ []|].
  change (map value (x :: l)) with (value x :: map value l).
  rewrite distinctValues_cons. intros (Hx & Hall & Hrest) [->|Ha] [->|Hb] Hab.
  - reflexivity.
  - destruct (Hall (value b) (in_map _ _ _ Hb)) as [H1 _]. congruence.
  - destruct (Hall (value a) (in_map _ _ _ Ha)) as [_ H2]. congruence.
  - now apply IH.
Qed.

Lemma firstIndexOf_distinct {A B : Type} `{JSNumber A} (value : B -> A)
  (cohort : list B) (c1 c2 : B) (i : Z) :
  distinctValues (map value cohort) = true -> In c1 cohort -> In c2 cohort ->
  firstIndexOf (sort (map value cohort)) (value c1) i ->
  firstIndexOf (sort (map value cohort)) (value c2) i -> c1 = c2.
Proof.
  intros Hd Hc1 Hc2 (_ & (x1 & Hx1 & He1) & _) (_ & (x2 & Hx2 & He2) & _).
  assert (x2 = x1) by congruence. subst x2.
  apply nth_error_In in Hx1.
  apply (Permutation_in _ (sort_Permutation _)) in Hx1.
  apply in_map_iff in Hx1 as (c0 & <- & Hc0).
  transitivity c0; [symmetry|]; now apply (distinctValues_inj value cohort).
Qed.

Lemma distinctValues_self {A : Type} `{JSNumber A} (values : list A) (x : A) :
  distinctValues values = true -> In x values -> strictEq x x = true.
Proof.
  induction values as [|y l IH]; [intros _ []|].
  rewrite distinctValues_cons. intros (Hy & _ & Hrest) [<-|Hin];
    [exact Hy | now apply IH].
Qed.

(** The output holds one record per customer of the input, in the order
    of the cohort. *)
Lemma calculateRFM_cohort (now : Z) (ts : list Transaction.t)
  (out : list RFMScore.t) :
  calculateRFM now ts = Ok out ->
  map RFMScore.customer_id out
  = map Customer.customer_id (customersOf now ts) /\
  NoDup (map RFMScore.customer_id out) /\
  (forall id, In id (map RFMScore.customer_id out) <->
              In id (map Transaction.customer_id ts)).
Proof.
  intros Hout. apply mapM_Ok in Hout.
  assert (Hids : map RFMScore.customer_id out
                 = map Customer.customer_id (customersOf now ts)).
  { eapply Forall2_map_eq; [|exact Hout].
    intros c s Hs. now apply scoreCustomer_fields in Hs. }
  split; [exact Hids|]. rewrite Hids, (customersOf_ids now).
  split; [apply customerDataOf_keys_NoDup|].
  intros id. apply customerDataOf_keys.
Qed.

(** C3, as the code has it: take a non-empty cohort whose customers have
    pairwise distinct values of a metric (recency, frequency or monetary
    value), none of them NaN.  The scorer returns one record per customer
    of the cohort.  The quartile of a customer is the quartile of the
    first index of its value in the sorted array of the metric, no two
    customers share that index, and every record has a score from 1 to 4
    for the metric.  The four groups of customers, by quartile, have
    n/4 + 1, n/2 - n/4, 3n/4 - n/2 and n - 1 - 3n/4 members, where n is
    the number of customers and the divisions round down.  These sizes
    add up to n; two of them differ by at most 2, and by at most 1 when n
    is not a multiple of 4. *)
Theorem quartile_groups_balance (now : Z) (ts : list Transaction.t)
  (metric : Metric) (k1 k2 : Z) :
  ts <> [] -> parseable ts ->
  metricDistinct metric (customersOf now ts) = true ->
  1 <= k1 <= 4 -> 1 <= k2 <= 4 ->
  exists out,
    calculateRFM now ts = Ok out /\
    map RFMScore.customer_id out
    = map Customer.customer_id (customersOf now ts) /\
    NoDup (map RFMScore.customer_id out) /\
    (forall id, In id (map RFMScore.customer_id out) <->
                In id (map Transaction.customer_id ts)) /\
    1 <= Z.of_nat (List.length out) /\
    (forall c, In c (customersOf now ts) -> exists s, scored now ts out c s) /\
    (forall c s, scored now ts out c s ->
       exists i,
         firstIndex metric (customersOf now ts) c i /\
         quartileFor metric (scoreOf metric s)
         = quartileOfIndex i (Z.of_nat (List.length out))) /\
    (forall c1 c2 i,
       In c1 (customersOf now ts) -> In c2 (customersOf now ts) ->
       firstIndex metric (customersOf now ts) c1 i ->
       firstIndex metric (customersOf now ts) c2 i -> c1 = c2) /\
    (forall s, In s out -> 1 <= scoreOf metric s <= 4) /\
    groupSize metric (quartileFor metric 1) out
    = Z.of_nat (List.length out) / 4 + 1 /\
    groupSize metric (quartileFor metric 2) out
    = Z.of_nat (List.length out) / 2 - Z.of_nat (List.length out) / 4 /\
    groupSize metric (quartileFor metric 3) out
    = 3 * Z.of_nat (List.length out) / 4 - Z.of_nat (List.length out) / 2 /\
    groupSize metric (quartileFor metric 4) out
    = Z.of_nat (List.length out) - 1 - 3 * Z.of_nat (List.length out) / 4 /\
    groupSize metric 1 out + groupSize metric 2 out
    + groupSize metric 3 out + groupSize metric 4 out
    = Z.of_nat (List.length out) /\
    Z.abs (groupSize metric k1 out - groupSize metric k2 out) <=
    (if Z.of_nat (List.length out) mod 4 =? 0 then 2 else 1).
Proof.
  intros Hne Hp Hd Hk1 Hk2.
  destruct (calculateRFM_returns now ts Hp) as (out & Hout & Hall).
  exists out. split; [exact Hout|].
  destruct (calculateRFM_cohort now ts out Hout) as (Hids & Hnodup & Hin).
  split; [exact Hids|]. split; [exact Hnodup|]. split; [exact Hin|].
  assert (Hlen : 0 < Z.of_nat (List.length out)).
  { rewrite <- (Forall2_length Hall).
    pose proof (customersOf_nonempty now ts Hne).
    destruct (customersOf now ts); [congruence | simpl; lia]. }
  split; [lia|].
  assert (Hrange : forall c s,
             scoreCustomer (recencyValues (customersOf now ts))
               (frequencyValues (customersOf now ts))
               (monetaryValues (customersOf now ts)) c = Ok s ->
             1 <= scoreOf metric s <= 4).
  { intros c s Hc. rewrite (scoreCustomer_scoreOf metric _ c s Hc).
    destruct metric;
      [ pose proof (getQuantile_range (recencyValues (customersOf now ts))
                      (Customer.recency c))
      | pose proof (getQuantile_range (frequencyValues (customersOf now ts))
                      (Customer.frequency c))
      | pose proof (getQuantile_range (monetaryValues (customersOf now ts))
                      (Customer.monetary c)) ]; lia. }
  split.
  { intros c Hc. exact (Forall2_In_l _ _ _ c Hall Hc). }
  split.
  { intros c s Hs. unfold scored in Hs.
    assert (Hc : In c (customersOf now ts)) by (eapply in_combine_l; exact Hs).
    apply (Forall2_combine_In _ _ _ _ _ Hall) in Hs.
    rewrite (scoreCustomer_scoreOf metric _ c s Hs).
    rewrite <- (Forall2_length Hall).
    destruct metric; simpl in Hd;
      unfold quartileFor, firstIndex, recencyValues, frequencyValues,
        monetaryValues.
    - assert (Hself : strictEq (Customer.recency c) (Customer.recency c)
                      = true)
        by (apply (distinctValues_self _ _ Hd); now apply in_map).
      destruct (getQuantile_tie strictEq_congr_days Customer.recency
                  (customersOf now ts) c c Hc Hself) as (i & H1 & _ & Hq).
      exists i. split; [exact H1 | lia].
    - assert (Hself : strictEq (Customer.frequency c) (Customer.frequency c)
                      = true)
        by (apply (distinctValues_self _ _ Hd); now apply in_map).
      destruct (getQuantile_tie strictEq_congr_Z Customer.frequency
                  (customersOf now ts) c c Hc Hself) as (i & H1 & _ & Hq).
      exists i. split; [exact H1 | exact Hq].
    - assert (Hself : strictEq (Customer.monetary c) (Customer.monetary c)
                      = true)
        by (apply (distinctValues_self _ _ Hd); now apply in_map).
      destruct (getQuantile_tie strictEq_congr_float Customer.monetary
                  (customersOf now ts) c c Hc Hself) as (i & H1 & _ & Hq).
      exists i. split; [exact H1 | exact Hq]. }
  split.
  { intros c1 c2 i Hc1 Hc2.
    destruct metric; simpl in Hd;
      unfold firstIndex, recencyValues, frequencyValues, monetaryValues;
      now apply firstIndexOf_distinct. }
  split.
  { intros s Hs.
    destruct (Forall2_In_r _ _ _ s Hall Hs) as [c Hc].
    apply (Forall2_combine_In _ _ _ _ _ Hall) in Hc.
    exact (Hrange c s Hc). }
  rewrite !(groupSize_distinct now ts out metric)
    by (assumption || (destruct metric; unfold quartileFor; lia)).
  assert (Hinv : forall q, quartileFor metric (quartileFor metric q) = q)
    by (intros q; destruct metric; unfold quartileFor; lia).
  rewrite !Hinv.
  repeat split; try reflexivity.
  - pose proof (quartileSize_sum (Z.of_nat (List.length out))).
    destruct metric; unfold quartileFor; simpl Z.sub; lia.
  - apply quartileSize_balance; [exact Hlen | |];
      destruct metric; unfold quartileFor; lia.
Qed.

(** On four customers with distinct total spend, where the first and the
    fourth group differ by 2. *)
Lemma quartile_groups_balance_witness :
  fourCustomers <> [] /\ parseable fourCustomers /\
  metricDistinct Monetary (customersOf exampleNow fourCustomers) = true /\
  1 <= 1 <= 4 /\ 1 <= 4 <= 4 /\
  exists out,
    calculateRFM exampleNow fourCustomers = Ok out /\
    map RFMScore.customer_id out
    = map Customer.customer_id (customersOf exampleNow fourCustomers) /\
    NoDup (map RFMScore.customer_id out) /\
    (forall id, In id (map RFMScore.customer_id out) <->
                In id (map Transaction.customer_id fourCustomers)) /\
    1 <= Z.of_nat (List.length out) /\
    (forall c, In c (customersOf exampleNow fourCustomers) -> exists s, scored exampleNow fourCustomers out c s) /\
    (forall c s, scored exampleNow fourCustomers out c s ->
       exists i,
         firstIndex Monetary (customersOf exampleNow fourCustomers) c i /\
         quartileFor Monetary (scoreOf Monetary s)
         = quartileOfIndex i (Z.of_nat (List.length out))) /\
    (forall c1 c2 i,
       In c1 (customersOf exampleNow fourCustomers) -> In c2 (customersOf exampleNow fourCustomers) ->
       firstIndex Monetary (customersOf exampleNow fourCustomers) c1 i ->
       firstIndex Monetary (customersOf exampleNow fourCustomers) c2 i -> c1 = c2) /\
    (forall s, In s out -> 1 <= scoreOf Monetary s <= 4) /\
    groupSize Monetary (quartileFor Monetary 1) out
    = Z.of_nat (List.length out) / 4 + 1 /\
    groupSize Monetary (quartileFor Monetary 2) out
    = Z.of_nat (List.length out) / 2 - Z.of_nat (List.length out) / 4 /\
    groupSize Monetary (quartileFor Monetary 3) out
    = 3 * Z.of_nat (List.length out) / 4 - Z.of_nat (List.length out) / 2 /\
    groupSize Monetary (quartileFor Monetary 4) out
    = Z.of_nat (List.length out) - 1 - 3 * Z.of_nat (List.length out) / 4 /\
    groupSize Monetary 1 out + groupSize Monetary 2 out
    + groupSize Monetary 3 out + groupSize Monetary 4 out
    = Z.of_nat (List.length out) /\
    Z.abs (groupSize Monetary 1 out - groupSize Monetary 4 out) <=
    (if Z.of_nat (List.length out) mod 4 =? 0 then 2 else 1).
Proof.
  assert (Hne : fourCustomers <> []) by discriminate.
  assert (Hp : parseable fourCustomers) by (repeat constructor; discriminate).
  assert (Hd : metricDistinct Monetary (customersOf exampleNow fourCustomers)
               = true) by reflexivity.
  assert (H1 : 1 <= 1 <= 4) by lia.
  assert (H4 : 1 <= 4 <= 4) by lia.
  split; [exact Hne|]. split; [exact Hp|]. split; [exact Hd|].
  split; [exact H1|]. split; [exact H4|].
  exact (quartile_groups_balance exampleNow fourCustomers Monetary 1 4
           Hne Hp Hd H1 H4).
Defined.

(** C3 fails as stated: four customers with pairwise distinct recency,
    frequency and total spend get, on each metric, two customers in the
    first quartile and none in the fourth, a difference of 2. *)
Lemma four_customers_unbalanced :
  fourCustomers <> [] /\ parseable fourCustomers /\
  (forall metric,
      metricDistinct metric (customersOf exampleNow fourCustomers) = true) /\
  exists out,
    calculateRFM exampleNow fourCustomers = Ok out /\
    (groupSize Recency 4 out = 2 /\ groupSize Recency 1 out = 0) /\
    (groupSize Frequency 1 out = 2 /\ groupSize Frequency 4 out = 0) /\
    (groupSize Monetary 1 out = 2 /\ groupSize Monetary 4 out = 0) /\
    ~ (forall metric k1 k2,
          1 <= k1 <= 4 -> 1 <= k2 <= 4 ->
          Z.abs (groupSize metric k1 out - groupSize metric k2 out) <= 1).
Proof.
  split; [discriminate|].
  split; [repeat constructor; discriminate|].
  split; [intros []; reflexivity|].
  eexists. split; [vm_compute; reflexivity|].
  repeat split; try reflexivity.
  intros Hall. specialize (Hall Frequency 1 4 ltac:(lia) ltac:(lia)).
  vm_compute in Hall. now apply Hall.
Qed.

(** ** Order of arrival *)

Lemma transactionsOf_Permutation (id : string) (ts ts' : list Transaction.t) :
  Permutation ts ts' ->
  Permutation (transactionsOf id ts) (transactionsOf id ts').
Proof. apply Permutation_filter. Qed.

(** C7, as the code has it: for every list of transactions with parseable
    dates and every permutation of it, a customer of the one is a customer
    of the other, with the same number of transactions and the same latest
    date, which is the true latest of the customer's dates in whatever
    order they arrive; the total spend is, in each, the sum of the
    customer's amounts added from the left in the order of arrival, each
    addition rounded to a binary64 number. *)
Theorem aggregation_of_permutation (ts ts' : list Transaction.t)
  (id : string) (d : CustomerData.t) :
  Permutation ts ts' -> parseable ts ->
  Map_get (customerDataOf ts) id = Some d ->
  exists d' m,
    Map_get (customerDataOf ts') id = Some d' /\
    CustomerData.transactions d' = CustomerData.transactions d /\
    CustomerData.lastDate d' = CustomerData.lastDate d /\
    CustomerData.lastDate d = Some m /\
    latestOf (transactionsOf id ts) m /\
    CustomerData.totalSpend d = sumAmounts (transactionsOf id ts) /\
    CustomerData.totalSpend d' = sumAmounts (transactionsOf id ts').
Proof.
  intros Hperm Hp Hget. rewrite Map_get_customerDataOf in Hget.
  pose proof (transactionsOf_Permutation id ts ts' Hperm) as Hown.
  assert (Hp' : parseable ts').
  { unfold parseable. eapply Permutation_Forall; eassumption. }
  destruct (summary (transactionsOf id ts')) as [d'|] eqn:Hget'.
  - destruct (summary_lastDate _ d (parseable_transactionsOf id ts Hp) Hget)
      as (m & Hm & Hlatest).
    destruct (summary_lastDate _ d' (parseable_transactionsOf id ts' Hp') Hget')
      as (m' & Hm' & Hlatest').
    exists d', m. rewrite Map_get_customerDataOf.
    split; [exact Hget'|]. split.
    { rewrite (summary_transactions _ d Hget), (summary_transactions _ d' Hget').
      f_equal. symmetry. now apply Permutation_length. }
    split.
    { rewrite Hm, Hm'. f_equal.
      apply (latestOf_unique (transactionsOf id ts')); [exact Hlatest'|].
      eapply latestOf_Permutation; eassumption. }
    split; [exact Hm|]. split; [exact Hlatest|].
    split; now apply summary_totalSpend.
  - exfalso. destruct (transactionsOf id ts') as [|t own'];
      [|discriminate Hget'].
    apply Permutation_sym, Permutation_nil in Hown.
    rewrite Hown in Hget. discriminate Hget.
Qed.

(** On a list whose later purchase of A arrives first, and its reverse. *)
Lemma aggregation_of_permutation_witness :
  Permutation lateFirst (rev lateFirst) /\ parseable lateFirst /\
  Map_get (customerDataOf lateFirst) "A" = Some lateFirstA /\
  exists d' m,
    Map_get (customerDataOf (rev lateFirst)) "A" = Some d' /\
    CustomerData.transactions d' = CustomerData.transactions lateFirstA /\
    CustomerData.lastDate d' = CustomerData.lastDate lateFirstA /\
    CustomerData.lastDate lateFirstA = Some m /\
    latestOf (transactionsOf "A" lateFirst) m /\
    CustomerData.totalSpend lateFirstA
    = sumAmounts (transactionsOf "A" lateFirst) /\
    CustomerData.totalSpend d'
    = sumAmounts (transactionsOf "A" (rev lateFirst)).
Proof.
  assert (Hperm : Permutation lateFirst (rev lateFirst))
    by apply Permutation_rev.
  assert (Hp : parseable lateFirst) by (repeat constructor; discriminate).
  assert (Hget : Map_get (customerDataOf lateFirst) "A" = Some lateFirstA)
    by reflexivity.
  split; [exact Hperm|]. split; [exact Hp|]. split; [exact Hget|].
  exact (aggregation_of_permutation lateFirst (rev lateFirst) "A" lateFirstA
           Hperm Hp Hget).
Defined.

(** C7 fails as stated: the amounts 0.1, 0.2 and 0.3 of one customer add
    up to 0.6000000000000001 in this order and to 0.6 in the reverse
    order. *)
Lemma total_spend_depends_on_order :
  Permutation ascendingAmounts descendingAmounts /\
  parseable ascendingAmounts /\
  option_map CustomerData.totalSpend
    (Map_get (customerDataOf ascendingAmounts) "A")
  = Some 0.6000000000000001%float /\
  option_map CustomerData.totalSpend
    (Map_get (customerDataOf descendingAmounts) "A")
  = Some 0.6%float /\
  option_map CustomerData.totalSpend
    (Map_get (customerDataOf ascendingAmounts) "A")
  <> option_map CustomerData.totalSpend
       (Map_get (customerDataOf descendingAmounts) "A").
Proof.
  split; [apply Permutation_rev|].
  split; [repeat constructor; discriminate|].
  split; [reflexivity|]. split; [reflexivity|].
  vm_compute. discriminate.
Qed.

(** * Further properties of the scorer *)

(** ** Which lists make the scorer return *)

Lemma fold_accumulate_lastDate_None (rest : list Transaction.t)
  (d : CustomerData.t) :
  CustomerData.lastDate (fold_left accumulate rest d) = None <->
  CustomerData.lastDate d = None.
Proof.
  revert d. induction rest as [|t rest IH]; intros d; [reflexivity|].
  simpl fold_left. rewrite IH. unfold accumulate. simpl.
  destruct (Transaction.transaction_date t) as [x|],
    (CustomerData.lastDate d) as [y|]; simpl;
    try destruct (y <? x); split; congruence.
Qed.

Lemma summary_lastDate_None (own : list Transaction.t) (d : CustomerData.t) :
  summary own = Some d ->
  (CustomerData.lastDate d = None <->
   exists first rest, own = first :: rest /\
                      Transaction.transaction_date first = None).
Proof.
  destruct own as [|t rest]; [discriminate|]. simpl. intros [= <-].
  rewrite fold_accumulate_lastDate_None. simpl. split.
  - intros Hnone. now exists t, rest.
  - intros (first & rest' & [= <- <-] & Hnone). exact Hnone.
Qed.

Lemma firstDatesParseable_customers (now : Z) (ts : list Transaction.t) :
  firstDatesParseable ts = true <->
  forall c, In c (customersOf now ts) -> Customer.lastDate c <> None.
Proof.
  unfold firstDatesParseable. rewrite forallb_forall. split.
  - intros Hall c Hc Hnone.
    destruct (customersOf_In now ts c Hc) as (d & Hsum & Hd).
    assert (Hlast : CustomerData.lastDate d = None) by (rewrite Hd in Hnone; exact Hnone).
    apply (summary_lastDate_None _ d Hsum) in Hlast
      as (first & rest & Hown & Hdate).
    assert (Hin : In first ts).
    { assert (Hf : In first (transactionsOf (Customer.customer_id c) ts))
        by (rewrite Hown; now left).
      unfold transactionsOf in Hf. now apply filter_In in Hf. }
    assert (Hid : Transaction.customer_id first = Customer.customer_id c).
    { assert (Hf : In first (transactionsOf (Customer.customer_id c) ts))
        by (rewrite Hown; now left).
      unfold transactionsOf in Hf. apply filter_In in Hf as [_ Heq].
      now apply String.eqb_eq. }
    specialize (Hall first Hin). rewrite Hid, Hown, Hdate in Hall.
    discriminate.
  - intros Hall t Ht.
    destruct (transactionsOf (Transaction.customer_id t) ts)
      as [|first rest] eqn:Hown; [reflexivity|].
    destruct (Transaction.transaction_date first) eqn:Hdate; [reflexivity|].
    exfalso.
    assert (Hkey : In (Transaction.customer_id t) (map fst (customerDataOf ts))).
    { apply customerDataOf_keys. now apply in_map. }
    apply in_map_iff in Hkey as ([id d] & Hid & Hentry). simpl in Hid. subst id.
    apply (Hall (toCustomer now (Transaction.customer_id t, d))).
    + unfold customersOf. now apply in_map.
    + simpl. apply customerDataOf_In in Hentry.
      apply (summary_lastDate_None _ d Hentry). now exists first, rest.
Qed.

Lemma mapM_Ok_inv {A B : Type} (f : A -> result B) (l : list A) (out : list B)
  (a : A) :
  mapM f l = Ok out -> In a l -> exists b, f a = Ok b.
Proof.
  intros Hout Hin. apply mapM_Ok in Hout.
  destruct (Forall2_In_l _ _ _ a Hout Hin) as [b Hb].
  exists b. exact (Forall2_combine_In _ _ _ _ _ Hout Hb).
Qed.

Lemma calculateRFM_Forall2 (now : Z) (ts : list Transaction.t)
  (out : list RFMScore.t) :
  calculateRFM now ts = Ok out ->
  Forall2 (fun c s =>
             scoreCustomer (recencyValues (customersOf now ts))
               (frequencyValues (customersOf now ts))
               (monetaryValues (customersOf now ts)) c = Ok s)
          (customersOf now ts) out.
Proof. intros Hout. now apply mapM_Ok. Qed.

Lemma calculateRFM_returns_first (now : Z) (ts : list Transaction.t) :
  firstDatesParseable ts = true ->
  exists out,
    calculateRFM now ts = Ok out /\
    Forall2 (fun c s =>
               scoreCustomer (recencyValues (customersOf now ts))
                 (frequencyValues (customersOf now ts))
                 (monetaryValues (customersOf now ts)) c = Ok s)
            (customersOf now ts) out.
Proof.
  intros Hfirst.
  assert (Hok : exists out, calculateRFM now ts = Ok out).
  { unfold calculateRFM. apply mapM_total.
    rewrite Forall_forall. intros c Hc.
    pose proof (proj1 (firstDatesParseable_customers now ts) Hfirst c Hc) as Hd.
    destruct (Customer.lastDate c) as [m|] eqn:Hm; [|now elim Hd].
    now apply scoreCustomer_returns with (m := m). }
  destruct Hok as [out Hout]. exists out.
  split; [exact Hout | now apply calculateRFM_Forall2].
Qed.

Lemma mapM_scoreCustomer_Throw (rv : list (option Z)) (fv : list Z)
  (mv : list float) (l : list Customer.t) (e : Exception) :
  mapM (scoreCustomer rv fv mv) l = Throw e ->
  e = RangeError "Invalid time value".
Proof.
  induction l as [|c l IH]; simpl; [discriminate|].
  unfold scoreCustomer at 1.
  destruct (Customer.lastDate c) as [m|].
  - destruct (toISODate_Some m) as [iso ->]. simpl.
    destruct (mapM (scoreCustomer rv fv mv) l); simpl;
      [discriminate | intros [= ->]; now apply IH].
  - simpl. now intros [= ->].
Qed.

(** X1: the scorer returns exactly when the first transaction of every
    customer has a parseable date, and otherwise throws the RangeError of
    [toISOString]; a date that does not parse on a later transaction of a
    customer does not make it throw. *)
Theorem calculateRFM_returns_iff (now : Z) (ts : list Transaction.t) :
  (firstDatesParseable ts = true <-> exists out, calculateRFM now ts = Ok out) /\
  (firstDatesParseable ts = false <->
   calculateRFM now ts = Throw (RangeError "Invalid time value")).
Proof.
  assert (Hok : firstDatesParseable ts = true ->
                exists out, calculateRFM now ts = Ok out).
  { intros Hfirst.
    destruct (calculateRFM_returns_first now ts Hfirst) as (out & Hout & _).
    now exists out. }
  assert (Hko : firstDatesParseable ts = false ->
                calculateRFM now ts = Throw (RangeError "Invalid time value")).
  { intros Hfirst.
    destruct (calculateRFM now ts) as [out|e] eqn:Hres.
    - exfalso.
      assert (Htrue : firstDatesParseable ts = true); [|congruence].
      apply (firstDatesParseable_customers now ts). intros c Hc Hnone.
      destruct (mapM_Ok_inv _ _ _ c Hres Hc) as [s Hs].
      unfold scoreCustomer in Hs. rewrite Hnone in Hs. discriminate Hs.
    - f_equal. unfold calculateRFM in Hres.
      now apply mapM_scoreCustomer_Throw in Hres. }
  split; split.
  - exact Hok.
  - intros [out Hout]. destruct (firstDatesParseable ts); [reflexivity|].
    rewrite (Hko eq_refl) in Hout. discriminate Hout.
  - exact Hko.
  - intros Hthrow. destruct (firstDatesParseable ts); [|reflexivity].
    destruct (Hok eq_refl) as [out Hout]. congruence.
Qed.

(** ** The order of the output *)

Lemma aggregate_keys (m : CustomerMap) (t : Transaction.t) :
  map fst (aggregate m t) =
  if in_dec string_dec (Transaction.customer_id t) (map fst m)
  then map fst m
  else map fst m ++ [Transaction.customer_id t].
Proof.
  unfold aggregate.
  destruct (in_dec string_dec (Transaction.customer_id t) (map fst m))
    as [Hin|Hnotin].
  - apply Map_get_In_keys in Hin.
    destruct (Map_get m (Transaction.customer_id t)); [|now elim Hin].
    apply Map_assign_keys.
  - destruct (Map_get m (Transaction.customer_id t)) eqn:Hget.
    + elim Hnotin. apply Map_get_In_keys. congruence.
    + unfold Map_set. now rewrite map_app.
Qed.

Lemma firstOccurrences_snoc (ids : list string) (id : string) :
  firstOccurrences (ids ++ [id]) =
  if in_dec string_dec id (firstOccurrences ids)
  then firstOccurrences ids
  else firstOccurrences ids ++ [id].
Proof.
  unfold firstOccurrences. rewrite rev_app_distr. simpl.
  destruct (in_dec string_dec id (rev ids)) as [Hin|Hnotin];
    destruct (in_dec string_dec id (rev (nodup string_dec (rev ids))))
      as [Hin'|Hnotin']; try reflexivity.
  - elim Hnotin'. apply -> in_rev. now apply nodup_In.
  - elim Hnotin. apply <- in_rev in Hin'. now apply nodup_In in Hin'.
Qed.

Lemma customerDataOf_order (ts : list Transaction.t) :
  map fst (customerDataOf ts) =
  firstOccurrences (map Transaction.customer_id ts).
Proof.
  induction ts as [|t ts IH] using rev_ind; [reflexivity|].
  rewrite customerDataOf_snoc, aggregate_keys, map_app.
  change (map Transaction.customer_id [t]) with [Transaction.customer_id t].
  rewrite firstOccurrences_snoc, IH.
  destruct (in_dec string_dec (Transaction.customer_id t)
              (firstOccurrences (map Transaction.customer_id ts)));
    reflexivity.
Qed.

Lemma calculateRFM_ids (now : Z) (ts : list Transaction.t)
  (out : list RFMScore.t) :
  calculateRFM now ts = Ok out ->
  map RFMScore.customer_id out = map fst (customerDataOf ts).
Proof.
  intros Hout. apply calculateRFM_Forall2 in Hout.
  rewrite <- (customersOf_ids now).
  eapply Forall2_map_eq; [|exact Hout].
  intros c s Hs. now apply scoreCustomer_fields in Hs.
Qed.

(** X2: the records of the output come in the order in which the
    customers first occur in the input. *)
Theorem calculateRFM_order (now : Z) (ts : list Transaction.t) :
  firstDatesParseable ts = true ->
  exists out,
    calculateRFM now ts = Ok out /\
    map RFMScore.customer_id out =
    firstOccurrences (map Transaction.customer_id ts).
Proof.
  intros Hfirst.
  destruct (calculateRFM_returns_first now ts Hfirst) as (out & Hout & _).
  exists out. split; [exact Hout|].
  now rewrite (calculateRFM_ids now ts out Hout), customerDataOf_order.
Qed.

(** On a list in which A occurs before B and again after it. *)
Lemma calculateRFM_order_witness :
  firstDatesParseable lateFirst = true /\
  exists out,
    calculateRFM exampleNow lateFirst = Ok out /\
    map RFMScore.customer_id out =
    firstOccurrences (map Transaction.customer_id lateFirst).
Proof.
  assert (Hfirst : firstDatesParseable lateFirst = true) by reflexivity.
  split; [exact Hfirst|].
  exact (calculateRFM_order exampleNow lateFirst Hfirst).
Defined.

(** ** Every transaction is counted once *)

Lemma heldTransactions_app (m m' : CustomerMap) :
  heldTransactions (m ++ m') = heldTransactions m + heldTransactions m'.
Proof.
  induction m as [|e m IH]; simpl; [reflexivity|].
  unfold heldTransactions in *. simpl. rewrite IH. lia.
Qed.

Lemma heldTransactions_assign (m : CustomerMap) (key : string)
  (old v : CustomerData.t) :
  Map_get m key = Some old ->
  heldTransactions (Map_assign m key v) =
  heldTransactions m - CustomerData.transactions old
  + CustomerData.transactions v.
Proof.
  induction m as [|[k d] m IH]; simpl; [discriminate|].
  destruct (String.eqb k key).
  - intros [= ->]. unfold heldTransactions. simpl. lia.
  - intros Hget. unfold heldTransactions in *. simpl. rewrite (IH Hget). lia.
Qed.

Lemma heldTransactions_aggregate (m : CustomerMap) (t : Transaction.t) :
  heldTransactions (aggregate m t) = heldTransactions m + 1.
Proof.
  unfold aggregate.
  destruct (Map_get m (Transaction.customer_id t)) as [old|] eqn:Hget.
  - rewrite (heldTransactions_assign _ _ old _ Hget). simpl. lia.
  - unfold Map_set. rewrite heldTransactions_app. reflexivity.
Qed.

Lemma heldTransactions_customerDataOf (ts : list Transaction.t) :
  heldTransactions (customerDataOf ts) = Z.of_nat (List.length ts).
Proof.
  induction ts as [|t ts IH] using rev_ind; [reflexivity|].
  rewrite customerDataOf_snoc, heldTransactions_aggregate, IH, length_app.
  simpl List.length. lia.
Qed.

Lemma countedTransactions_held (now : Z) (rv : list (option Z))
  (fv : list Z) (mv : list float) (m : CustomerMap) (out : list RFMScore.t) :
  Forall2 (fun c s => scoreCustomer rv fv mv c = Ok s)
    (map (toCustomer now) m) out ->
  countedTransactions out = heldTransactions m.
Proof.
  revert out. induction m as [|[id d] m IH]; intros out Hall;
    inversion Hall as [|c s ? out' Hs Hrest]; subst; [reflexivity|].
  apply scoreCustomer_fields in Hs as (_ & _ & _ & _ & Htotal & _).
  change (countedTransactions (s :: out'))
    with (RFMScore.total_transactions s + countedTransactions out').
  change (heldTransactions ((id, d) :: m))
    with (CustomerData.transactions d + heldTransactions m).
  rewrite Htotal, (IH out' Hrest). reflexivity.
Qed.

(** X3: the numbers of transactions of the output records add up to the
    number of transactions of the input: every transaction is counted for
    one customer, once. *)
Theorem calculateRFM_counts_every_transaction (now : Z)
  (ts : list Transaction.t) :
  firstDatesParseable ts = true ->
  exists out,
    calculateRFM now ts = Ok out /\
    countedTransactions out = Z.of_nat (List.length ts) /\
    (List.length out <= List.length ts)%nat.
Proof.
  intros Hfirst.
  destruct (calculateRFM_returns_first now ts Hfirst) as (out & Hout & Hall).
  exists out. split; [exact Hout|].
  assert (Hsum : countedTransactions out = heldTransactions (customerDataOf ts))
    by (eapply countedTransactions_held; exact Hall).
  split.
  - now rewrite Hsum, heldTransactions_customerDataOf.
  - assert (Hpos : forall s, In s out -> 1 <= RFMScore.total_transactions s).
    { intros s Hs. destruct (Forall2_In_r _ _ _ s Hall Hs) as [c Hc].
      assert (Hcin : In c (customersOf now ts))
        by (eapply in_combine_l; exact Hc).
      apply (Forall2_combine_In _ _ _ _ _ Hall) in Hc.
      apply scoreCustomer_fields in Hc as (_ & _ & _ & _ & -> & _).
      destruct (customersOf_In now ts c Hcin) as (d & Hd & Hc').
      rewrite Hc'. simpl. rewrite (summary_transactions _ d Hd).
      destruct (transactionsOf (Customer.customer_id c) ts);
        [discriminate | simpl List.length; lia]. }
    assert (Hlen : Z.of_nat (List.length out) <= countedTransactions out).
    { clear - Hpos. induction out as [|s out IH]; [simpl; lia|].
      unfold countedTransactions in *. simpl fold_right.
      change (List.length (s :: out)) with (S (List.length out)).
      rewrite Nat2Z.inj_succ.
      pose proof (Hpos s (or_introl eq_refl)).
      assert (forall s', In s' out -> 1 <= RFMScore.total_transactions s')
        by (intros; apply Hpos; now right).
      specialize (IH H0). lia. }
    rewrite Hsum, heldTransactions_customerDataOf in Hlen. lia.
Qed.

(** On the example of the specification: three transactions, two customers. *)
Lemma calculateRFM_counts_every_transaction_witness :
  firstDatesParseable exampleTransactions = true /\
  exists out,
    calculateRFM exampleNow exampleTransactions = Ok out /\
    countedTransactions out = Z.of_nat (List.length exampleTransactions) /\
    (List.length out <= List.length exampleTransactions)%nat.
Proof.
  assert (Hfirst : firstDatesParseable exampleTransactions = true)
    by reflexivity.
  split; [exact Hfirst|].
  exact (calculateRFM_counts_every_transaction exampleNow exampleTransactions
           Hfirst).
Defined.

(** ** The last transaction date *)

Lemma headDated_snoc (own : list Transaction.t) (t : Transaction.t) :
  own <> [] -> headDated (own ++ [t]) -> headDated own.
Proof. destruct own; [intros H; now elim H | trivial]. Qed.

(** When the first date of a customer parses, the reduction keeps the
    latest of the dates that parse; the others are passed over. *)
Lemma summary_lastDate_headDated (own : list Transaction.t)
  (d : CustomerData.t) :
  headDated own -> summary own = Some d ->
  exists m, CustomerData.lastDate d = Some m /\ latestOf own m.
Proof.
  revert d. induction own as [|t own IH] using rev_ind; [intros d []|].
  intros d Hhead. rewrite summary_snoc. intros [= <-].
  destruct (summary own) as [d0|] eqn:Hsum.
  - assert (Hne : own <> []) by (destruct own; [discriminate Hsum | discriminate]).
    destruct (IH d0 (headDated_snoc own t Hne Hhead) eq_refl)
      as (m & Hm & Hin & Hmax).
    unfold accumulate; simpl. rewrite Hm.
    destruct (Transaction.transaction_date t) as [x|] eqn:Hx; simpl.
    + destruct (Z.ltb_spec m x) as [Hlt|Hge].
      * exists x. split; [reflexivity|]. split.
        -- rewrite map_app, in_app_iff. right. simpl. now left.
        -- intros u y Hu Hy. apply in_app_iff in Hu as [Hu|[<-|[]]].
           ++ specialize (Hmax u y Hu Hy). lia.
           ++ rewrite Hx in Hy. injection Hy as <-. lia.
      * exists m. split; [reflexivity|]. split.
        -- rewrite map_app, in_app_iff. now left.
        -- intros u y Hu Hy. apply in_app_iff in Hu as [Hu|[<-|[]]].
           ++ now apply (Hmax u y).
           ++ rewrite Hx in Hy. injection Hy as <-. lia.
    + exists m. split; [reflexivity|]. split.
      * rewrite map_app, in_app_iff. now left.
      * intros u y Hu Hy. apply in_app_iff in Hu as [Hu|[<-|[]]].
        -- now apply (Hmax u y).
        -- rewrite Hx in Hy. discriminate Hy.
  - destruct own as [|u own]; [|discriminate]. simpl in *.
    destruct (Transaction.transaction_date t) as [x|] eqn:Hx; [|now elim Hhead].
    exists x. split; [reflexivity|]. split.
    + simpl. rewrite Hx. now left.
    + intros u y [<-|[]] Hy. rewrite Hx in Hy. injection Hy as <-. lia.
Qed.

Lemma firstDatesParseable_headDated (ts : list Transaction.t) (id : string) :
  firstDatesParseable ts = true ->
  In id (map Transaction.customer_id ts) ->
  headDated (transactionsOf id ts).
Proof.
  unfold firstDatesParseable. rewrite forallb_forall. intros Hall Hin.
  apply in_map_iff in Hin as (t & <- & Ht). specialize (Hall t Ht).
  destruct (transactionsOf (Transaction.customer_id t) ts) as [|first rest] eqn:Hown.
  - assert (Hf : In t (transactionsOf (Transaction.customer_id t) ts)).
    { unfold transactionsOf. apply filter_In. split; [exact Ht|].
      apply String.eqb_refl. }
    rewrite Hown in Hf. destruct Hf.
  - simpl. destruct (Transaction.transaction_date first); [discriminate|].
    discriminate Hall.
Qed.

(** X4: the last transaction date of every output record is the calendar
    day (UTC, as YYYY-MM-DD) of the latest of the customer's dates that
    parse, in whatever order the transactions arrive. *)
Theorem calculateRFM_last_transaction_date (now : Z) (ts : list Transaction.t) :
  firstDatesParseable ts = true ->
  exists out,
    calculateRFM now ts = Ok out /\
    forall s, In s out ->
      exists m,
        latestOf (transactionsOf (RFMScore.customer_id s) ts) m /\
        toISODate (Some m) = Ok (RFMScore.last_transaction_date s).
Proof.
  intros Hfirst.
  destruct (calculateRFM_returns_first now ts Hfirst) as (out & Hout & Hall).
  exists out. split; [exact Hout|]. intros s Hs.
  destruct (Forall2_In_r _ _ _ s Hall Hs) as [c Hc].
  assert (Hcin : In c (customersOf now ts)) by (eapply in_combine_l; exact Hc).
  apply (Forall2_combine_In _ _ _ _ _ Hall) in Hc.
  apply scoreCustomer_fields in Hc as (-> & _ & _ & _ & _ & _ & _ & Hiso & _).
  destruct (customersOf_In now ts c Hcin) as (d & Hsum & Hd).
  assert (Hkey : In (Customer.customer_id c) (map Transaction.customer_id ts)).
  { apply customerDataOf_keys. rewrite <- (customersOf_ids now).
    now apply in_map. }
  destruct (summary_lastDate_headDated _ d
              (firstDatesParseable_headDated ts _ Hfirst Hkey) Hsum)
    as (m & Hm & Hlatest).
  exists m. split; [exact Hlatest|].
  rewrite <- Hiso, Hd. simpl. now rewrite Hm.
Qed.

(** On a list whose later purchase of A arrives first. *)
Lemma calculateRFM_last_transaction_date_witness :
  firstDatesParseable lateFirst = true /\
  exists out,
    calculateRFM exampleNow lateFirst = Ok out /\
    forall s, In s out ->
      exists m,
        latestOf (transactionsOf (RFMScore.customer_id s) lateFirst) m /\
        toISODate (Some m) = Ok (RFMScore.last_transaction_date s).
Proof.
  assert (Hfirst : firstDatesParseable lateFirst = true) by reflexivity.
  split; [exact Hfirst|].
  exact (calculateRFM_last_transaction_date exampleNow lateFirst Hfirst).
Defined.

(** ** Quartiles of small and of ordered cohorts *)

(** In an array of at most four values no value is in the fourth
    quartile: the last index, n - 1, is at most three quarters of n. *)
Lemma getQuantile_small {A : Type} `{JSNumber A} (values : list A) (value : A) :
  values <> [] -> (List.length values <= 4)%nat ->
  getQuantile values value <= 3.
Proof.
  intros Hne Hlen. rewrite getQuantile_index by exact Hne.
  unfold indexOf, quartileOfIndex.
  pose proof (indexOfFrom_bounds 0 values value) as Hb.
  destruct (Z.leb_spec (4 * indexOfFrom 0 values value)
              (Z.of_nat (List.length values))); [lia|].
  destruct (Z.leb_spec (2 * indexOfFrom 0 values value)
              (Z.of_nat (List.length values))); [lia|].
  destruct (Z.leb_spec (4 * indexOfFrom 0 values value)
              (3 * Z.of_nat (List.length values))); lia.
Qed.

Lemma sort_nonempty {A : Type} `{JSNumber A} (values : list A) :
  values <> [] -> sort values <> [].
Proof.
  intros Hne Hnil. apply (f_equal (@List.length _)) in Hnil.
  rewrite sort_length in Hnil. destruct values; [now elim Hne | discriminate].
Qed.

(** The least of the integers of an array is in the first quartile. *)
Lemma getQuantile_least (zs : list Z) (d : Z) :
  In d zs -> (forall z, In z zs -> d <= z) -> getQuantile (sort zs) d = 1.
Proof.
  intros Hin Hleast.
  assert (Hne : zs <> []) by (destruct zs; [destruct Hin | discriminate]).
  rewrite getQuantile_index by now apply sort_nonempty.
  assert (Hidx : indexOf (sort zs) d = 0).
  { pose proof (sort_sorted zs) as Hs.
    pose proof (sort_Permutation zs) as Hp.
    assert (Hd : In d (sort zs))
      by (eapply Permutation_in; [symmetry; exact Hp | exact Hin]).
    unfold indexOf. destruct (sort zs) as [|x rest]; [destruct Hd|].
    simpl. destruct (Z.eqb_spec x d) as [_|Hne']; [reflexivity|].
    exfalso. apply StronglySorted_inv in Hs as [_ Hx].
    rewrite Forall_forall in Hx.
    assert (Hxin : In x zs) by (eapply Permutation_in; [exact Hp | now left]).
    specialize (Hleast x Hxin).
    destruct Hd as [Hd|Hd]; [congruence|]. specialize (Hx d Hd). lia. }
  rewrite Hidx. unfold quartileOfIndex.
  destruct (Z.leb_spec (4 * 0) (Z.of_nat (List.length (sort zs))));
    [reflexivity | lia].
Qed.

(** In an array of integers a smaller value has a quartile that is not
    higher. *)
Lemma getQuantile_mono (zs : list Z) (a b : Z) :
  In a zs -> In b zs -> a <= b ->
  getQuantile (sort zs) a <= getQuantile (sort zs) b.
Proof.
  intros Ha Hb Hle.
  assert (Hne : zs <> []) by (destruct zs; [destruct Ha | discriminate]).
  rewrite !getQuantile_index by now apply sort_nonempty.
  apply quartileOfIndex_mono.
  - rewrite sort_length. destruct zs; [now elim Hne | simpl List.length; lia].
  - apply indexOfFrom_sorted.
    + apply sort_sorted.
    + eapply Permutation_in; [symmetry; apply sort_Permutation | exact Ha].
    + eapply Permutation_in; [symmetry; apply sort_Permutation | exact Hb].
    + exact Hle.
Qed.

Lemma customersOf_recencies_first (now : Z) (ts : list Transaction.t) :
  firstDatesParseable ts = true ->
  exists zs, map Customer.recency (customersOf now ts) = map Some zs.
Proof.
  intros Hfirst. apply all_Some. rewrite Forall_map, Forall_forall.
  intros c Hc.
  pose proof (proj1 (firstDatesParseable_customers now ts) Hfirst c Hc) as Hd.
  destruct (customersOf_In now ts c Hc) as (d & _ & Hcd).
  rewrite Hcd in Hd |- *. simpl in Hd |- *. unfold recencyOf.
  destruct (CustomerData.lastDate d); [discriminate | now elim Hd].
Qed.

Lemma getQuantile_Some (zs : list Z) (d : Z) :
  getQuantile (sort (map Some zs)) (Some d) = getQuantile (sort zs) d.
Proof.
  unfold getQuantile, indexOf.
  now rewrite sort_Some, indexOfFrom_Some, length_map.
Qed.

(** X5: the customer whose last transaction is the most recent has
    recency score 4, and the customer with the fewest transactions has
    frequency score 1, whatever the size of the cohort. *)
Theorem calculateRFM_extremes (now : Z) (ts : list Transaction.t)
  (recent rare : Customer.t) (days : Z) :
  firstDatesParseable ts = true ->
  In recent (customersOf now ts) -> In rare (customersOf now ts) ->
  Customer.recency recent = Some days ->
  (forall c d, In c (customersOf now ts) -> Customer.recency c = Some d ->
               days <= d) ->
  (forall c, In c (customersOf now ts) ->
             Customer.frequency rare <= Customer.frequency c) ->
  exists out,
    calculateRFM now ts = Ok out /\
    (exists s1 s2, scored now ts out recent s1 /\ scored now ts out rare s2) /\
    (forall s, scored now ts out recent s -> RFMScore.recency_score s = 4) /\
    (forall s, scored now ts out rare s -> RFMScore.frequency_score s = 1).
Proof.
  intros Hfirst Hrecent Hrare Hdays Hleast Hfewest.
  destruct (calculateRFM_returns_first now ts Hfirst) as (out & Hout & Hall).
  exists out. split; [exact Hout|]. split.
  { destruct (Forall2_In_l _ _ _ recent Hall Hrecent) as [s1 Hs1].
    destruct (Forall2_In_l _ _ _ rare Hall Hrare) as [s2 Hs2].
    now exists s1, s2. }
  split; intros s Hs; unfold scored in Hs;
    apply (Forall2_combine_In _ _ _ _ _ Hall) in Hs;
    apply scoreCustomer_fields in Hs as (_ & Hr & Hf & _).
  - rewrite Hr, Hdays. unfold recencyValues.
    destruct (customersOf_recencies_first now ts Hfirst) as [zs Hzs].
    rewrite Hzs, getQuantile_Some, getQuantile_least; [reflexivity| |].
    + assert (Hsome : In (Some days) (map Some zs)).
      { rewrite <- Hzs, <- Hdays. now apply in_map. }
      apply in_map_iff in Hsome as (z & [= ->] & Hz). exact Hz.
    + intros z Hz.
      assert (Hsome : In (Some z) (map Customer.recency (customersOf now ts)))
        by (rewrite Hzs; now apply in_map).
      apply in_map_iff in Hsome as (c & Hc & Hcin). now apply (Hleast c z).
  - rewrite Hf. unfold frequencyValues. apply getQuantile_least.
    + now apply in_map.
    + intros z Hz. apply in_map_iff in Hz as (c & <- & Hcin).
      now apply Hfewest.
Qed.

(** On the example of the specification: B is both the most recent and
    the one with the fewest transactions. *)
Lemma calculateRFM_extremes_witness :
  firstDatesParseable exampleTransactions = true /\
  In exampleB (customersOf exampleNow exampleTransactions) /\
  Customer.recency exampleB = Some 1 /\
  (forall c d, In c (customersOf exampleNow exampleTransactions) ->
               Customer.recency c = Some d -> 1 <= d) /\
  (forall c, In c (customersOf exampleNow exampleTransactions) ->
             Customer.frequency exampleB <= Customer.frequency c) /\
  exists out,
    calculateRFM exampleNow exampleTransactions = Ok out /\
    (exists s1 s2, scored exampleNow exampleTransactions out exampleB s1 /\
                   scored exampleNow exampleTransactions out exampleB s2) /\
    (forall s, scored exampleNow exampleTransactions out exampleB s ->
               RFMScore.recency_score s = 4) /\
    (forall s, scored exampleNow exampleTransactions out exampleB s ->
               RFMScore.frequency_score s = 1).
Proof.
  assert (Hfirst : firstDatesParseable exampleTransactions = true)
    by reflexivity.
  assert (HB : In exampleB (customersOf exampleNow exampleTransactions))
    by (vm_compute; right; left; reflexivity).
  assert (Hdays : Customer.recency exampleB = Some 1) by reflexivity.
  assert (Hleast : forall c d,
             In c (customersOf exampleNow exampleTransactions) ->
             Customer.recency c = Some d -> 1 <= d).
  { intros c d Hc. vm_compute in Hc. destruct Hc as [<-|[<-|[]]];
      simpl; intros [= <-]; lia. }
  assert (Hfewest : forall c,
             In c (customersOf exampleNow exampleTransactions) ->
             Customer.frequency exampleB <= Customer.frequency c).
  { intros c Hc. vm_compute in Hc. destruct Hc as [<-|[<-|[]]]; simpl; lia. }
  split; [exact Hfirst|]. split; [exact HB|]. split; [exact Hdays|].
  split; [exact Hleast|]. split; [exact Hfewest|].
  exact (calculateRFM_extremes exampleNow exampleTransactions exampleB exampleB
           1 Hfirst HB HB Hdays Hleast Hfewest).
Defined.

(** X6: of two customers of one cohort, the one with more or as many
    transactions has the greater or equal frequency score. *)
Theorem frequency_score_monotone (now : Z) (ts : list Transaction.t)
  (c1 c2 : Customer.t) :
  firstDatesParseable ts = true ->
  In c1 (customersOf now ts) -> In c2 (customersOf now ts) ->
  Customer.frequency c1 <= Customer.frequency c2 ->
  exists out,
    calculateRFM now ts = Ok out /\
    (exists s1 s2, scored now ts out c1 s1 /\ scored now ts out c2 s2) /\
    (forall s1 s2, scored now ts out c1 s1 -> scored now ts out c2 s2 ->
       RFMScore.frequency_score s1 <= RFMScore.frequency_score s2).
Proof.
  intros Hfirst Hc1 Hc2 Hle.
  destruct (calculateRFM_returns_first now ts Hfirst) as (out & Hout & Hall).
  exists out. split; [exact Hout|]. split.
  - destruct (Forall2_In_l _ _ _ c1 Hall Hc1) as [s1 Hs1].
    destruct (Forall2_In_l _ _ _ c2 Hall Hc2) as [s2 Hs2].
    now exists s1, s2.
  - intros s1 s2 Hs1 Hs2. unfold scored in *.
    apply (Forall2_combine_In _ _ _ _ _ Hall) in Hs1, Hs2.
    apply scoreCustomer_fields in Hs1 as (_ & _ & -> & _).
    apply scoreCustomer_fields in Hs2 as (_ & _ & -> & _).
    unfold frequencyValues. apply getQuantile_mono; [| |exact Hle];
      now apply in_map.
Qed.

(** On the example of the specification: B, with one transaction, against
    A, with two. *)
Lemma frequency_score_monotone_witness :
  firstDatesParseable exampleTransactions = true /\
  In exampleB (customersOf exampleNow exampleTransactions) /\
  In exampleA (customersOf exampleNow exampleTransactions) /\
  Customer.frequency exampleB <= Customer.frequency exampleA /\
  exists out,
    calculateRFM exampleNow exampleTransactions = Ok out /\
    (exists s1 s2, scored exampleNow exampleTransactions out exampleB s1 /\
                   scored exampleNow exampleTransactions out exampleA s2) /\
    (forall s1 s2,
       scored exampleNow exampleTransactions out exampleB s1 ->
       scored exampleNow exampleTransactions out exampleA s2 ->
       RFMScore.frequency_score s1 <= RFMScore.frequency_score s2).
Proof.
  assert (Hfirst : firstDatesParseable exampleTransactions = true)
    by reflexivity.
  assert (HB : In exampleB (customersOf exampleNow exampleTransactions))
    by (vm_compute; right; left; reflexivity).
  assert (HA : In exampleA (customersOf exampleNow exampleTransactions))
    by (vm_compute; left; reflexivity).
  assert (Hle : Customer.frequency exampleB <= Customer.frequency exampleA)
    by (simpl; lia).
  split; [exact Hfirst|]. split; [exact HB|]. split; [exact HA|].
  split; [exact Hle|].
  exact (frequency_score_monotone exampleNow exampleTransactions exampleB
           exampleA Hfirst HB HA Hle).
Defined.

(** ** Segment names *)

Lemma getSegmentName_Champions (r f m : Z) :
  getSegmentName r f m = "Champions"%string <-> 4 <= r /\ 4 <= f /\ 4 <= m.
Proof.
  unfold getSegmentName.
  destruct (Z.leb_spec 4 r), (Z.leb_spec 4 f), (Z.leb_spec 4 m); simpl;
    try (split; [intros _; lia | reflexivity]);
    (split; [|lia]);
    repeat match goal with
           | |- context [if ?b then _ else _] => destruct b
           end; discriminate.
Qed.

(** X7: in a cohort of at most four customers nobody is in the fourth
    quartile of any metric: no record has frequency score 4, monetary
    score 4 or recency score 1, and so none is named Champions. *)
Theorem calculateRFM_small_cohort (now : Z) (ts : list Transaction.t) :
  firstDatesParseable ts = true ->
  (List.length (firstOccurrences (map Transaction.customer_id ts)) <= 4)%nat ->
  exists out,
    calculateRFM now ts = Ok out /\
    forall s, In s out ->
      2 <= RFMScore.recency_score s /\
      RFMScore.frequency_score s <= 3 /\
      RFMScore.monetary_score s <= 3 /\
      RFMScore.segment_name s <> "Champions"%string.
Proof.
  intros Hfirst Hfew.
  destruct (calculateRFM_returns_first now ts Hfirst) as (out & Hout & Hall).
  exists out. split; [exact Hout|]. intros s Hs.
  assert (Hlen : (List.length (customersOf now ts) <= 4)%nat).
  { rewrite <- customerDataOf_order in Hfew.
    unfold customersOf. now rewrite length_map in *. }
  destruct (Forall2_In_r _ _ _ s Hall Hs) as [c Hc].
  assert (Hcin : In c (customersOf now ts)) by (eapply in_combine_l; exact Hc).
  assert (Hne : customersOf now ts <> [])
    by (destruct (customersOf now ts); [destruct Hcin | discriminate]).
  apply (Forall2_combine_In _ _ _ _ _ Hall) in Hc.
  apply scoreCustomer_fields in Hc as (_ & Hr & Hf & Hm & _ & _ & _ & _ & Hname).
  assert (Hq : forall (A : Type) (N : JSNumber A) (value : Customer.t -> A) v,
             getQuantile (sort (map value (customersOf now ts))) v <= 3).
  { intros A N value v. apply getQuantile_small.
    - apply sort_nonempty. intros Hnil. apply map_eq_nil in Hnil. now apply Hne.
    - now rewrite sort_length, length_map. }
  pose proof (Hq _ _ Customer.recency (Customer.recency c)) as Hqr.
  pose proof (Hq _ _ Customer.frequency (Customer.frequency c)) as Hqf.
  pose proof (Hq _ _ Customer.monetary (Customer.monetary c)) as Hqm.
  fold (recencyValues (customersOf now ts)) in Hqr.
  fold (frequencyValues (customersOf now ts)) in Hqf.
  fold (monetaryValues (customersOf now ts)) in Hqm.
  split; [lia|]. split; [lia|]. split; [lia|].
  rewrite Hname, getSegmentName_Champions. lia.
Qed.

(** On the four customers with one to four purchases. *)
Lemma calculateRFM_small_cohort_witness :
  firstDatesParseable fourCustomers = true /\
  (List.length (firstOccurrences (map Transaction.customer_id fourCustomers))
   <= 4)%nat /\
  exists out,
    calculateRFM exampleNow fourCustomers = Ok out /\
    forall s, In s out ->
      2 <= RFMScore.recency_score s /\
      RFMScore.frequency_score s <= 3 /\
      RFMScore.monetary_score s <= 3 /\
      RFMScore.segment_name s <> "Champions"%string.
Proof.
  assert (Hfirst : firstDatesParseable fourCustomers = true) by reflexivity.
  assert (Hfew : (List.length
                    (firstOccurrences
                       (map Transaction.customer_id fourCustomers)) <= 4)%nat)
    by (vm_compute; lia).
  split; [exact Hfirst|]. split; [exact Hfew|].
  exact (calculateRFM_small_cohort exampleNow fourCustomers Hfirst Hfew).
Defined.

Ltac walk_rule_chain :=
  repeat match goal with
         | |- context [if ?b then _ else _] =>
             let E := fresh "E" in destruct b eqn:E
         end;
  repeat match goal with
         | H : _ = true |- _ =>
             progress rewrite ?andb_true_iff, ?Z.leb_le in H
         | H : _ = false |- _ =>
             progress rewrite ?andb_false_iff, ?Z.leb_gt in H
         end.

Ltac decide_region :=
  unfold getSegmentName; walk_rule_chain;
  (split; [intros Heq; try discriminate Heq; lia
          | intros Hregion; try reflexivity; exfalso; lia]).

(** X8: the triples of integers that each rule of the chain names, once
    the earlier rules have taken theirs.  Customers Needing Attention is
    never given at R = 3, At Risk and Big Spenders at Risk lose part of
    R = 2 to it, and Lost Customers is given at M <= 2 only. *)
Theorem getSegmentName_regions (r f m : Z) :
  (getSegmentName r f m = "Champions"%string <->
   4 <= r /\ 4 <= f /\ 4 <= m) /\
  (getSegmentName r f m = "Loyal Customers"%string <->
   3 <= r /\ 3 <= f /\ 3 <= m /\ (r <= 3 \/ f <= 3 \/ m <= 3)) /\
  (getSegmentName r f m = "New Customers"%string <->
   4 <= r /\ f <= 2) /\
  (getSegmentName r f m = "Potential Loyalists"%string <->
   r = 3 /\ 1 <= f <= 2 /\ 2 <= m \/ 3 <= r /\ 3 <= f /\ m = 2) /\
  (getSegmentName r f m = "Customers Needing Attention"%string <->
   r = 2 /\ 2 <= f /\ 2 <= m) /\
  (getSegmentName r f m = "At Risk"%string <->
   r <= 2 /\ 3 <= f /\ (r <= 1 \/ m <= 1)) /\
  (getSegmentName r f m = "Big Spenders at Risk"%string <->
   r <= 2 /\ f <= 2 /\ 3 <= m /\ (r <= 1 \/ f <= 1)) /\
  (getSegmentName r f m = "Lost Customers"%string <->
   r <= 1 /\ f <= 2 /\ m <= 2).
Proof.
  repeat match goal with |- _ /\ _ => split end; decide_region.
Qed.

Lemma getSegmentName_named (r f m : Z) : In (getSegmentName r f m) segmentNames.
Proof.
  unfold getSegmentName, segmentNames.
  repeat match goal with
         | |- context [if ?b then _ else _] => destruct b
         end;
    simpl; repeat (first [left; reflexivity | right]).
Qed.

(** On quartile scores the buckets of the sum are reached with the lowest
    monetary score only, High Value by (4,4,1) alone. *)
Lemma getSegmentName_sum_buckets (r f m : Z) :
  1 <= r <= 4 -> 1 <= f <= 4 -> 1 <= m <= 4 ->
  (getSegmentName r f m = "High Value"%string <-> r = 4 /\ f = 4 /\ m = 1) /\
  (getSegmentName r f m = "Medium Value"%string <->
   m = 1 /\ (r = 3 /\ 2 <= f \/ r = 4 /\ f = 3)) /\
  (getSegmentName r f m = "Low Value"%string <->
   2 <= r <= 3 /\ f <= 2 /\ m <= 2 /\ r + f + m <= 5).
Proof.
  intros Hr Hf Hm. repeat match goal with |- _ /\ _ => split end;
    decide_region.
Qed.

(** X9: every output record carries one of the eleven segment names; it is
    named High Value exactly when its scores are recency 4, frequency 4
    and monetary 1, and a record named Medium Value has monetary score 1
    as well: the two names go to customers of the lowest spending
    quartile. *)
Theorem calculateRFM_segment_names (now : Z) (ts : list Transaction.t) :
  firstDatesParseable ts = true ->
  exists out,
    calculateRFM now ts = Ok out /\
    forall s, In s out ->
      In (RFMScore.segment_name s) segmentNames /\
      (RFMScore.segment_name s = "High Value"%string <->
       RFMScore.recency_score s = 4 /\ RFMScore.frequency_score s = 4 /\
       RFMScore.monetary_score s = 1) /\
      (RFMScore.segment_name s = "Medium Value"%string ->
       RFMScore.monetary_score s = 1).
Proof.
  intros Hfirst.
  destruct (calculateRFM_returns_first now ts Hfirst) as (out & Hout & Hall).
  exists out. split; [exact Hout|]. intros s Hs.
  destruct (Forall2_In_r _ _ _ s Hall Hs) as [c Hc].
  apply (Forall2_combine_In _ _ _ _ _ Hall) in Hc.
  apply scoreCustomer_fields in Hc as (_ & Hr & Hf & Hm & _ & _ & _ & _ & Hname).
  pose proof (getQuantile_range (recencyValues (customersOf now ts))
                (Customer.recency c)) as Hqr.
  pose proof (getQuantile_range (frequencyValues (customersOf now ts))
                (Customer.frequency c)) as Hqf.
  pose proof (getQuantile_range (monetaryValues (customersOf now ts))
                (Customer.monetary c)) as Hqm.
  destruct (getSegmentName_sum_buckets (RFMScore.recency_score s)
              (RFMScore.frequency_score s) (RFMScore.monetary_score s))
    as (Hhigh & Hmedium & _); try lia.
  rewrite Hname. split; [apply getSegmentName_named|].
  split; [exact Hhigh|]. intros Hmed. apply Hmedium in Hmed. lia.
Qed.

(** On the example of the specification. *)
Lemma calculateRFM_segment_names_witness :
  firstDatesParseable exampleTransactions = true /\
  exists out,
    calculateRFM exampleNow exampleTransactions = Ok out /\
    forall s, In s out ->
      In (RFMScore.segment_name s) segmentNames /\
      (RFMScore.segment_name s = "High Value"%string <->
       RFMScore.recency_score s = 4 /\ RFMScore.frequency_score s = 4 /\
       RFMScore.monetary_score s = 1) /\
      (RFMScore.segment_name s = "Medium Value"%string ->
       RFMScore.monetary_score s = 1).
Proof.
  assert (Hfirst : firstDatesParseable exampleTransactions = true)
    by reflexivity.
  split; [exact Hfirst|].
  exact (calculateRFM_segment_names exampleNow exampleTransactions Hfirst).
Defined.

(** * Properties of the upload handler *)

(** ** Trimming *)

Lemma trimStart_head (s : string) :
  trimStart s = EmptyString \/
  exists c rest, trimStart s = String c rest /\ isWhiteSpace c = false.
Proof.
  induction s as [|c s IH]; simpl; [now left|].
  destruct (isWhiteSpace c) eqn:Hc; [exact IH|].
  right. now exists c, s.
Qed.

Lemma trimEnd_head (c : ascii) (rest : string) :
  isWhiteSpace c = false ->
  exists kept, trimEnd (String c rest) = String c kept.
Proof.
  intros Hc. simpl. destruct (trimEnd rest) as [|d kept].
  - rewrite Hc. now exists EmptyString.
  - now exists (String d kept).
Qed.

Lemma trimEnd_idempotent (s : string) : trimEnd (trimEnd s) = trimEnd s.
Proof.
  induction s as [|c s IH]; simpl; [reflexivity|].
  destruct (trimEnd s) as [|d kept] eqn:Hs.
  - destruct (isWhiteSpace c) eqn:Hc; simpl; [reflexivity|].
    now rewrite Hc.
  - change (trimEnd (String c (String d kept)))
      with (match trimEnd (String d kept) with
            | EmptyString =>
                if isWhiteSpace c then EmptyString else String c EmptyString
            | k => String c k
            end).
    now rewrite IH.
Qed.

(** What [trim] returns has no white space left at either end. *)
Lemma trim_trimmed (s : string) : trimmed (trim s).
Proof.
  unfold trimmed, trim.
  destruct (trimStart_head s) as [->|(c & rest & -> & Hc)]; [reflexivity|].
  destruct (trimEnd_head c rest Hc) as [kept Hkept].
  rewrite Hkept. simpl trimStart. rewrite Hc, <- Hkept.
  apply trimEnd_idempotent.
Qed.

(** ** The header line *)

Lemma includes_In (values : list string) (value : string) :
  includes values value = true <-> In value values.
Proof.
  unfold includes. rewrite existsb_exists. split.
  - intros (x & Hx & Heq). apply String.eqb_eq in Heq. now subst.
  - intros Hin. exists value. split; [exact Hin | apply String.eqb_refl].
Qed.

(** X10: the parser reports missing headers exactly when one of
    customer_id, transaction_date and transaction_amount is not among the
    fields of the first line, once these are trimmed and put in lower
    case; it then reports the absent ones, all of them and no other. *)
Theorem parseCsv_headers (parseFloat : string -> float) (csvText : string) :
  match parseCsv parseFloat csvText with
  | MissingHeaders missingHeaders =>
      missingHeaders <> [] /\
      forall h, In h missingHeaders <->
                In h requiredHeaders /\ ~ In h (csvHeaders csvText)
  | Rows _ =>
      forall h, In h requiredHeaders -> In h (csvHeaders csvText)
  end.
Proof.
  unfold parseCsv.
  set (missing := filter (fun h => negb (includes (csvHeaders csvText) h))
                    requiredHeaders).
  assert (Hmissing : forall h, In h missing <->
                       In h requiredHeaders /\ ~ In h (csvHeaders csvText)).
  { intros h. unfold missing. rewrite filter_In, negb_true_iff.
    split; intros [Hreq Hnot]; (split; [exact Hreq|]).
    - intros Hin. apply includes_In in Hin. congruence.
    - destruct (includes (csvHeaders csvText) h) eqn:Hinc; [|reflexivity].
      elim Hnot. now apply includes_In. }
  destruct (Z.ltb_spec 0 (Z.of_nat (List.length missing))) as [Hlt|Hge].
  - split; [|exact Hmissing]. intros Hnil. rewrite Hnil in Hlt. simpl in Hlt. lia.
  - intros h Hh. destruct (in_dec string_dec h (csvHeaders csvText)) as [Hin|Hout];
      [exact Hin|].
    assert (Hm : In h missing) by (apply Hmissing; now split).
    destruct missing; [destruct Hm | simpl in Hge; lia].
Qed.

(** ** The rows *)

Lemma orZero_number (x : float) :
  PrimFloat.eqb (orZero x) (orZero x) = true /\ orZero x <> (-0)%float.
Proof.
  unfold orZero, falsyNumber.
  destruct (PrimFloat.eqb x x) eqn:Hxx; simpl.
  - destruct (PrimFloat.eqb x 0) eqn:Hx0.
    + split; [reflexivity|]. intros Heq.
      apply (f_equal PrimFloat.classify) in Heq. discriminate Heq.
    + split; [exact Hxx|]. intros Heq. rewrite Heq in Hx0. discriminate Hx0.
  - split; [reflexivity|]. intros Heq.
    apply (f_equal PrimFloat.classify) in Heq. discriminate Heq.
Qed.

Lemma at_In (values : list string) (i : Z) (s : string) :
  at_ values i = Some s -> In s values.
Proof.
  unfold at_. destruct (i <? 0); [discriminate|]. apply nth_error_In.
Qed.

Lemma parseRow_kept (parseFloat : string -> float)
  (customerIdIndex dateIndex amountIndex nameIndex : Z) (line : string)
  (t : RawTransaction.t) :
  In t (parseRow parseFloat customerIdIndex dateIndex amountIndex nameIndex line) ->
  RawTransaction.customer_id t <> EmptyString /\
  trimmed (RawTransaction.customer_id t) /\
  PrimFloat.eqb (RawTransaction.transaction_amount t)
    (RawTransaction.transaction_amount t) = true /\
  RawTransaction.transaction_amount t <> (-0)%float.
Proof.
  unfold parseRow.
  destruct (3 <=? Z.of_nat (List.length (map trim (split "," line))));
    simpl; [|intros []].
  destruct (at_ (map trim (split "," line)) customerIdIndex) as [id|] eqn:Hid;
    simpl; [|intros []].
  destruct (String.eqb_spec id "") as [->|Hne]; simpl; [intros []|].
  intros [<-|[]]. simpl.
  split; [exact Hne|]. split.
  - apply at_In, in_map_iff in Hid as (field & <- & _). apply trim_trimmed.
  - apply orZero_number.
Qed.

Lemma parseRow_length (parseFloat : string -> float)
  (customerIdIndex dateIndex amountIndex nameIndex : Z) (line : string) :
  (List.length
     (parseRow parseFloat customerIdIndex dateIndex amountIndex nameIndex line)
   <= 1)%nat.
Proof.
  unfold parseRow.
  destruct (_ && _); [|simpl; lia].
  destruct (at_ _ customerIdIndex); simpl; lia.
Qed.

Lemma flat_map_length_le {A B : Type} (f : A -> list B) (l : list A) :
  (forall a, List.length (f a) <= 1)%nat ->
  (List.length (flat_map f l) <= List.length l)%nat.
Proof.
  intros Hf. induction l as [|a l IH]; simpl; [lia|].
  rewrite length_app. specialize (Hf a). lia.
Qed.

(** X11: every transaction the parser keeps has a customer_id that is not
    empty and has no white space at its ends, and an amount that is a
    number (whatever [parseFloat] made of the text, NaN became 0) and is
    not the negative zero; there are at most as many of them as lines
    after the header. *)
Theorem parseCsv_rows (parseFloat : string -> float) (csvText : string)
  (newTransactions : list RawTransaction.t) :
  parseCsv parseFloat csvText = Rows newTransactions ->
  (List.length newTransactions < List.length (csvLines csvText))%nat /\
  forall t, In t newTransactions ->
    RawTransaction.customer_id t <> EmptyString /\
    trimmed (RawTransaction.customer_id t) /\
    PrimFloat.eqb (RawTransaction.transaction_amount t)
      (RawTransaction.transaction_amount t) = true /\
    RawTransaction.transaction_amount t <> (-0)%float.
Proof.
  unfold parseCsv.
  destruct (0 <? _); [discriminate|]. intros [= <-]. split.
  - assert (Hlines : csvLines csvText <> []).
    { unfold csvLines. destruct (trim csvText) as [|c rest]; simpl;
        [discriminate|].
      destruct (Ascii.eqb c "010"); [discriminate|].
      destruct (split "010" rest); discriminate. }
    destruct (csvLines csvText) as [|header rows]; [now elim Hlines|].
    simpl tl. simpl List.length.
    pose proof (flat_map_length_le
                  (parseRow parseFloat
                     (stringIndexOf (csvHeaders csvText) "customer_id")
                     (stringIndexOf (csvHeaders csvText) "transaction_date")
                     (stringIndexOf (csvHeaders csvText) "transaction_amount")
                     (stringIndexOf (csvHeaders csvText) "customer_name"))
                  rows (parseRow_length parseFloat _ _ _ _)).
    lia.
  - intros t Ht. apply in_flat_map in Ht as (line & _ & Ht).
    now apply parseRow_kept in Ht.
Qed.

(** On the example file: two rows are kept out of four lines after the
    header. *)
Lemma parseCsv_rows_witness :
  parseCsv sampleParseFloat sampleCsv =
  Rows [ {| RawTransaction.customer_id := "A";
            RawTransaction.customer_name := None;
            RawTransaction.transaction_date := DateText "2024-01-01"%string;
            RawTransaction.transaction_amount := 100 |};
         {| RawTransaction.customer_id := "B";
            RawTransaction.customer_name := None;
            RawTransaction.transaction_date := DateText "2024-06-01"%string;
            RawTransaction.transaction_amount := 0 |} ] /\
  (2 < List.length (csvLines sampleCsv))%nat /\
  forall t,
    In t [ {| RawTransaction.customer_id := "A";
              RawTransaction.customer_name := None;
              RawTransaction.transaction_date := DateText "2024-01-01"%string;
              RawTransaction.transaction_amount := 100 |};
           {| RawTransaction.customer_id := "B";
              RawTransaction.customer_name := None;
              RawTransaction.transaction_date := DateText "2024-06-01"%string;
              RawTransaction.transaction_amount := 0 |} ] ->
    RawTransaction.customer_id t <> EmptyString /\
    trimmed (RawTransaction.customer_id t) /\
    PrimFloat.eqb (RawTransaction.transaction_amount t)
      (RawTransaction.transaction_amount t) = true /\
    RawTransaction.transaction_amount t <> (-0)%float.
Proof.
  assert (Hparse : parseCsv sampleParseFloat sampleCsv =
    Rows [ {| RawTransaction.customer_id := "A";
              RawTransaction.customer_name := None;
              RawTransaction.transaction_date := DateText "2024-01-01"%string;
              RawTransaction.transaction_amount := 100 |};
           {| RawTransaction.customer_id := "B";
              RawTransaction.customer_name := None;
              RawTransaction.transaction_date := DateText "2024-06-01"%string;
              RawTransaction.transaction_amount := 0 |} ]) by reflexivity.
  split; [exact Hparse|].
  exact (parseCsv_rows sampleParseFloat sampleCsv _ Hparse).
Defined.

(** ** The writes of the handler *)

Section HandlerFacts.
Variable parseFloat : string -> float.
Variable newDate : string -> Date.

Lemma store_kinds (backend : Backend.t) (user : User.t) (file : File.t)
  (newTransactions : list RawTransaction.t) (rfmScores : list RFMScore.t) :
  let '(writes, response) :=
    store backend user file newTransactions rfmScores in
  (HttpResponse.status response = 500 \/ HttpResponse.status response = 200) /\
  (exists n, map writeKind writes = firstn n writeOrder) /\
  writes <> [] /\
  (HttpResponse.status response = 200 ->
   map writeKind writes = writeOrder /\
   HttpResponse.body response =
   SuccessBody (Z.of_nat (List.length newTransactions))
     (Z.of_nat (List.length rfmScores))).
Proof.
  unfold store.
  destruct (Backend.insertUploadHistory backend _) as [uploadId|uploadError].
  - destruct (Backend.insertTransactions backend _) as [transactionError|].
    + simpl. repeat split; try discriminate; [now left | now exists 2%nat].
    + destruct (Backend.insertSegments backend _) as [segmentError|]; simpl.
      * repeat split; try discriminate; [now left | now exists 4%nat].
      * repeat split; try discriminate; [now right | now exists 4%nat].
  - simpl. repeat split; try discriminate; [now left | now exists 1%nat].
Qed.

(** X12: the handler answers with status 200, 400, 401 or 500; the writes
    it sends are an initial part of: insert into upload_history, insert
    into transactions, delete from customer_segments, insert into
    customer_segments, in this order; with status 400 or 401 it has sent
    none, and with status 200 it has sent all four, unless the request is
    an OPTIONS request, which is answered at once. *)
Theorem handler_status_and_writes (env : Env.t) (backend : Backend.t)
  (now : Z) (req : Request.t) :
  let '(writes, response) := handler parseFloat newDate env backend now req in
  In (HttpResponse.status response) [200; 400; 401; 500] /\
  (exists n, map writeKind writes = firstn n writeOrder) /\
  (HttpResponse.status response = 400 \/ HttpResponse.status response = 401 ->
   writes = []) /\
  (HttpResponse.status response = 200 ->
   Request.method req = "OPTIONS"%string /\ writes = [] /\
   HttpResponse.body response = NullBody
   \/ map writeKind writes = writeOrder /\
      exists processed segmented,
        HttpResponse.body response = SuccessBody processed segmented).
Proof.
  assert (Hnone : forall status body,
            In status [400; 401; 500] ->
            let '(writes, response) := (@nil Write, json status body) in
            In (HttpResponse.status response) [200; 400; 401; 500] /\
            (exists n, map writeKind writes = firstn n writeOrder) /\
            (HttpResponse.status response = 400 \/
             HttpResponse.status response = 401 -> writes = []) /\
            (HttpResponse.status response = 200 ->
             Request.method req = "OPTIONS"%string /\ writes = [] /\
             HttpResponse.body response = NullBody
             \/ map writeKind writes = writeOrder /\
                exists processed segmented,
                  HttpResponse.body response = SuccessBody processed segmented)).
  { intros status body Hstatus. simpl. split; [|split; [|split]].
    - simpl in Hstatus. intuition.
    - now exists 0%nat.
    - reflexivity.
    - intros ->. simpl in Hstatus. intuition discriminate. }
  unfold handler.
  destruct (String.eqb_spec (Request.method req) "OPTIONS") as [Hopt|_].
  { simpl. split; [now left|]. split; [now exists 0%nat|].
    split; [reflexivity|]. intros _. now left. }
  destruct (negb _ || negb _);
    [apply (Hnone 500); simpl; auto|].
  destruct (Request.authorization req) as [authHeader|];
    [|apply (Hnone 401); simpl; auto].
  destruct (String.eqb authHeader ""); [apply (Hnone 401); simpl; auto|].
  destruct (AuthResult.authError _); [apply (Hnone 401); simpl; auto|].
  destruct (AuthResult.user _) as [user|]; [|apply (Hnone 401); simpl; auto].
  destruct (Request.file req) as [message| |value message|file];
    try (apply (Hnone 500); simpl; now auto);
    try (apply (Hnone 400); simpl; now auto).
  { destruct (String.eqb value "");
      [apply (Hnone 400) | apply (Hnone 500)]; simpl; auto. }
  unfold processCsv.
  destruct (parseCsv parseFloat (File.text file)) as [missing|newTransactions];
    [apply (Hnone 400); simpl; auto|].
  destruct (Z.of_nat (List.length newTransactions) =? 0);
    [apply (Hnone 400); simpl; auto|].
  destruct (calculateRFM now _) as [rfmScores|[message]];
    [|apply (Hnone 500); simpl; auto].
  pose proof (store_kinds backend user file newTransactions rfmScores) as Hstore.
  destruct (store backend user file newTransactions rfmScores)
    as [writes response].
  destruct Hstore as (Hstatus & Hprefix & Hne & Hok).
  split; [simpl; intuition|]. split; [exact Hprefix|]. split.
  - intros [H400|H401]; destruct Hstatus as [Hs|Hs]; rewrite Hs in *;
      discriminate.
  - intros H200. right. destruct (Hok H200) as [Hkinds Hbody].
    split; [exact Hkinds|]. eauto.
Qed.
End HandlerFacts.

Lemma calculateRFM_Ok_first (now : Z) (ts : list Transaction.t)
  (out : list RFMScore.t) :
  calculateRFM now ts = Ok out -> firstDatesParseable ts = true.
Proof.
  intros Hres. apply (firstDatesParseable_customers now). intros c Hc Hnone.
  destruct (mapM_Ok_inv _ _ _ c Hres Hc) as [s Hs].
  unfold scoreCustomer in Hs. rewrite Hnone in Hs. discriminate Hs.
Qed.

Section HandlerWrites.
Variable parseFloat : string -> float.
Variable newDate : string -> Date.

(** Either the handler sends nothing, or the request has passed every
    check and the scorer has returned, and the handler ends as [store]. *)
Lemma handler_store_or_nothing (env : Env.t) (backend : Backend.t) (now : Z)
  (req : Request.t) :
  fst (handler parseFloat newDate env backend now req) = [] \/
  exists authHeader user file newTransactions rfmScores,
    Request.method req <> "OPTIONS"%string /\
    Request.authorization req = Some authHeader /\
    authHeader <> EmptyString /\
    AuthResult.user (Backend.getUser backend authHeader) = Some user /\
    AuthResult.authError (Backend.getUser backend authHeader) = None /\
    Request.file req = FileEntry file /\
    parseCsv parseFloat (File.text file) = Rows newTransactions /\
    newTransactions <> [] /\
    calculateRFM now
      (map (toTransaction newDate) (existingOf backend user ++ newTransactions))
    = Ok rfmScores /\
    handler parseFloat newDate env backend now req =
    store backend user file newTransactions rfmScores.
Proof.
  unfold handler.
  destruct (String.eqb_spec (Request.method req) "OPTIONS") as [|Hmethod];
    [now left|].
  destruct (negb _ || negb _); [now left|].
  destruct (Request.authorization req) as [authHeader|] eqn:Hauth; [|now left].
  destruct (String.eqb_spec authHeader "") as [|Hheader]; [now left|].
  destruct (AuthResult.authError _) eqn:Herror; [now left|].
  destruct (AuthResult.user _) as [user|] eqn:Huser; [|now left].
  destruct (Request.file req) as [message| |value message|file] eqn:Hfile;
    try (now left).
  { destruct (String.eqb value ""); now left. }
  unfold processCsv.
  destruct (parseCsv parseFloat (File.text file)) as [missing|newTransactions]
    eqn:Hparse; [now left|].
  destruct (Z.eqb_spec (Z.of_nat (List.length newTransactions)) 0) as [|Hlen];
    [now left|].
  fold (existingOf backend user).
  destruct (calculateRFM now _) as [rfmScores|[message]] eqn:Hscores;
    [|now left].
  right. exists authHeader, user, file, newTransactions, rfmScores.
  repeat split; try assumption; try reflexivity.
  intros Hnil. rewrite Hnil in Hlen. now apply Hlen.
Qed.

(** X13: the handler sends a write only after the request has passed every
    check: it carries an authorization header for which the client finds
    a user and no error, its form holds a file whose text has the three
    headers and at least one valid row, and the scorer has returned on
    the old and the new transactions together.  In particular a date
    that makes the scorer throw leaves the database untouched. *)
Theorem handler_writes_after_checks (env : Env.t) (backend : Backend.t)
  (now : Z) (req : Request.t) :
  fst (handler parseFloat newDate env backend now req) <> [] ->
  exists authHeader user file newTransactions rfmScores,
    Request.method req <> "OPTIONS"%string /\
    Request.authorization req = Some authHeader /\
    authHeader <> EmptyString /\
    Backend.getUser backend authHeader =
    {| AuthResult.user := Some user; AuthResult.authError := None |} /\
    Request.file req = FileEntry file /\
    parseCsv parseFloat (File.text file) = Rows newTransactions /\
    newTransactions <> [] /\
    firstDatesParseable
      (map (toTransaction newDate) (existingOf backend user ++ newTransactions))
    = true /\
    calculateRFM now
      (map (toTransaction newDate) (existingOf backend user ++ newTransactions))
    = Ok rfmScores.
Proof.
  intros Hwrites.
  destruct (handler_store_or_nothing env backend now req)
    as [Hnil|(authHeader & user & file & newTransactions & rfmScores & Hmethod
              & Hauth & Hheader & Huser & Herror & Hfile & Hparse & Hne
              & Hscores & _)]; [now elim Hwrites|].
  exists authHeader, user, file, newTransactions, rfmScores.
  repeat split; try assumption.
  - destruct (Backend.getUser backend authHeader) as [u e]. simpl in *.
    now subst.
  - now apply (calculateRFM_Ok_first now _ rfmScores).
Qed.

(** X14: every write of the handler is for the authenticated user: the
    rows it inserts carry the id of the user the client found for the
    authorization header, and the delete is filtered on that id. *)
Theorem handler_writes_for_user (env : Env.t) (backend : Backend.t)
  (now : Z) (req : Request.t) (w : Write) (user_id : string) :
  In w (fst (handler parseFloat newDate env backend now req)) ->
  In user_id (writeUsers w) ->
  exists authHeader user,
    Request.authorization req = Some authHeader /\
    AuthResult.user (Backend.getUser backend authHeader) = Some user /\
    user_id = User.id user.
Proof.
  intros Hw Hu.
  destruct (handler_store_or_nothing env backend now req)
    as [Hnil|(authHeader & user & file & newTransactions & rfmScores & _
              & Hauth & _ & Huser & _ & _ & _ & _ & _ & Hstore)].
  { rewrite Hnil in Hw. destruct Hw. }
  exists authHeader, user. split; [exact Hauth|]. split; [exact Huser|].
  rewrite Hstore in Hw. clear Hstore. unfold store in Hw.
  destruct (Backend.insertUploadHistory backend _) as [uploadId|uploadError].
  - destruct (Backend.insertTransactions backend _) as [transactionError|].
    + simpl in Hw. destruct Hw as [<-|[<-|[]]]; simpl in Hu.
      * destruct Hu as [<-|[]]. reflexivity.
      * apply in_map_iff in Hu as (row & <- & Hrow).
        apply in_map_iff in Hrow as (t & <- & _). reflexivity.
    + assert (Hall : In w
                [InsertUploadHistory
                   {| UploadHistoryRow.user_id := User.id user;
                      UploadHistoryRow.file_name := File.name file;
                      UploadHistoryRow.file_size := File.size file;
                      UploadHistoryRow.transactions_count :=
                        Z.of_nat (List.length newTransactions);
                      UploadHistoryRow.customers_count :=
                        customersCount newTransactions |};
                 InsertTransactions
                   (map (fun t => {| TransactionRow.user_id := User.id user;
                                     TransactionRow.transaction := t;
                                     TransactionRow.upload_id := uploadId |})
                      newTransactions);
                 DeleteSegments (User.id user);
                 InsertSegments
                   (map (fun score => {| SegmentRow.user_id := User.id user;
                                         SegmentRow.score := score;
                                         SegmentRow.upload_id := uploadId |})
                      rfmScores)])
        by (destruct (Backend.insertSegments backend _); exact Hw).
      clear Hw. simpl in Hall. destruct Hall as [<-|[<-|[<-|[<-|[]]]]];
        simpl in Hu.
      * destruct Hu as [<-|[]]. reflexivity.
      * apply in_map_iff in Hu as (row & <- & Hrow).
        apply in_map_iff in Hrow as (t & <- & _). reflexivity.
      * destruct Hu as [<-|[]]. reflexivity.
      * apply in_map_iff in Hu as (row & <- & Hrow).
        apply in_map_iff in Hrow as (t & <- & _). reflexivity.
  - simpl in Hw. destruct Hw as [<-|[]]. simpl in Hu.
    destruct Hu as [<-|[]]. reflexivity.
Qed.
End HandlerWrites.

Section HandlerSuccess.
Variable parseFloat : string -> float.
Variable newDate : string -> Date.

Lemma toTransaction_ids (rows : list RawTransaction.t) :
  map Transaction.customer_id (map (toTransaction newDate) rows) =
  map RawTransaction.customer_id rows.
Proof. rewrite map_map. now apply map_ext. Qed.

Lemma firstOccurrences_In (ids : list string) (id : string) :
  In id (firstOccurrences ids) <-> In id ids.
Proof.
  unfold firstOccurrences. rewrite <- in_rev, nodup_In, <- in_rev. reflexivity.
Qed.

Lemma customersCount_le (existing newTransactions : list RawTransaction.t) :
  customersCount newTransactions <=
  Z.of_nat (List.length
              (firstOccurrences
                 (map RawTransaction.customer_id
                    (existing ++ newTransactions)))).
Proof.
  unfold customersCount. apply inj_le. apply NoDup_incl_length.
  - apply NoDup_nodup.
  - intros id Hid. apply nodup_In in Hid. apply firstOccurrences_In.
    rewrite map_app, in_app_iff. now right.
Qed.

(** X15: when the handler answers 200 to a request that is not an OPTIONS
    request, it has sent the four writes and no insert was refused; the
    upload row and the response count the transactions inserted; and the
    segments inserted are one per customer of the old and the new
    transactions together, in the order in which the customers first
    occur, old rows first, so that they are at least as many as the
    customers counted in the upload row. *)
Theorem handler_success (env : Env.t) (backend : Backend.t) (now : Z)
  (req : Request.t) :
  HttpResponse.status (snd (handler parseFloat newDate env backend now req))
  = 200 ->
  Request.method req <> "OPTIONS"%string ->
  exists user uploadRow transactionRows segmentRows,
    fst (handler parseFloat newDate env backend now req) =
    [ InsertUploadHistory uploadRow; InsertTransactions transactionRows;
      DeleteSegments (User.id user); InsertSegments segmentRows ] /\
    Backend.insertTransactions backend transactionRows = None /\
    Backend.insertSegments backend segmentRows = None /\
    HttpResponse.body (snd (handler parseFloat newDate env backend now req)) =
    SuccessBody (Z.of_nat (List.length transactionRows))
      (Z.of_nat (List.length segmentRows)) /\
    UploadHistoryRow.transactions_count uploadRow =
    Z.of_nat (List.length transactionRows) /\
    UploadHistoryRow.customers_count uploadRow <=
    Z.of_nat (List.length segmentRows) /\
    map (fun row => RFMScore.customer_id (SegmentRow.score row)) segmentRows =
    firstOccurrences
      (map RawTransaction.customer_id
         (existingOf backend user
          ++ map TransactionRow.transaction transactionRows)).
Proof.
  intros Hstatus Hmethod.
  destruct (handler_store_or_nothing parseFloat newDate env backend now req)
    as [Hnil|(authHeader & user & file & newTransactions & rfmScores & _
              & _ & _ & _ & _ & _ & _ & _ & Hscores & Hstore)].
  { exfalso. revert Hstatus Hnil. unfold handler.
    destruct (String.eqb_spec (Request.method req) "OPTIONS");
      [contradiction|].
    destruct (negb _ || negb _); [discriminate|].
    destruct (Request.authorization req); [|discriminate].
    destruct (String.eqb _ ""); [discriminate|].
    destruct (AuthResult.authError _); [discriminate|].
    destruct (AuthResult.user _); [|discriminate].
    destruct (Request.file req) as [| |value ?|file]; try discriminate.
    { destruct (String.eqb value ""); discriminate. }
    unfold processCsv. destruct (parseCsv _ _); [discriminate|].
    destruct (_ =? 0); [discriminate|].
    destruct (calculateRFM _ _) as [scores|[message]]; [|discriminate].
    intros _ Hnil.
    pose proof (store_kinds backend t file newTransactions scores) as Hk.
    destruct (store backend t file newTransactions scores) as [writes response].
    simpl in Hnil. now destruct Hk as (_ & _ & Hne & _). }
  rewrite Hstore in Hstatus |- *. clear Hstore. unfold store in *.
  destruct (Backend.insertUploadHistory backend _) as [uploadId|uploadError];
    [|discriminate Hstatus].
  destruct (Backend.insertTransactions backend _) as [transactionError|]
    eqn:Htransactions; [discriminate Hstatus|].
  destruct (Backend.insertSegments backend _) as [segmentError|] eqn:Hsegments;
    [discriminate Hstatus|].
  eexists user, _, _, _. split; [reflexivity|].
  split; [exact Htransactions|]. split; [exact Hsegments|].
  simpl. rewrite !length_map. split; [reflexivity|]. split; [reflexivity|].
  assert (Hids : map RFMScore.customer_id rfmScores =
                 firstOccurrences
                   (map RawTransaction.customer_id
                      (existingOf backend user ++ newTransactions))).
  { rewrite (calculateRFM_ids now _ rfmScores Hscores), customerDataOf_order.
    now rewrite toTransaction_ids. }
  split.
  - rewrite <- (length_map RFMScore.customer_id), Hids.
    apply customersCount_le.
  - rewrite !map_map. simpl. rewrite map_id. exact Hids.
Qed.

(** X16: the old segments are replaced in two steps.  When the database
    refuses the insert of the new segments, the handler answers 500
    although it has already inserted the upload row and the transactions
    and has sent the delete of the user's segments. *)
Theorem handler_segment_insert_refused (env : Env.t) (backend : Backend.t)
  (now : Z) (req : Request.t) (segmentRows : list SegmentRow.t)
  (message : string) :
  In (InsertSegments segmentRows)
     (fst (handler parseFloat newDate env backend now req)) ->
  Backend.insertSegments backend segmentRows = Some message ->
  HttpResponse.status (snd (handler parseFloat newDate env backend now req))
  = 500 /\
  exists user uploadRow transactionRows,
    fst (handler parseFloat newDate env backend now req) =
    [ InsertUploadHistory uploadRow; InsertTransactions transactionRows;
      DeleteSegments (User.id user); InsertSegments segmentRows ] /\
    transactionRows <> [] /\
    Backend.insertTransactions backend transactionRows = None.
Proof.
  intros Hin Hrefused.
  destruct (handler_store_or_nothing parseFloat newDate env backend now req)
    as [Hnil|(authHeader & user & file & newTransactions & rfmScores & _
              & _ & _ & _ & _ & _ & _ & Hne & _ & Hstore)].
  { rewrite Hnil in Hin. destruct Hin. }
  rewrite Hstore in Hin |- *. clear Hstore. unfold store in *.
  destruct (Backend.insertUploadHistory backend _) as [uploadId|uploadError].
  - destruct (Backend.insertTransactions backend _) as [transactionError|]
      eqn:Htransactions.
    + exfalso. simpl in Hin. destruct Hin as [Hin|[Hin|[]]]; discriminate Hin.
    + destruct (Backend.insertSegments backend _) as [segmentError|]
        eqn:Hsegments; simpl in Hin;
        destruct Hin as [Hin|[Hin|[Hin|[Hin|[]]]]]; try discriminate Hin;
        injection Hin as <-.
      * split; [reflexivity|]. eexists user, _, _.
        split; [reflexivity|]. split; [|exact Htransactions].
        destruct newTransactions; [now elim Hne | discriminate].
      * congruence.
  - exfalso. simpl in Hin. destruct Hin as [Hin|[]]. discriminate Hin.
Qed.
End HandlerSuccess.

(** On the example request. *)
Lemma handler_writes_after_checks_witness :
  fst (handler sampleParseFloat sampleNewDate sampleEnv sampleBackend
         exampleNow sampleRequest) <> [] /\
  exists authHeader user file newTransactions rfmScores,
    Request.method sampleRequest <> "OPTIONS"%string /\
    Request.authorization sampleRequest = Some authHeader /\
    authHeader <> EmptyString /\
    Backend.getUser sampleBackend authHeader =
    {| AuthResult.user := Some user; AuthResult.authError := None |} /\
    Request.file sampleRequest = FileEntry file /\
    parseCsv sampleParseFloat (File.text file) = Rows newTransactions /\
    newTransactions <> [] /\
    firstDatesParseable
      (map (toTransaction sampleNewDate)
         (existingOf sampleBackend user ++ newTransactions))
    = true /\
    calculateRFM exampleNow
      (map (toTransaction sampleNewDate)
         (existingOf sampleBackend user ++ newTransactions))
    = Ok rfmScores.
Proof.
  assert (Hwrites : fst (handler sampleParseFloat sampleNewDate sampleEnv
                           sampleBackend exampleNow sampleRequest) <> [])
    by (vm_compute; discriminate).
  split; [exact Hwrites|].
  exact (handler_writes_after_checks sampleParseFloat sampleNewDate sampleEnv
           sampleBackend exampleNow sampleRequest Hwrites).
Defined.

(** A stored row without a date does not stop the scorer: [new Date(null)]
    is 1970-01-01, the handler answers 200 after its four writes, and the
    segment of the customer carries that day. *)
Lemma handler_null_date :
  exists uploadRow transactionRows segmentRows,
    handler sampleParseFloat sampleNewDate sampleEnv nullDateBackend
      exampleNow sampleRequest
    = ([ InsertUploadHistory uploadRow; InsertTransactions transactionRows;
         DeleteSegments "user-1"; InsertSegments segmentRows ],
       json 200 (SuccessBody 2 3)) /\
    map (fun row => (RFMScore.customer_id (SegmentRow.score row),
                     RFMScore.last_transaction_date (SegmentRow.score row)))
        segmentRows
    = [ ("C", "1970-01-01"); ("A", "2024-01-01"); ("B", "2024-06-01") ]%string.
Proof. do 3 eexists. split; vm_compute; reflexivity. Qed.

(** On the delete of the example request. *)
Lemma handler_writes_for_user_witness :
  In (DeleteSegments "user-1")
     (fst (handler sampleParseFloat sampleNewDate sampleEnv sampleBackend
             exampleNow sampleRequest)) /\
  In "user-1"%string (writeUsers (DeleteSegments "user-1")) /\
  exists authHeader user,
    Request.authorization sampleRequest = Some authHeader /\
    AuthResult.user (Backend.getUser sampleBackend authHeader) = Some user /\
    "user-1"%string = User.id user.
Proof.
  assert (Hw : In (DeleteSegments "user-1")
                 (fst (handler sampleParseFloat sampleNewDate sampleEnv
                         sampleBackend exampleNow sampleRequest)))
    by (vm_compute; right; right; left; reflexivity).
  assert (Hu : In "user-1"%string (writeUsers (DeleteSegments "user-1")))
    by (simpl; left; reflexivity).
  split; [exact Hw|]. split; [exact Hu|].
  exact (handler_writes_for_user sampleParseFloat sampleNewDate sampleEnv
           sampleBackend exampleNow sampleRequest _ _ Hw Hu).
Defined.

(** On the example request: two transactions inserted, three customers
    segmented, the customer of the old row first. *)
Lemma handler_success_witness :
  HttpResponse.status
    (snd (handler sampleParseFloat sampleNewDate sampleEnv sampleBackend
            exampleNow sampleRequest)) = 200 /\
  Request.method sampleRequest <> "OPTIONS"%string /\
  exists user uploadRow transactionRows segmentRows,
    fst (handler sampleParseFloat sampleNewDate sampleEnv sampleBackend
           exampleNow sampleRequest) =
    [ InsertUploadHistory uploadRow; InsertTransactions transactionRows;
      DeleteSegments (User.id user); InsertSegments segmentRows ] /\
    Backend.insertTransactions sampleBackend transactionRows = None /\
    Backend.insertSegments sampleBackend segmentRows = None /\
    HttpResponse.body
      (snd (handler sampleParseFloat sampleNewDate sampleEnv sampleBackend
              exampleNow sampleRequest)) =
    SuccessBody (Z.of_nat (List.length transactionRows))
      (Z.of_nat (List.length segmentRows)) /\
    UploadHistoryRow.transactions_count uploadRow =
    Z.of_nat (List.length transactionRows) /\
    UploadHistoryRow.customers_count uploadRow <=
    Z.of_nat (List.length segmentRows) /\
    map (fun row => RFMScore.customer_id (SegmentRow.score row)) segmentRows =
    firstOccurrences
      (map RawTransaction.customer_id
         (existingOf sampleBackend user
          ++ map TransactionRow.transaction transactionRows)).
Proof.
  assert (Hstatus : HttpResponse.status
                      (snd (handler sampleParseFloat sampleNewDate sampleEnv
                              sampleBackend exampleNow sampleRequest)) = 200)
    by reflexivity.
  assert (Hmethod : Request.method sampleRequest <> "OPTIONS"%string)
    by discriminate.
  split; [exact Hstatus|]. split; [exact Hmethod|].
  exact (handler_success sampleParseFloat sampleNewDate sampleEnv
           sampleBackend exampleNow sampleRequest Hstatus Hmethod).
Defined.

(** On the example request, sent to the database that refuses the
    segments. *)
Lemma handler_segment_insert_refused_witness :
  In (InsertSegments sampleSegmentRows)
     (fst (handler sampleParseFloat sampleNewDate sampleEnv refusingBackend
             exampleNow sampleRequest)) /\
  Backend.insertSegments refusingBackend sampleSegmentRows =
  Some "permission denied"%string /\
  HttpResponse.status
    (snd (handler sampleParseFloat sampleNewDate sampleEnv refusingBackend
            exampleNow sampleRequest)) = 500 /\
  exists user uploadRow transactionRows,
    fst (handler sampleParseFloat sampleNewDate sampleEnv refusingBackend
           exampleNow sampleRequest) =
    [ InsertUploadHistory uploadRow; InsertTransactions transactionRows;
      DeleteSegments (User.id user); InsertSegments sampleSegmentRows ] /\
    transactionRows <> [] /\
    Backend.insertTransactions refusingBackend transactionRows = None.
Proof.
  assert (Hin : In (InsertSegments sampleSegmentRows)
                  (fst (handler sampleParseFloat sampleNewDate sampleEnv
                          refusingBackend exampleNow sampleRequest)))
    by (vm_compute; right; right; right; left; reflexivity).
  assert (Hrefused : Backend.insertSegments refusingBackend sampleSegmentRows
                     = Some "permission denied"%string) by reflexivity.
  split; [exact Hin|]. split; [exact Hrefused|].
  exact (handler_segment_insert_refused sampleParseFloat sampleNewDate
           sampleEnv refusingBackend exampleNow sampleRequest
           sampleSegmentRows "permission denied" Hin Hrefused).
Defined.

(** * Properties of the dark mode toggle *)

Lemma toggleStep_theme (state : Toggle.t) (event : ToggleEvent) :
  Toggle.theme (toggleStep state event) = Toggle.theme state \/
  Toggle.mounted state = true /\ event = Click /\
  Toggle.theme (toggleStep state event) =
  Some (if isDark (Toggle.theme state) then "light" else "dark")%string.
Proof.
  destruct state as [theme mounted], event; simpl; [now left|].
  unfold DarkModeToggle. destruct mounted; simpl; [|now left].
  right. repeat split.
Qed.

Lemma toggleStep_lightOrDark (state : Toggle.t) (event : ToggleEvent) :
  lightOrDark (Toggle.theme state) ->
  lightOrDark (Toggle.theme (toggleStep state event)).
Proof.
  intros Hstate.
  destruct (toggleStep_theme state event) as [->|(_ & _ & ->)];
    [exact Hstate|].
  destruct (isDark (Toggle.theme state)); [now left | now right].
Qed.

Lemma toggleStep_unmounted (theme : option string) :
  toggleStep {| Toggle.theme := theme; Toggle.mounted := false |} Click =
  {| Toggle.theme := theme; Toggle.mounted := false |}.
Proof. reflexivity. Qed.

(** X17: whatever the user does, the theme is the one the page started
    with or one of light and dark, and once it is light or dark it stays
    so: a theme such as system cannot be reached again with the button.
    Clicks that come before the effect of the first render has run change
    nothing. *)
Theorem toggle_themes (state : Toggle.t) (events : list ToggleEvent) :
  (Toggle.theme (toggleRun state events) = Toggle.theme state \/
   lightOrDark (Toggle.theme (toggleRun state events))) /\
  (lightOrDark (Toggle.theme state) ->
   lightOrDark (Toggle.theme (toggleRun state events))) /\
  (Toggle.mounted state = false ->
   Forall (eq Click) events -> toggleRun state events = state).
Proof.
  unfold toggleRun. split; [|split].
  - revert state. induction events as [|event events IH]; intros state;
      [now left|].
    simpl. destruct (IH (toggleStep state event)) as [Hsame|Hld];
      [|now right].
    rewrite Hsame.
    destruct (toggleStep_theme state event) as [->|(_ & _ & ->)];
      [now left|].
    right. destruct (isDark (Toggle.theme state)); [now left | now right].
  - revert state. induction events as [|event events IH]; intros state Hld;
      [exact Hld|].
    simpl. apply IH. now apply toggleStep_lightOrDark.
  - intros Hunmounted Hclicks. revert state Hunmounted.
    induction Hclicks as [|event events <- _ IH]; intros state Hunmounted;
      [reflexivity|].
    cbn [fold_left]. destruct state as [theme mounted].
    simpl in Hunmounted. subst mounted.
    rewrite toggleStep_unmounted. now apply IH.
Qed.

(** X18: on the mounted button two clicks bring the theme back exactly
    when it is light or dark; from any other theme they lead to light.
    The icon is the sun exactly when the theme is dark, that is, when a
    click sets light. *)
Theorem toggle_two_clicks (theme : option string) :
  (Toggle.theme
     (toggleRun {| Toggle.theme := theme; Toggle.mounted := true |}
        [Click; Click]) = theme <-> lightOrDark theme) /\
  (~ lightOrDark theme ->
   Toggle.theme
     (toggleRun {| Toggle.theme := theme; Toggle.mounted := true |}
        [Click; Click]) = Some "light"%string) /\
  (Button.icon (DarkModeToggle theme true) = Sun <->
   theme = Some "dark"%string) /\
  (Button.icon (DarkModeToggle theme true) = Sun <->
   Button.onClick (DarkModeToggle theme true) = Some "light"%string).
Proof.
  unfold toggleRun, lightOrDark. simpl. unfold isDark.
  destruct theme as [name|]; simpl.
  - destruct (String.eqb_spec name "dark") as [->|Hdark]; simpl.
    + repeat split; intros; try tauto; try reflexivity.
    + repeat split; intros; try discriminate; try congruence.
      * left. congruence.
      * destruct H as [H|H]; [congruence|]. injection H as ->. now elim Hdark.
  - repeat split; intros; try discriminate; try tauto.
    destruct H as [H|H]; discriminate H.
Qed.

(** * Line ends *)

Lemma crlf_empty (s : string) : crlf s = EmptyString <-> s = EmptyString.
Proof.
  destruct s as [|c s]; simpl; [tauto|].
  destruct (Ascii.eqb c "010"); split; discriminate.
Qed.

Lemma trimStart_crlf (s : string) : trimStart (crlf s) = crlf (trimStart s).
Proof.
  induction s as [|c s IH]; [reflexivity|]. simpl.
  destruct (Ascii.eqb_spec c "010") as [->|Hc].
  - simpl. exact IH.
  - simpl. destruct (isWhiteSpace c); [exact IH|].
    simpl. destruct (Ascii.eqb_spec c "010"); [contradiction | reflexivity].
Qed.

Lemma trimEnd_crlf (s : string) : trimEnd (crlf s) = crlf (trimEnd s).
Proof.
  induction s as [|c s IH]; [reflexivity|]. simpl crlf.
  destruct (Ascii.eqb_spec c "010") as [->|Hc].
  - change (trimEnd (String "013" (String "010" (crlf s))))
      with (match match trimEnd (crlf s) with
                  | EmptyString => EmptyString
                  | kept => String "010" kept
                  end with
            | EmptyString => EmptyString
            | kept => String "013" kept
            end).
    change (trimEnd (String "010" s))
      with (match trimEnd s with
            | EmptyString => EmptyString
            | kept => String "010" kept
            end).
    rewrite IH. destruct (trimEnd s) as [|d kept]; [reflexivity|].
    change (crlf (String "010" (String d kept)))
      with (String "013" (String "010" (crlf (String d kept)))).
    destruct (crlf (String d kept)) eqn:Hk; [|reflexivity].
    apply (proj1 (crlf_empty _)) in Hk. discriminate Hk.
  - simpl trimEnd. rewrite IH.
    destruct (trimEnd s) as [|d kept].
    + simpl. destruct (isWhiteSpace c); [reflexivity|]. simpl.
      destruct (Ascii.eqb_spec c "010"); [contradiction | reflexivity].
    + destruct (crlf (String d kept)) eqn:Hk.
      * apply (proj1 (crlf_empty _)) in Hk. discriminate Hk.
      * rewrite <- Hk. simpl.
        destruct (Ascii.eqb_spec c "010"); [contradiction | reflexivity].
Qed.

Lemma trim_crlf (s : string) : trim (crlf s) = crlf (trim s).
Proof. unfold trim. now rewrite trimStart_crlf, trimEnd_crlf. Qed.

Lemma split_nonempty (separator : ascii) (s : string) :
  split separator s <> [].
Proof.
  destruct s as [|c s]; simpl; [discriminate|].
  destruct (Ascii.eqb c separator); [discriminate|].
  destruct (split separator s); discriminate.
Qed.

(** The lines of the text with Windows line ends are the lines of the
    text, each but the last with a carriage return at its end. *)
Lemma split_crlf (s : string) :
  split "010" (crlf s) = withReturns (split "010" s).
Proof.
  induction s as [|c s IH]; [reflexivity|]. simpl crlf.
  destruct (Ascii.eqb_spec c "010") as [->|Hc].
  - simpl split at 1. simpl split at 2.
    pose proof (split_nonempty "010" s) as Hne.
    rewrite IH. destruct (split "010" s) as [|line rest]; [now elim Hne|].
    reflexivity.
  - simpl split. destruct (Ascii.eqb_spec c "010"); [contradiction|].
    rewrite IH. pose proof (split_nonempty "010" s) as Hne.
    destruct (split "010" s) as [|line rest]; [now elim Hne|].
    destruct rest as [|line' rest]; reflexivity.
Qed.

Lemma split_return (s : string) :
  split "," (s ++ carriageReturn) = returnAtEnd (split "," s).
Proof.
  induction s as [|c s IH]; [reflexivity|]. simpl.
  destruct (Ascii.eqb c ",").
  - rewrite IH. pose proof (split_nonempty "," s) as Hne.
    destruct (split "," s); [now elim Hne | reflexivity].
  - rewrite IH. pose proof (split_nonempty "," s) as Hne.
    destruct (split "," s) as [|piece rest]; [now elim Hne|].
    destruct rest; reflexivity.
Qed.

Lemma trimEnd_return (s : string) : trimEnd (s ++ carriageReturn) = trimEnd s.
Proof.
  induction s as [|c s IH]; [reflexivity|]. simpl. now rewrite IH.
Qed.

Lemma trimStart_return (s : string) :
  trimStart (s ++ carriageReturn) =
  match trimStart s with
  | EmptyString => EmptyString
  | kept => (kept ++ carriageReturn)%string
  end.
Proof.
  induction s as [|c s IH]; [reflexivity|]. simpl.
  destruct (isWhiteSpace c); [exact IH | reflexivity].
Qed.

Lemma trim_return (s : string) : trim (s ++ carriageReturn) = trim s.
Proof.
  unfold trim. rewrite trimStart_return.
  destruct (trimStart s) as [|c kept]; [reflexivity|].
  apply trimEnd_return.
Qed.

(** The trimmed fields of a line do not see a carriage return at its
    end. *)
Lemma fields_return (line : string) :
  map trim (split "," (line ++ carriageReturn)) = map trim (split "," line).
Proof.
  rewrite split_return.
  induction (split "," line) as [|piece rest IH]; [reflexivity|].
  destruct rest as [|piece' rest].
  - simpl. now rewrite trim_return.
  - change (returnAtEnd (piece :: piece' :: rest))
      with (piece :: returnAtEnd (piece' :: rest)).
    rewrite (map_cons trim piece (returnAtEnd (piece' :: rest))), IH.
    reflexivity.
Qed.

Lemma parseRow_return (parseFloat : string -> float)
  (customerIdIndex dateIndex amountIndex nameIndex : Z) (line : string) :
  parseRow parseFloat customerIdIndex dateIndex amountIndex nameIndex
    (line ++ carriageReturn) =
  parseRow parseFloat customerIdIndex dateIndex amountIndex nameIndex line.
Proof. unfold parseRow, parseFloatAt. now rewrite fields_return. Qed.

Lemma flat_map_withReturns (parseFloat : string -> float)
  (customerIdIndex dateIndex amountIndex nameIndex : Z) (lines : list string) :
  flat_map (parseRow parseFloat customerIdIndex dateIndex amountIndex nameIndex)
    (withReturns lines) =
  flat_map (parseRow parseFloat customerIdIndex dateIndex amountIndex nameIndex)
    lines.
Proof.
  induction lines as [|line rest IH]; [reflexivity|].
  destruct rest as [|line' rest]; [reflexivity|].
  change (withReturns (line :: line' :: rest))
    with ((line ++ carriageReturn)%string :: withReturns (line' :: rest)).
  change (flat_map ?f (?x :: ?l)) with (f x ++ flat_map f l).
  rewrite IH, parseRow_return. reflexivity.
Qed.

Lemma csvLines_crlf (csvText : string) :
  csvLines (crlf csvText) = withReturns (csvLines csvText).
Proof. unfold csvLines. now rewrite trim_crlf, split_crlf. Qed.

Lemma csvHeaders_crlf (csvText : string) :
  csvHeaders (crlf csvText) = csvHeaders csvText.
Proof.
  unfold csvHeaders. rewrite csvLines_crlf.
  destruct (csvLines csvText) as [|header rest]; [reflexivity|].
  destruct rest as [|line rest]; [reflexivity|].
  change (hd EmptyString (withReturns (header :: line :: rest)))
    with (header ++ carriageReturn)%string.
  simpl hd.
  rewrite <- (map_map trim toLowerCase), fields_return, map_map. reflexivity.
Qed.

(** X19: a file with Windows line ends is parsed as the same file with
    Unix line ends: the same headers are found or missing, and the same
    transactions are kept. *)
Theorem parseCsv_crlf (parseFloat : string -> float) (csvText : string) :
  parseCsv parseFloat (crlf csvText) = parseCsv parseFloat csvText.
Proof.
  unfold parseCsv. rewrite csvHeaders_crlf, csvLines_crlf.
  destruct (0 <? _); [reflexivity|]. f_equal.
  destruct (csvLines csvText) as [|header rest]; [reflexivity|].
  destruct rest as [|line rest]; [reflexivity|].
  change (tl (withReturns (header :: line :: rest)))
    with (withReturns (line :: rest)).
  apply flat_map_withReturns.
Qed.
